(** * ServiceCharm: the service lifecycle state machine and its sync tracker

    A shallow embedding of [lib/hpctops/charm/service.py] and of the two
    decorators of [lib/hpctops/misc.py] it is built from.

    The charm object is a record; every method is a computation in a small
    state-and-exception monad over that record, so that a mutation made
    before an exception is raised stays visible afterwards, exactly as for
    the attributes of a Python object.

    What is outside the embedding:
    - the [event] argument, which the core only forwards to the hooks;
    - [logger.debug] calls, and the [log_enter_exit] wrapper on the
      methods, which neither read nor write the charm (the decorator is
      embedded on its own further down, and shown to change nothing);
    - the text of the status line: the projected message is kept as the
      record of the values the f-string interpolates.

    Hooks and per-key handlers are code of subclasses.  They are modelled as
    oracles that either return or raise an exception object, of a class
    that derives from [Exception] or of one that does not ([SystemExit],
    [KeyboardInterrupt]); they do not write the service record themselves. *)

From Stdlib Require Import Ascii String List Bool Arith Lia.
From stdpp Require Import base option list gmap strings fin_maps.

Local Open Scope string_scope.
Local Open Scope list_scope.

(** ** Python values *)

(** A sync status is annotated [Union[bool, None]]. *)
Inductive SyncVal : Type :=
| PyNone
| PyBool (b : bool).

(** Truth value of a status, as used by [if v] and [not v]. *)
Definition truthy (v : SyncVal) : bool :=
  match v with
  | PyBool b => b
  | PyNone => false
  end.

(** [a == b] on statuses. *)
Definition SyncVal_eqb (a b : SyncVal) : bool :=
  match a, b with
  | PyNone, PyNone => true
  | PyBool x, PyBool y => Bool.eqb x y
  | _, _ => false
  end.

(** [s in l] for a string and a list literal. *)
Fixpoint str_in (s : string) (l : list string) : bool :=
  match l with
  | [] => false
  | x :: rest => if String.eqb s x then true else str_in s rest
  end.

(** An exception object: its class, its message, and whether the class
    derives from [Exception], as [RuntimeError] does, or only from
    [BaseException], as [SystemExit] and [KeyboardInterrupt] do. *)
Record exn : Type := mkExn {
  exn_class : string;
  exn_msg : string;
  isinstance_Exception : bool
}.

(** ** The status sink *)

Inductive Category : Type :=
| ActiveStatus
| BlockedStatus
| MaintenanceStatus
| WaitingStatus.

(** The values interpolated into the status line, in the order of the
    f-string of [service_update_status]. *)
Record StatusMessage : Type := mkMessage {
  msg_updated : string * string;
  msg_status_message : option string;
  msg_stale : bool;
  msg_state : string;
  msg_nsynced : nat;
  msg_nsyncs : nat;
  msg_syncs : gmap string SyncVal
}.

Record Status : Type := mkStatus {
  category : Category;
  message : StatusMessage
}.

(** ** The charm object *)

(** [_service_stored]: the persisted fields. *)
Record Stored : Type := mkStored {
  stale : bool;
  state : string;
  status_message : option string;
  syncs : gmap string SyncVal;
  updated : option (string * string)
}.

Inductive HookName : Type :=
| HConfigChanged
| HDisable
| HEnable
| HInstall
| HStart
| HStop
| HSync.

(** What an execution did, most recent first.  The trace is a ghost field:
    no method reads it. *)
Inductive TraceEvent : Type :=
| HookCalled (h : HookName)
| HandlerCalled (key : string) (status : SyncVal)
| Stamped (timestamp what : string)
| StatusProjected (s : Status).

(** A per-key callback [(key, status) -> None]; [Some e] when it raises. *)
Definition Handler : Type := string -> SyncVal -> option exn.

Record Charm : Type := mkCharm {
  stored : Stored;
  required_syncs : list string;
  (* [service_init_sync] stores the handler argument as it is, [None]
     included *)
  sync_handlers : gmap string (option Handler);
  unit_status : option Status;
  (* how many times [get_timestamp] has been called *)
  clock_reads : nat;
  trace : list TraceEvent
}.

Definition with_stored (f : Stored -> Stored) (c : Charm) : Charm :=
  mkCharm (f (stored c)) (required_syncs c) (sync_handlers c)
          (unit_status c) (clock_reads c) (trace c).

Definition with_required_syncs (l : list string) (c : Charm) : Charm :=
  mkCharm (stored c) l (sync_handlers c) (unit_status c) (clock_reads c)
          (trace c).

Definition with_sync_handlers
    (f : gmap string (option Handler) -> gmap string (option Handler))
    (c : Charm) : Charm :=
  mkCharm (stored c) (required_syncs c) (f (sync_handlers c))
          (unit_status c) (clock_reads c) (trace c).

Definition with_unit_status (s : Status) (c : Charm) : Charm :=
  mkCharm (stored c) (required_syncs c) (sync_handlers c) (Some s)
          (clock_reads c) (trace c).

Definition tick (c : Charm) : Charm :=
  mkCharm (stored c) (required_syncs c) (sync_handlers c) (unit_status c)
          (S (clock_reads c)) (trace c).

Definition record (ev : TraceEvent) (c : Charm) : Charm :=
  mkCharm (stored c) (required_syncs c) (sync_handlers c) (unit_status c)
          (clock_reads c) (ev :: trace c).

Definition set_stale (b : bool) (s : Stored) : Stored :=
  mkStored b (state s) (status_message s) (syncs s) (updated s).

Definition set_state (st : string) (s : Stored) : Stored :=
  mkStored (stale s) st (status_message s) (syncs s) (updated s).

Definition set_status_message (m : option string) (s : Stored) : Stored :=
  mkStored (stale s) (state s) m (syncs s) (updated s).

Definition set_syncs (m : gmap string SyncVal) (s : Stored) : Stored :=
  mkStored (stale s) (state s) (status_message s) m (updated s).

Definition set_updated (u : string * string) (s : Stored) : Stored :=
  mkStored (stale s) (state s) (status_message s) (syncs s) (Some u).

(** ** The environment: subclass hooks and the wall clock *)

(** The overridable methods.  Each is an oracle on the charm it is called
    on; the ones that take [force] in the source take it here. *)
Record Env : Type := mkEnv {
  _service_disable : bool -> Charm -> option exn;
  _service_enable : bool -> Charm -> option exn;
  _service_on_config_changed : Charm -> option exn;
  _service_install : Charm -> option exn;
  _service_start : Charm -> option exn;
  _service_stop : bool -> Charm -> option exn;
  _service_sync : bool -> Charm -> option exn;
  (* the n-th string returned by [time.strftime] *)
  clock : nat -> string
}.

(** ** Computations *)

Inductive outcome (A : Type) : Type :=
| Normal (a : A)
| Raised (e : exn).
Arguments Normal {A} a.
Arguments Raised {A} e.

Definition M (A : Type) : Type := Charm -> outcome A * Charm.

Definition ret {A} (a : A) : M A := fun c => (Normal a, c).

Definition raise {A} (e : exn) : M A := fun c => (Raised e, c).

Definition bind {A B} (m : M A) (k : A -> M B) : M B :=
  fun c =>
    match m c with
    | (Normal a, c1) => k a c1
    | (Raised e, c1) => (Raised e, c1)
    end.

Notation "'let!' x ':=' m 'in' k" := (bind m (fun x => k))
  (at level 10, x name, m at level 100, k at level 200,
   format "'[v' 'let!'  x  ':='  m  'in' '/' k ']'").
Notation "m '>>' k" := (bind m (fun _ => k))
  (at level 65, right associativity).

Definition gets {A} (f : Charm -> A) : M A := fun c => (Normal (f c), c).

Definition modify (f : Charm -> Charm) : M unit := fun c => (Normal tt, f c).

(** [try: m  except Exception as e: h e]; an exception that is not an
    instance of [Exception] passes through. *)
Definition try_except {A} (m : M A) (h : exn -> M A) : M A :=
  fun c =>
    match m c with
    | (Normal a, c1) => (Normal a, c1)
    | (Raised e, c1) =>
        if isinstance_Exception e then h e c1 else (Raised e, c1)
    end.

(** [try: m  except: h]; the bare clause catches every exception. *)
Definition try_except_all {A} (m : M A) (h : M A) : M A :=
  fun c =>
    match m c with
    | (Normal a, c1) => (Normal a, c1)
    | (Raised _, c1) => h c1
    end.

(** [try: m  finally: fin]; an exception of [fin] replaces the outcome. *)
Definition try_finally {A} (m : M A) (fin : M unit) : M A :=
  fun c =>
    match m c with
    | (r, c1) =>
        match fin c1 with
        | (Normal _, c2) => (r, c2)
        | (Raised e, c2) => (Raised e, c2)
        end
    end.

Definition exec {A} (m : M A) (c : Charm) : Charm := snd (m c).

Definition result {A} (m : M A) (c : Charm) : outcome A := fst (m c).

(** ** misc.py *)

Section Methods.

Variable env : Env.

(** [get_timestamp]: reads the wall clock. *)
Definition get_timestamp : M string :=
  fun c => (Normal (clock env (clock_reads c)), tick c).

(** Calling an overridable method: it returns or raises. *)
Definition call_hook (h : HookName) (f : Charm -> option exn) : M unit :=
  fun c =>
    match f c with
    | None => (Normal tt, record (HookCalled h) c)
    | Some e => (Raised e, record (HookCalled h) c)
    end.

(** [handler(key, status)] *)
Definition call_handler (h : Handler) (key : string) (status : SyncVal)
    : M unit :=
  fun c =>
    match h key status with
    | None => (Normal tt, record (HandlerCalled key status) c)
    | Some e => (Raised e, record (HandlerCalled key status) c)
    end.

(** ** service.py: constants *)

Definition PRESTARTED_STATES : list string :=
  ["enabled"; "waiting"; "broken"].

Definition STARTED_STATES : list string :=
  ["started"; "waiting"; "broken"].

(** ** Getters *)

Definition service_get_syncs (c : Charm) : gmap string SyncVal :=
  syncs (stored c).

(** [self._service_stored.syncs.get(key, False)] *)
Definition service_get_sync (c : Charm) (key : string) : SyncVal :=
  default (PyBool false) (syncs (stored c) !! key).

Definition service_get_stale (c : Charm) : bool := stale (stored c).

Definition service_get_state (c : Charm) : string := state (stored c).

Definition service_get_updated (c : Charm) : option (string * string) :=
  updated (stored c).

Definition service_is_running (c : Charm) : bool :=
  str_in (service_get_state c) ["started"; "waiting"; "broken"].

(** The loop of [service_is_synced], with its early return. *)
Fixpoint is_synced_loop (c : Charm) (names : list string) : bool :=
  match names with
  | [] => true
  | name :: rest =>
      if negb (truthy (service_get_sync c name)) then false
      else is_synced_loop c rest
  end.

Definition service_is_synced (c : Charm) : bool :=
  is_synced_loop c (required_syncs c).

(** ** Setters and the status projection *)

(** [timestamp = timestamp or get_timestamp()]: [None] and the empty
    string both read the clock. *)
Definition service_set_updated (what : string) (timestamp : option string)
    : M unit :=
  let! ts := match timestamp with
             | Some t => if String.eqb t "" then get_timestamp else ret t
             | None => get_timestamp
             end in
  modify (fun c => record (Stamped ts what)
                     (with_stored (set_updated (ts, what)) c)).

Definition status_category (st : string) : Category :=
  if str_in st ["broken"] then BlockedStatus
  else if str_in st ["idle"; "enabled"] then MaintenanceStatus
  else if str_in st ["waiting"] then WaitingStatus
  else if str_in st ["started"] then ActiveStatus
  else MaintenanceStatus.

(** [len([v for v in syncs.values() if v])] *)
Definition count_synced (m : gmap string SyncVal) : nat :=
  length (filter (fun v => truthy v = true) (snd <$> map_to_list m)).

(** The status [service_update_status] builds when [updated] is the
    pair [u]. *)
Definition project (s : Stored) (u : string * string) : Status :=
  mkStatus (status_category (state s))
    (mkMessage u (status_message s) (stale s) (state s)
       (count_synced (syncs s)) (size (syncs s)) (syncs s)).

(** [tuple(self.service_get_updated())] raises [TypeError] on [None]. *)
Definition service_update_status : M unit :=
  fun c =>
    match service_get_updated c with
    | None =>
        (Raised (mkExn "TypeError" "'NoneType' object is not iterable" true),
         c)
    | Some u =>
        let s := project (stored c) u in
        (Normal tt, record (StatusProjected s) (with_unit_status s c))
    end.

(** [service_forced_update(what)]: the wrapped call in try/finally; the
    finally block stamps and projects inside a bare try/except. *)
Definition service_forced_update {A} (what : option string)
    (qualname : string) (func : M A) : M A :=
  let _what := match what with
               | Some w => if String.eqb w "" then "[" +:+ qualname +:+ "]"
                           else w
               | None => "[" +:+ qualname +:+ "]"
               end in
  try_finally func
    (try_except_all (service_set_updated _what None >> service_update_status)
                    (ret tt)).

Definition service_set_required_syncs (keys : list string) : M unit :=
  modify (with_required_syncs keys).

Definition service_set_stale (st : bool) : M unit :=
  let! current := gets service_get_stale in
  if negb (Bool.eqb current st) then
    modify (with_stored (set_stale st)) >>
    service_set_updated "stale" None >>
    service_update_status
  else ret tt.

Definition service_set_state (st : string) : M unit :=
  let! current := gets service_get_state in
  let! synced := gets service_is_synced in
  let st := if str_in st ["broken"; "waiting"] then "started" else st in
  let st := if String.eqb st "started" then
              if negb synced then
                if str_in current ["broken"; "started"] then "broken"
                else "waiting"
              else st
            else st in
  if negb (String.eqb current st) then
    modify (with_stored (set_state st)) >>
    service_set_updated "state" None >>
    service_update_status
  else ret tt.

Definition service_set_status_message (msg : option string) : M unit :=
  modify (with_stored (set_status_message msg)).

Definition service_set_sync (key : string) (status : SyncVal) (force : bool)
    : M unit :=
  let! current := gets (fun c => default PyNone (syncs (stored c) !! key)) in
  let '(status, force) :=
    if SyncVal_eqb status PyNone then (current, true) else (status, force) in
  if negb (SyncVal_eqb current status) || force then
    modify (with_stored (fun s => set_syncs (<[key := status]> (syncs s)) s)) >>
    (let! handler := gets (fun c => sync_handlers c !! key) in
     match handler with
     | Some (Some h) =>
         try_except (call_handler h key status) (fun _ => ret tt)
     | _ => ret tt
     end) >>
    (let! st := gets service_get_state in service_set_state st) >>
    service_set_updated "sync" None >>
    service_update_status
  else ret tt.

Definition service_init_sync (key : string) (status : bool)
    (handler : option Handler) : M unit :=
  (let! present := gets (fun c => bool_decide (is_Some (syncs (stored c) !! key))) in
   if negb present then service_set_sync key (PyBool status) false
   else ret tt) >>
  modify (with_sync_handlers (fun hs => <[key := handler]> hs)).

(** ** Lifecycle operations *)

Definition service_disable (force : bool) : M unit :=
  service_forced_update (Some "disable") "ServiceCharm.service_disable"
    (let! st := gets service_get_state in
     if String.eqb st "enabled" then
       try_except
         (call_hook HDisable (_service_disable env force) >>
          service_set_state "idle" >>
          service_set_updated "disable" None)
         (fun _ => ret tt)
     else ret tt).

Definition service_enable (force : bool) : M unit :=
  service_forced_update (Some "enable") "ServiceCharm.service_enable"
    (let! st := gets service_get_state in
     if String.eqb st "idle" then
       try_except
         (call_hook HEnable (_service_enable env force) >>
          service_set_state "enabled" >>
          service_set_updated "enable" None)
         (fun _ => ret tt)
     else ret tt).

Definition service_install : M unit :=
  service_forced_update (Some "install") "ServiceCharm.service_install"
    (call_hook HInstall (_service_install env)).

(** [self._service_sync(event)]: the hook's [force] keeps its default. *)
Definition service_sync (force : bool) : M unit :=
  (let! st := gets service_get_state in
   if negb (str_in st PRESTARTED_STATES) && negb force then
     service_set_stale true >>
     service_set_updated "sync" None
   else
     try_except
       (call_hook HSync (_service_sync env false) >>
        service_set_stale false >>
        service_set_updated "sync" None)
       (fun _ => ret tt)) >>
  service_update_status.

Definition service_start : M unit :=
  let! st := gets service_get_state in
  if str_in st PRESTARTED_STATES then
    try_except
      (service_sync false >>
       call_hook HStart (_service_start env) >>
       service_set_state "started" >>
       service_set_updated "start" None)
      (fun _ => ret tt) >>
    service_update_status
  else ret tt.

Definition service_stop (force : bool) : M unit :=
  let! st := gets service_get_state in
  if str_in st STARTED_STATES then
    try_except
      (call_hook HStop (_service_stop env force) >>
       service_set_state "enabled" >>
       service_set_updated "stop" None)
      (fun _ => ret tt) >>
    service_update_status
  else ret tt.

(** [sync] is accepted and not used. *)
Definition service_restart (force sync : bool) : M unit :=
  service_stop force >>
  service_start.

(** ** Registered handlers *)

(** The parameters of an action event; a field is [None] when
    [event.params[...]] raises.  A lifecycle event has none of them. *)
Record Event : Type := mkEvent {
  param_key : option string;
  param_status : option SyncVal;
  param_force : option bool;
  param_sync : option bool
}.

Definition _on_config_changed : M unit :=
  service_forced_update (Some "config-changed")
    "ServiceCharm._on_config_changed"
    (call_hook HConfigChanged (_service_on_config_changed env)).

Definition _on_install : M unit := service_install.

Definition _on_start : M unit :=
  service_enable false >>
  service_start.

Definition _on_stop : M unit :=
  service_stop false >>
  service_disable false >>
  service_update_status.

Definition _on_update_status : M unit := service_update_status.

(** [self.service_restart(force, sync)]: the two values land in the
    [event] and [force] parameters of [service_restart]. *)
Definition _on_service_restart_action (event : Event) : M unit :=
  service_forced_update (Some "restart-action")
    "ServiceCharm._on_service_restart_action"
    (let '(force, sync) :=
       match param_force event, param_sync event with
       | Some f, Some s => (f, s)
       | _, _ => (false, false)
       end in
     service_restart sync false).

Definition _on_service_set_sync_action (event : Event) : M unit :=
  try_except
    (match param_key event, param_status event with
     | Some key, Some status =>
         let! cur := gets (fun c => service_get_sync c key) in
         if negb (SyncVal_eqb cur PyNone) then
           service_set_sync key status false >>
           service_update_status
         else ret tt
     | _, _ => raise (mkExn "KeyError" "params" true)
     end)
    (fun _ => ret tt).

Definition _on_service_start_action : M unit := service_start.

Definition _on_service_stop_action (event : Event) : M unit :=
  let force := default false (param_force event) in
  service_stop force.

Definition _on_service_sync_action (event : Event) : M unit :=
  service_forced_update (Some "sync-action")
    "ServiceCharm._on_service_sync_action"
    (let force := default false (param_force event) in
     service_sync force).

(** ** Construction *)

(** [__init__]: [set_default] fills the fields the storage does not hold
    yet, so a charm built over the storage of an earlier run keeps that
    run's record; the requirement list and the handlers start empty. *)
Definition default_stored : Stored :=
  mkStored true "idle" None ∅ None.

Definition __init__ (persisted : option Stored) (reads : nat) : Charm :=
  exec (service_set_updated "init" None)
       (mkCharm (default default_stored persisted) [] ∅ None reads []).

(** ** Everything a caller can invoke *)

Inductive Op : Type :=
| Op_service_disable (force : bool)
| Op_service_enable (force : bool)
| Op_service_init_sync (key : string) (status : bool)
    (handler : option Handler)
| Op_service_install
| Op_service_restart (force sync : bool)
| Op_service_set_required_syncs (keys : list string)
| Op_service_set_stale (st : bool)
| Op_service_set_state (st : string)
| Op_service_set_status_message (msg : option string)
| Op_service_set_sync (key : string) (status : SyncVal) (force : bool)
| Op_service_set_updated (what : string) (timestamp : option string)
| Op_service_start
| Op_service_stop (force : bool)
| Op_service_sync (force : bool)
| Op_service_update_status
| Op_on_config_changed
| Op_on_install
| Op_on_start
| Op_on_stop
| Op_on_update_status
| Op_on_service_restart_action (event : Event)
| Op_on_service_set_sync_action (event : Event)
| Op_on_service_start_action
| Op_on_service_stop_action (event : Event)
| Op_on_service_sync_action (event : Event).

Definition run (op : Op) : M unit :=
  match op with
  | Op_service_disable force => service_disable force
  | Op_service_enable force => service_enable force
  | Op_service_init_sync key status handler =>
      service_init_sync key status handler
  | Op_service_install => service_install
  | Op_service_restart force sync => service_restart force sync
  | Op_service_set_required_syncs keys => service_set_required_syncs keys
  | Op_service_set_stale st => service_set_stale st
  | Op_service_set_state st => service_set_state st
  | Op_service_set_status_message msg => service_set_status_message msg
  | Op_service_set_sync key status force => service_set_sync key status force
  | Op_service_set_updated what timestamp =>
      service_set_updated what timestamp
  | Op_service_start => service_start
  | Op_service_stop force => service_stop force
  | Op_service_sync force => service_sync force
  | Op_service_update_status => service_update_status
  | Op_on_config_changed => _on_config_changed
  | Op_on_install => _on_install
  | Op_on_start => _on_start
  | Op_on_stop => _on_stop
  | Op_on_update_status => _on_update_status
  | Op_on_service_restart_action event => _on_service_restart_action event
  | Op_on_service_set_sync_action event => _on_service_set_sync_action event
  | Op_on_service_start_action => _on_service_start_action
  | Op_on_service_stop_action event => _on_service_stop_action event
  | Op_on_service_sync_action event => _on_service_sync_action event
  end.

(** The charms an execution can hold: a freshly constructed one, one
    constructed again over the record of an earlier run, and whatever an
    operation leaves behind, whether it returned or raised. *)
Inductive reachable : Charm -> Prop :=
| reach_fresh reads : reachable (__init__ None reads)
| reach_restart c reads :
    reachable c -> reachable (__init__ (Some (stored c)) reads)
| reach_step c op : reachable c -> reachable (exec (run op) c).

End Methods.

(** * Vocabulary of the properties *)

#[global] Instance SyncVal_eq_dec : EqDecision SyncVal.
Proof. solve_decision. Defined.

(** The charm after [service_set_updated what] has read the clock. *)
Definition stamp (env : Env) (what : string) (c : Charm) : Charm :=
  let ts := clock env (clock_reads c) in
  record (Stamped ts what) (with_stored (set_updated (ts, what)) (tick c)).

(** The charm after [service_update_status] has run with [updated = u]. *)
Definition show (u : string * string) (c : Charm) : Charm :=
  let s := project (stored c) u in
  record (StatusProjected s) (with_unit_status s c).

(** The three fields whose changes must not go unnoticed. *)
Definition tracked (c : Charm) : gmap string SyncVal * string * bool :=
  (syncs (stored c), state (stored c), stale (stored c)).

(** What a projected status displays of them. *)
Definition shown (s : Status) : gmap string SyncVal * string * bool :=
  (msg_syncs (message s), msg_state (message s), msg_stale (message s)).

(** [updated] holds a pair stamped by one of the events [new]. *)
Definition stamped_in (new : list TraceEvent) (c : Charm) : Prop :=
  exists ts what,
    updated (stored c) = Some (ts, what) /\ Stamped ts what ∈ new.

(** The unit status was projected by one of the events [new] and displays
    the current values of the tracked fields. *)
Definition projected_in (new : list TraceEvent) (c : Charm) : Prop :=
  exists s,
    unit_status c = Some s /\ StatusProjected s ∈ new /\ shown s = tracked c.

(** [c'] comes after [c] and every change in between is accounted for:
    [updated] moves only by stamping, the unit status only by projecting,
    and a change of a tracked field is followed by both. *)
Definition accounted (c c' : Charm) : Prop :=
  exists new,
    trace c' = new ++ trace c /\
    (updated (stored c') = updated (stored c) \/ stamped_in new c') /\
    (unit_status c' = unit_status c \/ projected_in new c') /\
    (tracked c' <> tracked c -> stamped_in new c' /\ projected_in new c').

Definition accounts {A} (m : M A) : Prop :=
  forall c, accounted c (exec m c).

(** [m] always returns. *)
Definition total {A} (m : M A) : Prop :=
  forall c, exists a, result m c = Normal a.

(** What a hook or a handler did is within reach of [except Exception]:
    it returned, or it raised an instance of [Exception]. *)
Definition ordinary (r : option exn) : bool :=
  match r with
  | Some e => isinstance_Exception e
  | None => true
  end.

(** What [try: hook  except Exception: pass] lets out. *)
Definition passes (r : option exn) : outcome unit :=
  match r with
  | Some e => if isinstance_Exception e then Normal tt else Raised e
  | None => Normal tt
  end.

(** The handler registered for [key], if there is one, is ordinary when
    called with [(key, status)]. *)
Definition handler_ordinary (c : Charm) (key : string) (status : SyncVal)
    : bool :=
  match (sync_handlers c !! key : option (option Handler)) with
  | Some (Some h) => ordinary (h key status)
  | _ => true
  end.

(** Every registered handler is ordinary on every call. *)
Definition handlers_ordinary (c : Charm) : Prop :=
  forall key status, handler_ordinary c key status = true.

(** The handler step of [service_set_sync]. *)
Definition notify (key : string) (status : SyncVal) : M unit :=
  let! handler := gets (fun c => sync_handlers c !! key) in
  match handler with
  | Some (Some h) => try_except (call_handler h key status) (fun _ => ret tt)
  | _ => ret tt
  end.

(** The state re-evaluation of [service_set_sync]. *)
Definition reevaluate (env : Env) : M unit :=
  let! st := gets service_get_state in service_set_state env st.

(** The status and the force flag [service_set_sync] works with after its
    [if status == None] block. *)
Definition effective (current status : SyncVal) (force : bool)
    : SyncVal * bool :=
  if SyncVal_eqb status PyNone then (current, true) else (status, force).

(** The status [service_set_sync] ends up writing. *)
Definition written (c : Charm) (key : string) (status : SyncVal)
    (force : bool) : SyncVal :=
  (effective (default PyNone (syncs (stored c) !! key)) status force).1.

(** The state [service_set_state] settles on when asked for [st] from
    [current]: its two [if] blocks, without the commit. *)
Definition resolve (current st : string) (synced : bool) : string :=
  let st := if str_in st ["broken"; "waiting"] then "started" else st in
  if String.eqb st "started" then
    if negb synced then
      if str_in current ["broken"; "started"] then "broken" else "waiting"
    else st
  else st.

(** Stamp, then project: the tail of every committing operation. *)
Definition settle (env : Env) (what : string) (c : Charm) : Charm :=
  show (clock env (clock_reads c), what) (stamp env what c).

#[global] Instance HookName_eq_dec : EqDecision HookName.
Proof. solve_decision. Defined.

(** How many times the hook [h] was called along a trace. *)
Definition hook_calls (h : HookName) (tr : list TraceEvent) : nat :=
  length (List.filter
            (fun ev => match ev with
                       | HookCalled h' => bool_decide (h' = h)
                       | _ => false
                       end) tr).

(** How many times a handler was called with [(key, status)]. *)
Definition handler_calls (key : string) (status : SyncVal)
    (tr : list TraceEvent) : nat :=
  length (List.filter
            (fun ev => match ev with
                       | HandlerCalled k v =>
                           bool_decide (k = key) && bool_decide (v = status)
                       | _ => false
                       end) tr).

(** How many times [updated] was stamped. *)
Definition stamps (tr : list TraceEvent) : nat :=
  length (List.filter
            (fun ev => match ev with Stamped _ _ => true | _ => false end)
            tr).

(** How many times the status was projected. *)
Definition projections (tr : list TraceEvent) : nat :=
  length (List.filter
            (fun ev => match ev with StatusProjected _ => true | _ => false end)
            tr).

Arguments hook_calls : simpl never.
Arguments handler_calls : simpl never.
Arguments stamps : simpl never.
Arguments projections : simpl never.

(** ** Charms and environments of the examples *)

(** The hooks of the base class: every one is [pass]. *)
Definition base_env : Env :=
  mkEnv (fun _ _ => None) (fun _ _ => None) (fun _ => None) (fun _ => None)
        (fun _ => None) (fun _ _ => None) (fun _ _ => None)
        (fun _ => "20220101-000000").

Definition boom : exn := mkExn "RuntimeError" "boom" true.

(** A subclass whose install, start, stop and sync hooks all raise. *)
Definition failing_env : Env :=
  mkEnv (fun _ _ => None) (fun _ _ => None) (fun _ => None)
        (fun _ => Some boom) (fun _ => Some boom) (fun _ _ => Some boom)
        (fun _ _ => Some boom) (fun _ => "20220101-000000").

(** A charm right after construction on empty storage. *)
Definition fresh : Charm := __init__ base_env None 0.

(** The same charm in another lifecycle state. *)
Definition fresh_in (st : string) : Charm :=
  with_stored (set_state st) fresh.

(** A charm that requires the sync key ["db"], which nothing has set. *)
Definition needs_db : Charm := with_required_syncs ["db"] fresh.

(** A handler that always raises. *)
Definition raising_handler : Handler := fun _ _ => Some boom.

(** A charm on which ["db"] was initialised to [False] with that handler. *)
Definition guarded : Charm :=
  exec (service_init_sync base_env "db" false (Some raising_handler)) fresh.

(** [needs_db] once ["db"] has been set. *)
Definition db_synced : Charm :=
  exec (service_set_sync base_env "db" (PyBool true) false) needs_db.

(** [SystemExit] derives from [BaseException], not from [Exception]. *)
Definition sys_exit : exn := mkExn "SystemExit" "" false.

(** A handler that calls [sys.exit]. *)
Definition exiting_handler : Handler := fun _ _ => Some sys_exit.

(** A charm that requires ["db"], watches it with that handler, and has
    had its start event: it waits for ["db"]. *)
Definition watched : Charm :=
  exec (_on_start base_env)
    (exec (service_init_sync base_env "db" false (Some exiting_handler))
       needs_db).

(** * The rest of the library *)

(** ** misc.py: [log_enter_exit] *)

Inductive LogPhase : Type :=
| ENTER
| EXIT.

(** [_logfn(...)]: the log function returns or raises; what it prints is
    not part of the charm. *)
Definition call_log (logfn : LogPhase -> Charm -> option exn)
    (phase : LogPhase) : M unit :=
  fun c =>
    match logfn phase c with
    | None => (Normal tt, c)
    | Some e => (Raised e, c)
    end.

(** The wrapper of [log_enter_exit]: both log calls sit in a bare
    try/except, the wrapped call in try/finally. *)
Definition log_enter_exit {A} (logfn : LogPhase -> Charm -> option exn)
    (func : M A) : M A :=
  try_finally
    (try_except_all (call_log logfn ENTER) (ret tt) >> func)
    (try_except_all (call_log logfn EXIT) (ret tt)).

(** ** node.py: [NodeCharm] *)

(** [relname.replace("-", "_")] *)
Fixpoint replace_dash (s : string) : string :=
  match s with
  | EmptyString => EmptyString
  | String a rest =>
      String (if Ascii.eqb a "-"%char then "_"%char else a)
             (replace_dash rest)
  end.

Section Node.

Variable env : Env.

(** Whether [self.on] has the named event, which depends on the metadata
    of the charm; [getattr] raises [AttributeError] when it has not. *)
Variable has_event : string -> bool.

Definition get_on_event (name : string) : M unit :=
  if has_event name then ret tt
  else raise (mkExn "AttributeError" name true).

(** [relname = event.relation.name] is the argument here. *)
Definition _on_subordinate_relation_joined (relname : string) : M unit :=
  service_set_sync env relname (PyBool true) false.

Definition _on_subordinate_relation_changed (relname : string) : M unit :=
  service_set_sync env relname (PyBool true) false.

Definition _on_subordinate_relation_departed (relname : string) : M unit :=
  service_set_sync env relname (PyBool false) false.

(** The loop of [setup_subordinate_relations_and_syncs]; [framework.observe]
    itself belongs to the host framework and leaves the charm alone. *)
Fixpoint setup_loop (relnames : list string) (required_syncs : list string)
    : M (list string) :=
  match relnames with
  | [] => ret required_syncs
  | relname :: rest =>
      let urelname := replace_dash relname in
      get_on_event (urelname +:+ "_relation_joined") >>
      get_on_event (urelname +:+ "_relation_departed") >>
      service_init_sync env relname false None >>
      setup_loop rest (required_syncs ++ [relname])
  end.

Definition setup_subordinate_relations_and_syncs (relnames : list string)
    : M unit :=
  let! required_syncs := setup_loop relnames [] in
  service_set_required_syncs required_syncs.

End Node.

(** * Vocabulary of the further properties *)

(** Every execution of [m] relates the charm it starts from to the charm
    it leaves. *)
Definition respects (R : Charm -> Charm -> Prop) {A} (m : M A) : Prop :=
  forall c, R c (exec m c).

(** The two charms agree on what the sync tracker and the state machine
    decide from. *)
Definition same_core (c c' : Charm) : Prop :=
  syncs (stored c') = syncs (stored c) /\
  state (stored c') = state (stored c) /\
  required_syncs c' = required_syncs c /\
  sync_handlers c' = sync_handlers c.

(** The five states of the class. *)
Definition LIFECYCLE_STATES : list string :=
  ["idle"; "enabled"; "started"; "waiting"; "broken"].

(** The operations that drive the lifecycle: all but the direct setters
    and the sync tracker's own entry points. *)
Definition is_lifecycle (op : Op) : bool :=
  match op with
  | Op_service_init_sync _ _ _
  | Op_service_set_required_syncs _
  | Op_service_set_state _
  | Op_service_set_sync _ _ _
  | Op_on_service_set_sync_action _ => false
  | _ => true
  end.

(** The charm after the successive relations of [relnames] have joined. *)
Fixpoint join_all (env : Env) (relnames : list string) (c : Charm) : Charm :=
  match relnames with
  | [] => c
  | relname :: rest =>
      join_all env rest (exec (_on_subordinate_relation_joined env relname) c)
  end.

(** A log function that raises at both ends. *)
Definition broken_logger : LogPhase -> Charm -> option exn :=
  fun _ _ => Some boom.

(** A charm whose metadata declares every relation. *)
Definition any_event : string -> bool := fun _ => true.

(** A charm whose metadata declares no relation at all. *)
Definition no_event : string -> bool := fun _ => false.

(** What the sync tracker holds: the statuses, the required keys and the
    handlers. *)
Definition frame (c c' : Charm) : Prop :=
  syncs (stored c') = syncs (stored c) /\
  required_syncs c' = required_syncs c /\
  sync_handlers c' = sync_handlers c.

(** A state among the five stays among the five. *)
Definition keeps_known (c c' : Charm) : Prop :=
  state (stored c) ∈ LIFECYCLE_STATES -> state (stored c') ∈ LIFECYCLE_STATES.

(** The sync key an operation is given, if it is given one. *)
Definition op_key (op : Op) : option string :=
  match op with
  | Op_service_init_sync key _ _ => Some key
  | Op_service_set_sync key _ _ => Some key
  | Op_on_service_set_sync_action event => param_key event
  | _ => None
  end.

(** The charm after [service_init_sync(relname, False)] for the successive
    names of [relnames]. *)
Definition init_all (env : Env) (relnames : list string) (c : Charm) : Charm :=
  foldl (fun c relname => exec (service_init_sync env relname false None) c)
        c relnames.

(** The charm's metadata declares both relation events of [relname]. *)
Definition declared (has_event : string -> bool) (relname : string) : bool :=
  has_event (replace_dash relname +:+ "_relation_joined") &&
  has_event (replace_dash relname +:+ "_relation_departed").

(** The keys of [relnames] that hold no status yet have no handler that
    raises outside [Exception] when it is called with [False]. *)
Definition new_keys_ordinary (c : Charm) (relnames : list string) : Prop :=
  forall r, r ∈ relnames -> syncs (stored c) !! r = None ->
            handler_ordinary c r (PyBool false) = true.

(** The state follows the sync status, short of [s0]. *)
Definition follows (s0 : string) (c : Charm) : Prop :=
  state (stored c) = if service_is_synced c then "started" else s0.

(** [needs_db] once enabled. *)
Definition enabled_needs_db : Charm :=
  with_stored (set_state "enabled") needs_db.

(** [needs_db] once started, had ["db"] been synced. *)
Definition started_needs_db : Charm :=
  with_stored (set_state "started") needs_db.

(** [needs_db] after the start event: it waits for ["db"]. *)
Definition waiting_for_db : Charm := exec (_on_start base_env) needs_db.

(** [waiting_for_db] after the relation ["db"] has joined. *)
Definition node_started : Charm := join_all base_env ["db"] waiting_for_db.

(** A subclass whose stop hook raises unless it is forced. *)
Definition stubborn_env : Env :=
  mkEnv (fun _ _ => None) (fun _ _ => None) (fun _ => None) (fun _ => None)
        (fun _ => None) (fun force _ => if force then None else Some boom)
        (fun _ _ => None) (fun _ => "20220101-000000").

(** The restart action with [force=True sync=False]. *)
Definition forced_restart : Event :=
  mkEvent None None (Some true) (Some false).

(** The set-sync action for [key=db status=True]. *)
Definition db_synced_event : Event :=
  mkEvent (Some "db") (Some (PyBool true)) None None.

(** * Properties *)

(** ** Comparisons *)

Lemma SyncVal_eqb_eq (a b : SyncVal) : SyncVal_eqb a b = true <-> a = b.
Proof.
  destruct a as [|x], b as [|y]; simpl; split; try congruence; try done.
  - intros H. apply Bool.eqb_prop in H. by subst.
  - intros [= ->]. apply Bool.eqb_reflx.
Qed.

Lemma SyncVal_eqb_refl (a : SyncVal) : SyncVal_eqb a a = true.
Proof. by apply SyncVal_eqb_eq. Qed.

Lemma truthy_true (v : SyncVal) : truthy v = true <-> v = PyBool true.
Proof. destruct v as [|[]]; simpl; split; congruence. Qed.

Lemma str_in_spec (s : string) (l : list string) :
  str_in s l = true <-> s ∈ l.
Proof.
  induction l as [|x l IH]; simpl.
  - split; [done | by intros ?%not_elem_of_nil].
  - rewrite elem_of_cons. destruct (String.eqb_spec s x) as [->|Hne].
    + split; auto.
    + rewrite IH. split; [auto | by intros [?|?]].
Qed.

(** ** The sync tracker *)

Lemma service_get_sync_true (c : Charm) (key : string) :
  service_get_sync c key = PyBool true <->
  syncs (stored c) !! key = Some (PyBool true).
Proof.
  unfold service_get_sync.
  destruct (syncs (stored c) !! key) as [v|]; simpl; split; congruence.
Qed.

Lemma is_synced_loop_spec (c : Charm) (names : list string) :
  is_synced_loop c names = true <->
  forall key, key ∈ names -> syncs (stored c) !! key = Some (PyBool true).
Proof.
  induction names as [|name rest IH]; simpl.
  - split; [by intros _ key ?%not_elem_of_nil | done].
  - destruct (truthy (service_get_sync c name)) eqn:Hname; simpl.
    + apply truthy_true, service_get_sync_true in Hname.
      rewrite IH. split.
      * intros Hrest key [->|Hin]%elem_of_cons; auto.
      * intros Hall key Hin. apply Hall. by apply list_elem_of_further.
    + split; [done |]. intros Hall.
      assert (truthy (service_get_sync c name) = true) as Habs.
      { apply truthy_true, service_get_sync_true, Hall, list_elem_of_here. }
      congruence.
Qed.

(** Only the statuses of the listed names are read. *)
Lemma is_synced_loop_ext (c c' : Charm) (names : list string) :
  (forall key, key ∈ names ->
     syncs (stored c') !! key = syncs (stored c) !! key) ->
  is_synced_loop c' names = is_synced_loop c names.
Proof.
  induction names as [|name rest IH]; simpl; intros Hsame; [done |].
  unfold service_get_sync.
  rewrite (Hsame name) by apply list_elem_of_here.
  rewrite IH; [done |]. intros key Hin. apply Hsame.
  by apply list_elem_of_further.
Qed.

(** C5: [service_is_synced] returns [True] exactly when every key of
    [required_syncs] is stored as [True] in [syncs]; a required key that
    is not stored makes it [False], as such a key reads as [False]
    through [service_get_sync]; it returns [True] when nothing is
    required; and writing any status under a key that is not required
    leaves its result as it was. *)
Theorem service_is_synced_spec (c : Charm) :
  (service_is_synced c = true <->
   forall key, key ∈ required_syncs c ->
     syncs (stored c) !! key = Some (PyBool true)) /\
  (forall key, syncs (stored c) !! key = None ->
     service_get_sync c key = PyBool false /\
     (key ∈ required_syncs c -> service_is_synced c = false)) /\
  (required_syncs c = [] -> service_is_synced c = true) /\
  (forall key v, key ∉ required_syncs c ->
     service_is_synced
       (with_stored (fun s => set_syncs (<[key := v]> (syncs s)) s) c)
     = service_is_synced c).
Proof.
  split; [apply is_synced_loop_spec |]. split; [| split].
  - intros key Hnone. split.
    + unfold service_get_sync. by rewrite Hnone.
    + intros Hin. destruct (service_is_synced c) eqn:Hs; [| done].
      pose proof (proj1 (is_synced_loop_spec c (required_syncs c)) Hs key Hin)
        as Hk.
      rewrite Hk in Hnone. discriminate.
  - intros Hnil. unfold service_is_synced. by rewrite Hnil.
  - intros key v Hnot. unfold service_is_synced. simpl.
    apply is_synced_loop_ext. intros k Hin. simpl.
    apply lookup_insert_ne. by intros ->.
Qed.

(** A charm that requires ["db"] is synced once ["db"] is stored as
    [True], was not before, and stays so when [False] is stored under
    ["other"]. *)
Lemma service_is_synced_witness :
  ("other" ∉ required_syncs db_synced) /\
  syncs (stored needs_db) !! "db" = None /\
  service_is_synced needs_db = false /\
  service_is_synced db_synced = true /\
  service_is_synced
    (with_stored
       (fun s => set_syncs (<["other" := PyBool false]> (syncs s)) s)
       db_synced)
  = true.
Proof.
  assert ("other" ∉ required_syncs db_synced) as Hnot.
  { apply (bool_decide_unpack _). vm_compute. exact I. }
  assert (syncs (stored needs_db) !! "db" = None) as Hnone by reflexivity.
  assert ("db" ∈ required_syncs needs_db) as Hreq by apply list_elem_of_here.
  destruct (service_is_synced_spec needs_db) as (_ & Hmissing & _).
  destruct (Hmissing "db" Hnone) as [_ Hunsynced].
  destruct (service_is_synced_spec db_synced) as (Hiff & _ & _ & Hother).
  assert (service_is_synced db_synced = true) as Hsynced.
  { apply Hiff. intros key Hin.
    assert (key = "db") as ->.
    { change (required_syncs db_synced) with ["db"] in Hin.
      by apply list_elem_of_singleton in Hin. }
    vm_compute. reflexivity. }
  split; [exact Hnot |]. split; [exact Hnone |].
  split; [exact (Hunsynced Hreq) |]. split; [exact Hsynced |].
  rewrite (Hother "other" (PyBool false) Hnot). exact Hsynced.
Defined.

(** ** The two primitives every change goes through *)

Lemma service_set_updated_eq env what c :
  service_set_updated env what None c = (Normal tt, stamp env what c).
Proof. reflexivity. Qed.

Lemma service_update_status_eq c u :
  updated (stored c) = Some u ->
  service_update_status c = (Normal tt, show u c).
Proof.
  intros Hu. unfold service_update_status, service_get_updated.
  by rewrite Hu.
Qed.

(** ** [accounted] is a preorder *)

Lemma stamped_in_app new1 new2 c :
  stamped_in new2 c -> stamped_in (new2 ++ new1) c.
Proof.
  intros (ts & what & Hu & Hin). exists ts, what. split; [done |].
  apply elem_of_app. by left.
Qed.

Lemma stamped_in_keep new1 new2 c1 c2 :
  stamped_in new1 c1 -> updated (stored c2) = updated (stored c1) ->
  stamped_in (new2 ++ new1) c2.
Proof.
  intros (ts & what & Hu & Hin) Heq. exists ts, what. split; [congruence |].
  apply elem_of_app. by right.
Qed.

Lemma projected_in_app new1 new2 c :
  projected_in new2 c -> projected_in (new2 ++ new1) c.
Proof.
  intros (s & Hs & Hin & Hshown). exists s. repeat split; try done.
  apply elem_of_app. by left.
Qed.

Lemma projected_in_keep new1 new2 c1 c2 :
  projected_in new1 c1 -> unit_status c2 = unit_status c1 ->
  tracked c2 = tracked c1 -> projected_in (new2 ++ new1) c2.
Proof.
  intros (s & Hs & Hin & Hshown) Hunit Htracked. exists s.
  repeat split; try congruence. apply elem_of_app. by right.
Qed.

Lemma accounted_refl c : accounted c c.
Proof.
  exists []. split; [done |]. split; [by left |]. split; [by left |].
  intros Hne. by destruct Hne.
Qed.

Lemma accounted_trans c c1 c2 :
  accounted c c1 -> accounted c1 c2 -> accounted c c2.
Proof.
  intros (new1 & Htr1 & U1 & P1 & T1) (new2 & Htr2 & U2 & P2 & T2).
  exists (new2 ++ new1). split.
  { rewrite Htr2, Htr1. apply app_assoc. }
  assert (updated (stored c2) = updated (stored c) \/
          stamped_in (new2 ++ new1) c2) as U.
  { destruct U2 as [E2|S2]; [| right; by apply stamped_in_app].
    destruct U1 as [E1|S1]; [left; congruence |].
    right. by eapply stamped_in_keep. }
  split; [exact U |].
  destruct (decide (tracked c2 = tracked c1)) as [Esame|Ediff].
  - split.
    + destruct P2 as [E2|S2]; [| right; by apply projected_in_app].
      destruct P1 as [E1|S1]; [left; congruence |].
      right. by eapply projected_in_keep.
    + intros Hne. destruct T1 as [S1 Q1]; [congruence |]. split.
      * destruct U2 as [E2|S2]; [by eapply stamped_in_keep |].
        by apply stamped_in_app.
      * destruct P2 as [E2|S2]; [by eapply projected_in_keep |].
        by apply projected_in_app.
  - destruct (T2 Ediff) as [S2 Q2]. split.
    + right. by apply projected_in_app.
    + intros _. split; [by apply stamped_in_app | by apply projected_in_app].
Qed.

(** A step that leaves [updated], the tracked fields and the unit status
    alone and only extends the trace. *)
Lemma accounted_quiet c c' new :
  trace c' = new ++ trace c ->
  updated (stored c') = updated (stored c) ->
  tracked c' = tracked c ->
  unit_status c' = unit_status c -> accounted c c'.
Proof.
  intros Htr Hup Htracked Hunit. exists new.
  split; [done |]. split; [by left |]. split; [by left |].
  intros Hne. by destruct Hne.
Qed.

(** Stamping and projecting at the end accounts for whatever was written
    to the tracked fields before. *)
Lemma accounted_settle env what c c0 c1 :
  trace c0 = trace c -> updated (stored c0) = updated (stored c) ->
  unit_status c0 = unit_status c -> accounted c0 c1 ->
  accounted c (show (clock env (clock_reads c1), what) (stamp env what c1)).
Proof.
  intros Htr Hup Hunit (new1 & Htr1 & _).
  set (ts := clock env (clock_reads c1)).
  set (c3 := show (ts, what) (stamp env what c1)).
  assert (stamped_in (StatusProjected (project (stored (stamp env what c1))
                                         (ts, what))
                      :: Stamped ts what :: new1) c3) as Hs.
  { exists ts, what. split; [done |].
    apply list_elem_of_further, list_elem_of_here. }
  assert (projected_in (StatusProjected (project (stored (stamp env what c1))
                                           (ts, what))
                        :: Stamped ts what :: new1) c3) as Hp.
  { eexists. split; [reflexivity |]. split; [apply list_elem_of_here |].
    reflexivity. }
  eexists. split; [| split; [right; exact Hs | split; [right; exact Hp |]]].
  - subst c3. simpl. rewrite Htr1, Htr. reflexivity.
  - done.
Qed.

(** ** Rules for the combinators *)

Section Rules.

Context {A B : Type}.

Lemma accounts_ret (a : A) : accounts (ret a).
Proof. intros c. apply accounted_refl. Qed.

Lemma accounts_raise (e : exn) : accounts (raise (A := A) e).
Proof. intros c. apply accounted_refl. Qed.

Lemma accounts_gets (f : Charm -> A) : accounts (gets f).
Proof. intros c. apply accounted_refl. Qed.

Lemma accounts_bind (m : M A) (k : A -> M B) :
  accounts m -> (forall a, accounts (k a)) -> accounts (bind m k).
Proof.
  intros Hm Hk c. specialize (Hm c). unfold exec, bind in *.
  destruct (m c) as [[a|e] c1]; simpl in *; [| done].
  eapply accounted_trans; [exact Hm | apply Hk].
Qed.

Lemma accounts_try_except (m : M A) (h : exn -> M A) :
  accounts m -> (forall e, accounts (h e)) -> accounts (try_except m h).
Proof.
  intros Hm Hh c. specialize (Hm c). unfold exec, try_except in *.
  destruct (m c) as [[a|e] c1]; simpl in *; [done |].
  destruct (isinstance_Exception e); [| done].
  eapply accounted_trans; [exact Hm | apply Hh].
Qed.

Lemma accounts_try_except_all (m h : M A) :
  accounts m -> accounts h -> accounts (try_except_all m h).
Proof.
  intros Hm Hh c. specialize (Hm c). unfold exec, try_except_all in *.
  destruct (m c) as [[a|e] c1]; simpl in *; [done |].
  eapply accounted_trans; [exact Hm | apply Hh].
Qed.

Lemma accounts_try_finally (m : M A) (fin : M unit) :
  accounts m -> accounts fin -> accounts (try_finally m fin).
Proof.
  intros Hm Hfin c. specialize (Hm c). unfold exec, try_finally in *.
  destruct (m c) as [r c1]; simpl in *.
  specialize (Hfin c1). unfold exec in Hfin.
  destruct (fin c1) as [[[]|e] c2]; simpl in *;
    by eapply accounted_trans.
Qed.

End Rules.

Lemma accounts_modify_quiet (f : Charm -> Charm) :
  (forall c, trace (f c) = trace c /\
             updated (stored (f c)) = updated (stored c) /\
             tracked (f c) = tracked c /\
             unit_status (f c) = unit_status c) ->
  accounts (modify f).
Proof.
  intros Hf c. destruct (Hf c) as (Htr & Hup & Htracked & Hunit).
  by apply (accounted_quiet c (f c) []).
Qed.

Lemma accounts_call_hook h f : accounts (call_hook h f).
Proof.
  intros c. unfold exec, call_hook.
  destruct (f c); by apply (accounted_quiet _ _ [HookCalled h]).
Qed.

Lemma accounts_call_handler h key status :
  accounts (call_handler h key status).
Proof.
  intros c. unfold exec, call_handler.
  destruct (h key status);
    by apply (accounted_quiet _ _ [HandlerCalled key status]).
Qed.

Lemma accounts_service_set_updated env what timestamp :
  accounts (service_set_updated env what timestamp).
Proof.
  assert (forall ts c0 c, trace c0 = trace c -> tracked c0 = tracked c ->
            unit_status c0 = unit_status c ->
            accounted c (record (Stamped ts what)
                           (with_stored (set_updated (ts, what)) c0)))
    as Hstamp.
  { intros ts c0 c Htr Htracked Hunit. exists [Stamped ts what].
    split; [simpl; by rewrite Htr |]. split; [| split; [by left |]].
    - right. exists ts, what. split; [done | apply list_elem_of_here].
    - intros Hne. by destruct Hne. }
  intros c. destruct timestamp as [t|]; [destruct (String.eqb_spec t "") |].
  - subst t. by apply (Hstamp _ (tick c)).
  - unfold exec, service_set_updated. rewrite (proj2 (String.eqb_neq t "")) by done.
    by apply (Hstamp t c).
  - by apply (Hstamp _ (tick c)).
Qed.

Lemma accounts_service_update_status : accounts service_update_status.
Proof.
  intros c. unfold exec, service_update_status, service_get_updated.
  destruct (updated (stored c)) as [u|]; simpl; [| apply accounted_refl].
  exists [StatusProjected (project (stored c) u)].
  split; [done |]. split; [by left |]. split.
  - right. eexists. split; [reflexivity |].
    split; [apply list_elem_of_here | reflexivity].
  - intros Hne. by destruct Hne.
Qed.

(** ** The three setters of the tracked fields *)

Lemma service_set_stale_total env st : total (service_set_stale env st).
Proof.
  intros c. exists tt. unfold result, service_set_stale, bind, gets. simpl.
  by destruct (negb (Bool.eqb (service_get_stale c) st)).
Qed.

Lemma accounts_service_set_stale env st : accounts (service_set_stale env st).
Proof.
  intros c. unfold exec, service_set_stale, bind, gets. simpl.
  destruct (negb (Bool.eqb (service_get_stale c) st));
    [| apply accounted_refl].
  apply (accounted_settle env "stale" c (with_stored (set_stale st) c)
           (with_stored (set_stale st) c)); try done.
  apply accounted_refl.
Qed.

Lemma service_set_state_total env st : total (service_set_state env st).
Proof.
  intros c. exists tt. unfold result, service_set_state, bind, gets. simpl.
  match goal with |- context [negb (String.eqb ?a ?b)] =>
    by destruct (negb (String.eqb a b)) end.
Qed.

Lemma accounts_service_set_state env st : accounts (service_set_state env st).
Proof.
  intros c. unfold exec, service_set_state, bind, gets. simpl.
  match goal with |- context [with_stored (set_state ?s)] => set (st' := s) end.
  destruct (negb (String.eqb (service_get_state c) st'));
    [| apply accounted_refl].
  apply (accounted_settle env "state" c (with_stored (set_state st') c)
           (with_stored (set_state st') c)); try done.
  apply accounted_refl.
Qed.

Lemma notify_returns key status c :
  handler_ordinary c key status = true ->
  result (notify key status) c = Normal tt.
Proof.
  unfold handler_ordinary, result, notify, bind, gets, try_except. simpl.
  destruct (sync_handlers c !! key) as [[h|]|]; try done.
  unfold call_handler, ret. destruct (h key status) as [e|]; [| done].
  simpl. by intros ->.
Qed.

(** The handler step leaves the handlers as they are. *)
Lemma notify_handlers key status c :
  sync_handlers (exec (notify key status) c) = sync_handlers c.
Proof.
  unfold exec, notify, bind, gets, try_except. simpl.
  destruct (sync_handlers c !! key) as [[h|]|]; try done.
  unfold call_handler, ret. destruct (h key status) as [e|]; [| done].
  by destruct (isinstance_Exception e).
Qed.

Lemma accounts_notify key status : accounts (notify key status).
Proof.
  apply accounts_bind; [apply accounts_gets |]. intros [[h|]|].
  - apply accounts_try_except; [apply accounts_call_handler |].
    intros e. apply accounts_ret.
  - apply accounts_ret.
  - apply accounts_ret.
Qed.

Lemma reevaluate_total env : total (reevaluate env).
Proof.
  intros c. unfold result, reevaluate, bind, gets. simpl.
  apply service_set_state_total.
Qed.

Lemma accounts_reevaluate env : accounts (reevaluate env).
Proof.
  apply accounts_bind; [apply accounts_gets |]. intros st.
  apply accounts_service_set_state.
Qed.

(** What [service_set_sync] does once it has decided to write [status]. *)
Lemma service_set_sync_fires env key status c :
  handler_ordinary c key status = true ->
  (modify (with_stored (fun s => set_syncs (<[key := status]> (syncs s)) s)) >>
   notify key status >> reevaluate env >>
   service_set_updated env "sync" None >> service_update_status) c
  = let c1 := exec (reevaluate env)
                (exec (notify key status)
                   (with_stored
                      (fun s => set_syncs (<[key := status]> (syncs s)) s) c)) in
    (Normal tt, show (clock env (clock_reads c1), "sync") (stamp env "sync" c1)).
Proof.
  intros Hord. set (c0 := with_stored _ c).
  pose proof (notify_returns key status c0 Hord) as Hn.
  pose proof (reevaluate_total env (exec (notify key status) c0)) as [[] Hr].
  unfold exec, result, bind, modify in *. fold c0.
  destruct (notify key status c0) as [r1 c1]; simpl in *; subst r1.
  destruct (reevaluate env c1) as [r2 c2]; simpl in *; subst r2.
  reflexivity.
Qed.

Lemma service_set_sync_eq env key status force c :
  service_set_sync env key status force c =
  let current := default PyNone (syncs (stored c) !! key) in
  let status' := fst (effective current status force) in
  let force' := snd (effective current status force) in
  if negb (SyncVal_eqb current status') || force' then
    (modify (with_stored
               (fun s => set_syncs (<[key := status']> (syncs s)) s)) >>
     notify key status' >> reevaluate env >>
     service_set_updated env "sync" None >> service_update_status) c
  else (Normal tt, c).
Proof.
  unfold service_set_sync, effective, bind at 1, gets at 1. simpl.
  destruct (SyncVal_eqb status PyNone); simpl;
    match goal with |- context [if ?b then _ else _] => by destruct b end.
Qed.

Lemma service_set_sync_returns env key status force c :
  handler_ordinary c key (written c key status force) = true ->
  result (service_set_sync env key status force) c = Normal tt.
Proof.
  intros Hord. unfold result. rewrite service_set_sync_eq. simpl.
  match goal with |- context [if ?b then _ else _] => destruct b end;
    [| done].
  by rewrite service_set_sync_fires.
Qed.

Lemma accounted_service_set_sync env key status force c :
  handler_ordinary c key (written c key status force) = true ->
  accounted c (exec (service_set_sync env key status force) c).
Proof.
  intros Hord. unfold exec. rewrite service_set_sync_eq. simpl.
  match goal with |- context [if ?b then _ else _] => destruct b end;
    [| apply accounted_refl].
  rewrite service_set_sync_fires by exact Hord. simpl.
  match goal with |- context [with_stored ?f c] => set (c0 := with_stored f c) end.
  apply (accounted_settle env "sync" c c0); try done.
  eapply accounted_trans; [apply accounts_notify | apply accounts_reevaluate].
Qed.

(** ** Every operation accounts for its changes *)

Ltac accounts_step :=
  match goal with
  | |- accounts (bind _ _) => apply accounts_bind; [| intros ?]
  | |- accounts (try_except _ _) => apply accounts_try_except; [| intros ?]
  | |- accounts (try_except_all _ _) => apply accounts_try_except_all
  | |- accounts (try_finally _ _) => apply accounts_try_finally
  | |- accounts (ret _) => apply accounts_ret
  | |- accounts (raise _) => apply accounts_raise
  | |- accounts (gets _) => apply accounts_gets
  | |- accounts (call_hook _ _) => apply accounts_call_hook
  | |- accounts (service_set_updated _ _ _) =>
      apply accounts_service_set_updated
  | |- accounts service_update_status => apply accounts_service_update_status
  | |- accounts (service_set_stale _ _) => apply accounts_service_set_stale
  | |- accounts (service_set_state _ _) => apply accounts_service_set_state
  | |- accounts (modify _) => apply accounts_modify_quiet; by intros ?
  | |- accounts (if ?b then _ else _) => destruct b
  | |- accounts (match ?x with _ => _ end) => destruct x
  end.

Ltac accounts_auto := repeat accounts_step.

Lemma accounts_service_forced_update {A} env what qualname (func : M A) :
  accounts func -> accounts (service_forced_update env what qualname func).
Proof. intros Hf. unfold service_forced_update. accounts_auto. exact Hf. Qed.

Lemma accounts_service_sync env force : accounts (service_sync env force).
Proof. unfold service_sync. accounts_auto. Qed.

Lemma accounts_service_start env : accounts (service_start env).
Proof.
  unfold service_start. accounts_auto. apply accounts_service_sync.
Qed.

Lemma accounts_service_stop env force : accounts (service_stop env force).
Proof. unfold service_stop. accounts_auto. Qed.

Lemma accounts_service_enable env force : accounts (service_enable env force).
Proof.
  unfold service_enable. apply accounts_service_forced_update. accounts_auto.
Qed.

Lemma accounts_service_disable env force :
  accounts (service_disable env force).
Proof.
  unfold service_disable. apply accounts_service_forced_update.
  accounts_auto.
Qed.

Lemma accounted_bind_at {A B} (m : M A) (k : A -> M B) c :
  accounted c (exec m c) -> (forall a, accounts (k a)) ->
  accounted c (exec (bind m k) c).
Proof.
  intros Hm Hk. unfold exec, bind in *.
  destruct (m c) as [[a|e] c1]; simpl in *; [| done].
  eapply accounted_trans; [exact Hm | apply Hk].
Qed.

Lemma exec_try_except_ret {A} (m : M A) (a : A) c :
  exec (try_except m (fun _ => ret a)) c = exec m c.
Proof.
  unfold exec, try_except, ret. destruct (m c) as [[a'|e] c1]; [done |].
  by destruct (isinstance_Exception e).
Qed.

Lemma written_bool c key (b force : bool) :
  written c key (PyBool b) force = PyBool b.
Proof. reflexivity. Qed.

Lemma accounted_service_init_sync env key status handler c :
  handler_ordinary c key (PyBool status) = true ->
  accounted c (exec (service_init_sync env key status handler) c).
Proof.
  intros Hord. unfold service_init_sync.
  apply accounted_bind_at.
  - unfold exec, bind, gets. simpl.
    destruct (bool_decide (is_Some (syncs (stored c) !! key)));
      [apply accounted_refl |].
    by apply accounted_service_set_sync.
  - intros []. apply accounts_modify_quiet. by intros ?.
Qed.

Lemma accounted_set_sync_action env event c :
  handlers_ordinary c ->
  accounted c (exec (_on_service_set_sync_action env event) c).
Proof.
  intros Hord. unfold _on_service_set_sync_action.
  rewrite exec_try_except_ret.
  destruct (param_key event) as [key|]; [| apply accounted_refl].
  destruct (param_status event) as [status|]; [| apply accounted_refl].
  unfold exec at 1, bind at 1, gets. simpl.
  destruct (negb (SyncVal_eqb (service_get_sync c key) PyNone));
    [| apply accounted_refl].
  apply accounted_bind_at.
  - apply accounted_service_set_sync, Hord.
  - intros []. apply accounts_service_update_status.
Qed.

(** Every operation but the three that write a sync status. *)
Lemma accounts_run env op : op_key op = None -> accounts (run env op).
Proof.
  intros Hop.
  destruct op; try discriminate; simpl in *;
    unfold service_init_sync, service_install, service_restart,
      service_set_required_syncs, service_set_status_message,
      _on_config_changed, _on_install, _on_start, _on_stop,
      _on_update_status, _on_service_restart_action,
      _on_service_set_sync_action, _on_service_start_action,
      _on_service_stop_action, _on_service_sync_action, service_install,
      service_restart;
    try match goal with H : param_key _ = None |- _ => rewrite H end;
    repeat first
      [ apply accounts_service_forced_update
      | apply accounts_service_sync
      | apply accounts_service_start
      | apply accounts_service_stop
      | apply accounts_service_enable
      | apply accounts_service_disable
      | accounts_step ].
Qed.

Lemma accounted_run env op c :
  handlers_ordinary c -> accounted c (exec (run env op) c).
Proof.
  intros Hord. destruct (op_key op) as [k|] eqn:Hop;
    [| by apply accounts_run].
  destruct op; try discriminate; simpl.
  - apply accounted_service_init_sync, Hord.
  - apply accounted_service_set_sync, Hord.
  - by apply accounted_set_sync_action.
Qed.

(** ** Equations of the operations *)

Lemma bind_normal {A B} (m : M A) (k : A -> M B) c a c1 :
  m c = (Normal a, c1) -> bind m k c = k a c1.
Proof. intros Hm. unfold bind. by rewrite Hm. Qed.

Lemma service_set_stale_eq env st c :
  service_set_stale env st c =
  (Normal tt,
   if Bool.eqb (stale (stored c)) st then c
   else settle env "stale" (with_stored (set_stale st) c)).
Proof.
  unfold service_set_stale, bind, gets, service_get_stale. simpl.
  by destruct (Bool.eqb (stale (stored c)) st).
Qed.

Lemma service_set_state_eq env st c :
  service_set_state env st c =
  (Normal tt,
   let st' := resolve (state (stored c)) st (service_is_synced c) in
   if String.eqb (state (stored c)) st' then c
   else settle env "state" (with_stored (set_state st') c)).
Proof.
  unfold service_set_state, bind, gets, service_get_state. simpl.
  fold (resolve (state (stored c)) st (service_is_synced c)).
  by destruct (String.eqb (state (stored c)) _).
Qed.

Lemma service_sync_refuses env c :
  str_in (state (stored c)) PRESTARTED_STATES = false ->
  service_sync env false c =
  (Normal tt, settle env "sync" (exec (service_set_stale env true) c)).
Proof.
  intros Hst. unfold service_sync, bind at 1 2, gets, service_get_state.
  rewrite Hst. cbn [negb andb].
  unfold exec.
  rewrite (bind_normal _ _ _ _ _ (service_set_stale_eq env true c)).
  rewrite service_set_stale_eq. reflexivity.
Qed.

Lemma ordinary_returns r : r = None -> ordinary r = true.
Proof. by intros ->. Qed.

Lemma ordinary_raises r e :
  r = Some e -> isinstance_Exception e = true -> ordinary r = true.
Proof. by intros -> ?. Qed.

Lemma service_sync_runs env force c u :
  str_in (state (stored c)) PRESTARTED_STATES || force = true ->
  updated (stored c) = Some u ->
  ordinary (_service_sync env false c) = true ->
  service_sync env force c =
  (Normal tt,
   match _service_sync env false c with
   | Some _ => show u (record (HookCalled HSync) c)
   | None => settle env "sync"
               (exec (service_set_stale env false)
                  (record (HookCalled HSync) c))
   end).
Proof.
  intros Hst Hu Hord.
  unfold service_sync, bind at 1 2, gets, service_get_state.
  assert (negb (str_in (state (stored c)) PRESTARTED_STATES) && negb force = false) as ->.
  { destruct (str_in _ _), force; done. }
  cbv iota beta. unfold try_except, bind at 1, call_hook.
  destruct (_service_sync env false c) as [e|].
  - simpl in Hord. rewrite Hord. unfold ret.
    rewrite (service_update_status_eq _ u) by done. reflexivity.
  - unfold exec. rewrite (bind_normal _ _ _ _ _ (service_set_stale_eq env false _)).
    rewrite service_set_stale_eq. reflexivity.
Qed.

(** An exception that is not an instance of [Exception] leaves
    [service_sync] right after the hook. *)
Lemma service_sync_escapes env force c e :
  str_in (state (stored c)) PRESTARTED_STATES || force = true ->
  _service_sync env false c = Some e ->
  isinstance_Exception e = false ->
  service_sync env force c = (Raised e, record (HookCalled HSync) c).
Proof.
  intros Hst Hhook He.
  unfold service_sync, bind at 1 2, gets, service_get_state.
  assert (negb (str_in (state (stored c)) PRESTARTED_STATES) && negb force = false) as ->.
  { destruct (str_in _ _), force; done. }
  cbv iota beta. unfold try_except, bind at 1, call_hook.
  by rewrite Hhook, He.
Qed.

Lemma service_sync_keeps_stamp env force c :
  is_Some (updated (stored c)) ->
  is_Some (updated (stored (exec (service_sync env force) c))).
Proof.
  intros Hu. destruct (accounts_service_sync env force c) as (new & _ & U & _).
  destruct U as [->|(ts & what & -> & _)]; [done | by eexists].
Qed.

Lemma service_sync_safe env force c :
  is_Some (updated (stored c)) ->
  ordinary (_service_sync env false c) = true ->
  service_sync env force c = (Normal tt, exec (service_sync env force) c).
Proof.
  intros [u Hu] Hord.
  destruct (str_in (state (stored c)) PRESTARTED_STATES || force) eqn:Hc.
  - unfold exec. by rewrite (service_sync_runs env force c u).
  - apply orb_false_elim in Hc as [Hst ->].
    unfold exec. by rewrite service_sync_refuses.
Qed.

(** [service_start] once it fires, with every way out. *)
Lemma service_start_fires env c :
  str_in (state (stored c)) PRESTARTED_STATES = true ->
  is_Some (updated (stored c)) ->
  service_start env c =
  let c1 := exec (service_sync env false) c in
  if ordinary (_service_sync env false c) then
    match _service_start env c1 with
    | Some e =>
        if isinstance_Exception e then
          (Normal tt,
           exec service_update_status (record (HookCalled HStart) c1))
        else (Raised e, record (HookCalled HStart) c1)
    | None =>
        (Normal tt,
         settle env "start"
           (exec (service_set_state env "started")
              (record (HookCalled HStart) c1)))
    end
  else (result (service_sync env false) c, c1).
Proof.
  intros Hst Hu. cbv zeta.
  destruct (ordinary (_service_sync env false c)) eqn:Hsync.
  - unfold service_start, bind at 1, gets, service_get_state.
    rewrite Hst. cbv iota beta.
    pose proof (service_sync_keeps_stamp env false c Hu) as [u1 Hu1].
    unfold bind at 1, try_except.
    rewrite (bind_normal _ _ _ _ _ (service_sync_safe env false c Hu Hsync)).
    unfold bind at 1, call_hook. cbv zeta.
    destruct (_service_start env (exec (service_sync env false) c)) as [e|].
    + destruct (isinstance_Exception e); [| done].
      unfold ret, exec. by rewrite !(service_update_status_eq _ u1).
    + rewrite (bind_normal _ _ _ _ _ (service_set_state_eq env "started" _)).
      unfold exec. rewrite service_set_state_eq. reflexivity.
  - destruct (_service_sync env false c) as [e0|] eqn:Hhook; [| done].
    simpl in Hsync.
    unfold service_start, bind at 1, gets, service_get_state.
    rewrite Hst. cbv iota beta.
    assert (service_sync env false c
            = (Raised e0, record (HookCalled HSync) c)) as Hesc.
    { apply service_sync_escapes; [by rewrite Hst | done | done]. }
    unfold result, exec, bind, try_except. rewrite Hesc. simpl.
    by rewrite Hsync.
Qed.

Lemma service_start_eq env c :
  str_in (state (stored c)) PRESTARTED_STATES = true ->
  is_Some (updated (stored c)) ->
  ordinary (_service_sync env false c) = true ->
  ordinary (_service_start env (exec (service_sync env false) c)) = true ->
  service_start env c =
  (Normal tt,
   let c1 := exec (service_sync env false) c in
   match _service_start env c1 with
   | Some _ => exec service_update_status (record (HookCalled HStart) c1)
   | None => settle env "start"
               (exec (service_set_state env "started")
                  (record (HookCalled HStart) c1))
   end).
Proof.
  intros Hst Hu Hsync Hstart. rewrite service_start_fires by done.
  cbv zeta. rewrite Hsync.
  destruct (_service_start env (exec (service_sync env false) c)) as [e|];
    [| done].
  simpl in Hstart. by rewrite Hstart.
Qed.

Lemma service_stop_eq env force c u :
  str_in (state (stored c)) STARTED_STATES = true ->
  updated (stored c) = Some u ->
  ordinary (_service_stop env force c) = true ->
  service_stop env force c =
  (Normal tt,
   match _service_stop env force c with
   | Some _ => show u (record (HookCalled HStop) c)
   | None => settle env "stop"
               (exec (service_set_state env "enabled")
                  (record (HookCalled HStop) c))
   end).
Proof.
  intros Hst Hu Hord.
  unfold service_stop, bind at 1, gets, service_get_state.
  rewrite Hst. cbv iota beta.
  unfold bind at 1, try_except, bind at 1, call_hook.
  destruct (_service_stop env force c) as [e|].
  - simpl in Hord. rewrite Hord.
    unfold ret. by rewrite (service_update_status_eq _ u).
  - rewrite (bind_normal _ _ _ _ _ (service_set_state_eq env "enabled" _)).
    unfold exec. rewrite service_set_state_eq. reflexivity.
Qed.

Lemma service_install_eq env c :
  service_install env c =
  (match _service_install env c with
   | Some e => Raised e
   | None => Normal tt
   end, settle env "install" (record (HookCalled HInstall) c)).
Proof.
  unfold service_install, service_forced_update, try_finally, call_hook.
  simpl. by destruct (_service_install env c).
Qed.

(** ** Counting along a trace *)

Lemma hook_calls_hook h h' tr :
  hook_calls h (HookCalled h' :: tr) =
  if bool_decide (h' = h) then S (hook_calls h tr) else hook_calls h tr.
Proof. unfold hook_calls. simpl. by destruct (bool_decide (h' = h)). Qed.

Lemma hook_calls_handler h k v tr :
  hook_calls h (HandlerCalled k v :: tr) = hook_calls h tr.
Proof. reflexivity. Qed.

Lemma hook_calls_stamped h ts what tr :
  hook_calls h (Stamped ts what :: tr) = hook_calls h tr.
Proof. reflexivity. Qed.

Lemma hook_calls_projected h s tr :
  hook_calls h (StatusProjected s :: tr) = hook_calls h tr.
Proof. reflexivity. Qed.

Lemma handler_calls_hook k v h tr :
  handler_calls k v (HookCalled h :: tr) = handler_calls k v tr.
Proof. reflexivity. Qed.

Lemma handler_calls_same k v tr :
  handler_calls k v (HandlerCalled k v :: tr) = S (handler_calls k v tr).
Proof.
  unfold handler_calls. simpl.
  by rewrite !bool_decide_eq_true_2 by done.
Qed.

Lemma handler_calls_stamped k v ts what tr :
  handler_calls k v (Stamped ts what :: tr) = handler_calls k v tr.
Proof. reflexivity. Qed.

Lemma handler_calls_projected k v s tr :
  handler_calls k v (StatusProjected s :: tr) = handler_calls k v tr.
Proof. reflexivity. Qed.

Lemma stamps_hook h tr : stamps (HookCalled h :: tr) = stamps tr.
Proof. reflexivity. Qed.

Lemma stamps_projected s tr : stamps (StatusProjected s :: tr) = stamps tr.
Proof. reflexivity. Qed.

Lemma stamps_stamped ts what tr : stamps (Stamped ts what :: tr) = S (stamps tr).
Proof. reflexivity. Qed.

Lemma projections_hook h tr : projections (HookCalled h :: tr) = projections tr.
Proof. reflexivity. Qed.

Lemma projections_stamped ts what tr :
  projections (Stamped ts what :: tr) = projections tr.
Proof. reflexivity. Qed.

Lemma projections_projected s tr :
  projections (StatusProjected s :: tr) = S (projections tr).
Proof. reflexivity. Qed.

Create Rewrite HintDb calls.

#[global] Hint Rewrite hook_calls_handler hook_calls_stamped
  hook_calls_projected handler_calls_hook handler_calls_same
  handler_calls_stamped handler_calls_projected stamps_hook stamps_projected
  stamps_stamped projections_hook projections_stamped projections_projected
  hook_calls_hook : calls.

(** ** What the setters leave alone *)

Lemma service_set_stale_frame env st c :
  let c' := exec (service_set_stale env st) c in
  stale (stored c') = st /\
  state (stored c') = state (stored c) /\
  syncs (stored c') = syncs (stored c) /\
  required_syncs c' = required_syncs c /\
  sync_handlers c' = sync_handlers c /\
  (forall h, hook_calls h (trace c') = hook_calls h (trace c)) /\
  (forall k v, handler_calls k v (trace c') = handler_calls k v (trace c)) /\
  (is_Some (updated (stored c)) -> is_Some (updated (stored c'))).
Proof.
  unfold exec. rewrite service_set_stale_eq. simpl.
  destruct (Bool.eqb_spec (stale (stored c)) st); simpl; by repeat split.
Qed.

Lemma service_set_state_frame env st c :
  let c' := exec (service_set_state env st) c in
  state (stored c') = resolve (state (stored c)) st (service_is_synced c) /\
  stale (stored c') = stale (stored c) /\
  syncs (stored c') = syncs (stored c) /\
  required_syncs c' = required_syncs c /\
  sync_handlers c' = sync_handlers c /\
  (forall h, hook_calls h (trace c') = hook_calls h (trace c)) /\
  (forall k v, handler_calls k v (trace c') = handler_calls k v (trace c)) /\
  (is_Some (updated (stored c)) -> is_Some (updated (stored c'))).
Proof.
  unfold exec. rewrite service_set_state_eq. simpl.
  destruct (String.eqb_spec (state (stored c))
              (resolve (state (stored c)) st (service_is_synced c)));
    simpl; by repeat split.
Qed.

Lemma service_sync_frame env force c :
  is_Some (updated (stored c)) ->
  let c1 := exec (service_sync env force) c in
  state (stored c1) = state (stored c) /\
  syncs (stored c1) = syncs (stored c) /\
  required_syncs c1 = required_syncs c /\
  sync_handlers c1 = sync_handlers c /\
  (forall h, h <> HSync -> hook_calls h (trace c1) = hook_calls h (trace c)) /\
  hook_calls HSync (trace c1) =
    (if str_in (state (stored c)) PRESTARTED_STATES || force
     then S (hook_calls HSync (trace c)) else hook_calls HSync (trace c)).
Proof.
  intros [u Hu].
  destruct (str_in (state (stored c)) PRESTARTED_STATES || force) eqn:Hc.
  - destruct (ordinary (_service_sync env false c)) eqn:Hord; cycle 1.
    { destruct (_service_sync env false c) as [e|] eqn:Hhook; [| done].
      unfold exec at 1. rewrite (service_sync_escapes env force c e) by done.
      simpl. autorewrite with calls. repeat split; try done.
      intros h Hh. autorewrite with calls. by rewrite bool_decide_eq_false_2. }
    unfold exec at 1. rewrite (service_sync_runs env force c u) by done.
    simpl. destruct (_service_sync env false c) as [e|].
    + simpl. autorewrite with calls. repeat split; try done.
      intros h Hh. autorewrite with calls. by rewrite bool_decide_eq_false_2.
    + pose proof (service_set_stale_frame env false
                    (record (HookCalled HSync) c)) as
        (_ & Hst & Hsy & Hrq & Hhs & Hh & _).
      simpl in *. rewrite Hst, Hsy, Hrq, Hhs.
      repeat split; try done.
      * intros h Hne. autorewrite with calls. rewrite Hh.
        autorewrite with calls. by rewrite bool_decide_eq_false_2.
      * autorewrite with calls. rewrite Hh. by autorewrite with calls.
  - apply orb_false_elim in Hc as [Hst ->].
    unfold exec at 1. rewrite service_sync_refuses by done. simpl.
    pose proof (service_set_stale_frame env true c) as
        (_ & Hst' & Hsy & Hrq & Hhs & Hh & _).
    simpl in *. rewrite Hst', Hsy, Hrq, Hhs.
    repeat split; try done.
    + intros h _. autorewrite with calls. by rewrite Hh.
    + autorewrite with calls. by rewrite Hh.
Qed.

(** ** The transition gate *)

Lemma resolve_unsynced current st :
  st ∈ ["started"; "broken"; "waiting"] ->
  resolve current st false =
  if str_in current ["broken"; "started"] then "broken" else "waiting".
Proof.
  intros Hst. unfold resolve.
  repeat (apply elem_of_cons in Hst as [->|Hst]); [done.. |].
  by apply elem_of_nil in Hst.
Qed.

Lemma committed_state env what st c :
  state (stored
    (if String.eqb (state (stored c)) st then c
     else settle env what (with_stored (set_state st) c))) = st.
Proof. by destruct (String.eqb_spec (state (stored c)) st). Qed.

(** C3: [service_set_state] treats a request for ["broken"] or ["waiting"]
    as a request for ["started"]; and when the target resolves to
    ["started"] while [service_is_synced] is false, the state it leaves is
    ["broken"] if the current state is ["broken"] or ["started"], and
    ["waiting"] otherwise: from ["started"] it yields ["broken"], from
    ["idle"] it yields ["waiting"]. *)
Theorem service_set_state_spec (env : Env) (c : Charm) :
  (service_set_state env "broken" c = service_set_state env "started" c /\
   service_set_state env "waiting" c = service_set_state env "started" c) /\
  (forall st, st ∈ ["started"; "broken"; "waiting"] ->
     service_is_synced c = false ->
     let c' := exec (service_set_state env st) c in
     result (service_set_state env st) c = Normal tt /\
     state (stored c') =
       (if str_in (state (stored c)) ["broken"; "started"] then "broken"
        else "waiting") /\
     (state (stored c) = "started" -> state (stored c') = "broken") /\
     (state (stored c) = "idle" -> state (stored c') = "waiting")).
Proof.
  split; [by split |]. intros st Hst Hsync.
  assert (state (stored (exec (service_set_state env st) c)) =
          if str_in (state (stored c)) ["broken"; "started"] then "broken"
          else "waiting") as Hres.
  { unfold exec. rewrite service_set_state_eq, Hsync. simpl.
    rewrite committed_state. by apply resolve_unsynced. }
  simpl. split; [| split; [exact Hres | split]].
  - unfold result. by rewrite service_set_state_eq.
  - intros Hcur. rewrite Hres, Hcur. reflexivity.
  - intros Hcur. rewrite Hres, Hcur. reflexivity.
Qed.

(** On a fresh charm that requires ["db"], asking for ["started"] from
    ["idle"] yields ["waiting"]. *)
Lemma service_set_state_witness :
  "started" ∈ ["started"; "broken"; "waiting"] /\
  service_is_synced needs_db = false /\
  state (stored needs_db) = "idle" /\
  state (stored (exec (service_set_state base_env "started") needs_db))
    = "waiting".
Proof.
  assert ("started" ∈ ["started"; "broken"; "waiting"]) as Hin
    by apply list_elem_of_here.
  assert (service_is_synced needs_db = false) as Hsync by reflexivity.
  assert (state (stored needs_db) = "idle") as Hidle by reflexivity.
  split; [exact Hin |]. split; [exact Hsync |]. split; [exact Hidle |].
  destruct (service_set_state_spec base_env needs_db) as [_ Hdown].
  destruct (Hdown "started" Hin Hsync) as (_ & _ & _ & Hwaiting).
  exact (Hwaiting Hidle).
Defined.

(** ** Starting *)

(** C1, as the code has it: [service_start] fires from the states of
    [PRESTARTED_STATES], which are ["enabled"], ["waiting"] and ["broken"];
    from any other state, ["idle"] included, it returns without doing
    anything.  When it fires on a stamped charm it calls the sync hook and
    then the start hook, once each, and returns; and when the start hook
    returns and nothing is required, the state it leaves is ["started"],
    stamped ["start"].  (The sync hook is called once in any case; a hook
    that raises outside [Exception] ends the call there, so the start hook
    follows a sync hook that is ordinary, and the call returns when both
    hooks are.) *)
Theorem service_start_spec (env : Env) (c : Charm) :
  (state (stored c) ∉ ["enabled"; "waiting"; "broken"] ->
   service_start env c = (Normal tt, c)) /\
  (state (stored c) ∈ ["enabled"; "waiting"; "broken"] ->
   is_Some (updated (stored c)) ->
   let c1 := exec (service_sync env false) c in
   let c' := exec (service_start env) c in
   hook_calls HSync (trace c') = S (hook_calls HSync (trace c)) /\
   (ordinary (_service_sync env false c) = true ->
    hook_calls HStart (trace c') = S (hook_calls HStart (trace c)) /\
    (ordinary (_service_start env c1) = true ->
     result (service_start env) c = Normal tt) /\
    (_service_start env c1 = None ->
     required_syncs c = [] ->
     result (service_start env) c = Normal tt /\
     state (stored c') = "started" /\
     exists ts, updated (stored c') = Some (ts, "start")))).
Proof.
  fold PRESTARTED_STATES. split.
  - intros Hout. unfold service_start, bind, gets, service_get_state.
    destruct (str_in (state (stored c)) PRESTARTED_STATES) eqn:Hin; [| done].
    by apply str_in_spec in Hin.
  - intros Hin%str_in_spec Hu c1 c'.
    pose proof (service_sync_frame env false c Hu) as
      (Hst & Hsy & Hrq & Hhs & Hother & Hsync).
    pose proof (service_sync_keeps_stamp env false c Hu) as [u1 Hu1].
    rewrite Hin in Hsync. simpl in Hsync. fold c1 in Hst, Hsy, Hrq, Hhs,
      Hother, Hsync, Hu1.
    pose proof (service_set_state_frame env "started"
                  (record (HookCalled HStart) c1)) as
      (Hst2 & _ & _ & _ & _ & Hh2 & _).
    simpl in Hst2, Hh2.
    pose proof (service_start_fires env c Hin Hu) as Heq.
    cbv zeta in Heq. fold c1 in Heq.
    assert (exec service_update_status (record (HookCalled HStart) c1)
            = show u1 (record (HookCalled HStart) c1)) as Hshow
      by (unfold exec; by rewrite (service_update_status_eq _ u1)).
    rewrite Hshow in Heq.
    subst c'. unfold result, exec. rewrite Heq.
    destruct (ordinary (_service_sync env false c)) eqn:Hord.
    + destruct (_service_start env c1) as [e|] eqn:Hhook.
      * destruct (isinstance_Exception e) eqn:He; simpl;
          autorewrite with calls; rewrite Hsync, (Hother HStart) by done;
          (split; [done |]); intros _; (split; [done |]);
          (split; [intros ?; congruence | by intros ?]).
      * simpl. autorewrite with calls. rewrite !Hh2.
        autorewrite with calls. rewrite Hsync, (Hother HStart) by done.
        split; [done |]. intros _. split; [done |]. split; [done |].
        intros _ Hnone. split; [done |]. split; [| by eexists].
        rewrite Hst2. unfold service_is_synced. simpl. rewrite Hrq, Hnone.
        reflexivity.
    + simpl. split; [exact Hsync | by intros ?].
Qed.

(** From ["enabled"], with nothing required and the hooks of the base
    class, [service_start] leaves the charm ["started"]. *)
Lemma service_start_witness :
  state (stored (fresh_in "enabled")) ∈ ["enabled"; "waiting"; "broken"] /\
  is_Some (updated (stored (fresh_in "enabled"))) /\
  required_syncs (fresh_in "enabled") = [] /\
  state (stored (exec (service_start base_env) (fresh_in "enabled")))
    = "started".
Proof.
  assert (state (stored (fresh_in "enabled"))
            ∈ ["enabled"; "waiting"; "broken"]) as Hin
    by apply list_elem_of_here.
  assert (is_Some (updated (stored (fresh_in "enabled")))) as Hu
    by (by eexists).
  split; [exact Hin |]. split; [exact Hu |]. split; [reflexivity |].
  destruct (service_start_spec base_env (fresh_in "enabled")) as [_ Hfires].
  destruct (Hfires Hin Hu) as (_ & Hgoes).
  destruct Hgoes as (_ & _ & Hstarted); [reflexivity |].
  destruct Hstarted as (_ & Hst & _); [reflexivity | reflexivity |].
  exact Hst.
Defined.

(** C1 as stated fails: from ["idle"], with nothing required,
    [service_start] calls no hook and leaves the charm as it was. *)
Lemma service_start_idle_counterexample :
  state (stored fresh) = "idle" /\
  required_syncs fresh = [] /\
  service_start base_env fresh = (Normal tt, fresh) /\
  hook_calls HSync (trace (exec (service_start base_env) fresh)) = 0 /\
  hook_calls HStart (trace (exec (service_start base_env) fresh)) = 0 /\
  state (stored (exec (service_start base_env) fresh)) <> "started".
Proof. vm_compute. repeat split. discriminate. Qed.

(** ** Syncing and failing hooks *)

(** C4, as the code has it: from every state that is not in
    [PRESTARTED_STATES], that is, every state other than ["enabled"],
    ["waiting"] and ["broken"] (so from ["idle"] and from ["started"]),
    [service_sync] with [force=False] does not call the sync hook, leaves
    [stale] true and [updated] stamped ["sync"], and returns. *)
Theorem service_sync_refusal (env : Env) (c : Charm) :
  state (stored c) ∉ ["enabled"; "waiting"; "broken"] ->
  let c' := exec (service_sync env false) c in
  result (service_sync env false) c = Normal tt /\
  hook_calls HSync (trace c') = hook_calls HSync (trace c) /\
  stale (stored c') = true /\
  exists ts, updated (stored c') = Some (ts, "sync").
Proof.
  intros Hout.
  assert (str_in (state (stored c)) PRESTARTED_STATES = false) as Hst.
  { destruct (str_in _ _) eqn:Hin; [| done]. by apply str_in_spec in Hin. }
  simpl. unfold exec at 1 2 3, result.
  rewrite (service_sync_refuses env c Hst). simpl.
  pose proof (service_set_stale_frame env true c) as
    (Hstale & _ & _ & _ & _ & Hh & _).
  simpl in Hstale, Hh. autorewrite with calls. rewrite Hh, Hstale.
  repeat split. by eexists.
Qed.

(** From ["idle"]: no hook call, and [stale] is true. *)
Lemma service_sync_refusal_witness :
  state (stored fresh) = "idle" /\
  hook_calls HSync (trace (exec (service_sync base_env false) fresh)) =
    hook_calls HSync (trace fresh) /\
  stale (stored (exec (service_sync base_env false) fresh)) = true.
Proof.
  split; [reflexivity |].
  assert (state (stored fresh) ∉ ["enabled"; "waiting"; "broken"]) as Hout.
  { apply (bool_decide_unpack _). vm_compute. exact I. }
  destruct (service_sync_refusal base_env fresh Hout) as (_ & Hh & Hs & _).
  by split.
Defined.

(** C4 as stated fails: ["waiting"] is neither ["idle"] nor ["enabled"],
    yet from it [service_sync] with [force=False] calls the sync hook and
    clears [stale]. *)
Lemma service_sync_waiting_counterexample :
  state (stored (fresh_in "waiting")) = "waiting" /\
  hook_calls HSync
    (trace (exec (service_sync base_env false) (fresh_in "waiting"))) = 1 /\
  hook_calls HSync (trace (fresh_in "waiting")) = 0 /\
  stale (stored (fresh_in "waiting")) = true /\
  stale (stored (exec (service_sync base_env false) (fresh_in "waiting")))
    = false.
Proof. vm_compute. by repeat split. Qed.

Lemma lifecycle_absorbs env c force :
  is_Some (updated (stored c)) ->
  (ordinary (_service_sync env false c) = true ->
   ordinary (_service_start env (exec (service_sync env false) c)) = true ->
   result (service_start env) c = Normal tt) /\
  (ordinary (_service_stop env force c) = true ->
   result (service_stop env force) c = Normal tt) /\
  (ordinary (_service_sync env false c) = true ->
   result (service_sync env force) c = Normal tt).
Proof.
  intros Hu. unfold result. repeat split.
  - intros Hsync Hstart.
    destruct (str_in (state (stored c)) PRESTARTED_STATES) eqn:Hin.
    + by rewrite service_start_eq.
    + unfold service_start, bind, gets, service_get_state. by rewrite Hin.
  - intros Hstop.
    destruct (str_in (state (stored c)) STARTED_STATES) eqn:Hin.
    + destruct Hu as [u Hu]. by rewrite (service_stop_eq env force c u).
    + unfold service_stop, bind, gets, service_get_state. by rewrite Hin.
  - intros Hsync. by rewrite service_sync_safe.
Qed.

(** C2, as the code has it, on a stamped charm.  [service_start],
    [service_stop] and [service_sync] return when their hooks return or
    raise an instance of [Exception].  When the stop hook, the sync hook
    or the start hook raises such an exception, the operation projects the
    status once more and writes nothing to the record: no stamp follows
    the failure ([service_start] keeps the record its sync step left).
    When the install hook raises, whatever the class of the exception,
    [service_install] stamps ["install"] and projects the status, and then
    lets the exception out. *)
Theorem hook_failure_policy (env : Env) (c : Charm) (force : bool)
    (e : exn) :
  is_Some (updated (stored c)) ->
  ((ordinary (_service_sync env false c) = true ->
    ordinary (_service_start env (exec (service_sync env false) c)) = true ->
    result (service_start env) c = Normal tt) /\
   (ordinary (_service_stop env force c) = true ->
    result (service_stop env force) c = Normal tt) /\
   (ordinary (_service_sync env false c) = true ->
    result (service_sync env force) c = Normal tt)) /\
  (state (stored c) ∈ STARTED_STATES ->
   _service_stop env force c = Some e ->
   isinstance_Exception e = true ->
   let c' := exec (service_stop env force) c in
   stored c' = stored c /\
   stamps (trace c') = stamps (trace c) /\
   projections (trace c') = S (projections (trace c)) /\
   exists u, updated (stored c) = Some u /\
             unit_status c' = Some (project (stored c) u)) /\
  (str_in (state (stored c)) PRESTARTED_STATES || force = true ->
   _service_sync env false c = Some e ->
   isinstance_Exception e = true ->
   let c' := exec (service_sync env force) c in
   stored c' = stored c /\
   stamps (trace c') = stamps (trace c) /\
   projections (trace c') = S (projections (trace c)) /\
   exists u, updated (stored c) = Some u /\
             unit_status c' = Some (project (stored c) u)) /\
  (state (stored c) ∈ PRESTARTED_STATES ->
   let c1 := exec (service_sync env false) c in
   ordinary (_service_sync env false c) = true ->
   _service_start env c1 = Some e ->
   isinstance_Exception e = true ->
   let c' := exec (service_start env) c in
   stored c' = stored c1 /\
   stamps (trace c') = stamps (trace c1) /\
   projections (trace c') = S (projections (trace c1)) /\
   exists u1, updated (stored c1) = Some u1 /\
              unit_status c' = Some (project (stored c1) u1)) /\
  (_service_install env c = Some e ->
   let c' := exec (service_install env) c in
   let u := (clock env (clock_reads c), "install") in
   service_install env c = (Raised e, c') /\
   updated (stored c') = Some u /\
   unit_status c' = Some (project (stored c') u) /\
   stamps (trace c') = S (stamps (trace c)) /\
   projections (trace c') = S (projections (trace c))).
Proof.
  intros Hu. split; [by apply lifecycle_absorbs |].
  destruct Hu as [u Hu]. repeat apply conj.
  - intros Hin%str_in_spec Hhook He. simpl. unfold exec.
    rewrite (service_stop_eq env force c u Hin Hu), Hhook
      by (by rewrite Hhook).
    simpl. autorewrite with calls. repeat split. by exists u.
  - intros Hcond Hhook He. simpl. unfold exec.
    rewrite (service_sync_runs env force c u Hcond Hu), Hhook
      by (by rewrite Hhook).
    simpl. autorewrite with calls. repeat split. by exists u.
  - intros Hin%str_in_spec. simpl. intros Hsync Hhook He.
    pose proof (service_sync_keeps_stamp env false c (mk_is_Some _ _ Hu))
      as [u1 Hu1].
    set (c1 := exec (service_sync env false) c) in *.
    assert (exec (service_start env) c
            = show u1 (record (HookCalled HStart) c1)) as ->.
    { unfold exec at 1.
      rewrite (service_start_eq env c Hin (mk_is_Some _ _ Hu) Hsync)
        by (fold c1; by rewrite Hhook).
      simpl. fold c1. rewrite Hhook. unfold exec.
      by rewrite (service_update_status_eq _ u1). }
    simpl. autorewrite with calls.
    split; [done |]. split; [done |]. split; [done |]. by exists u1.
  - intros Hhook. simpl. unfold exec. rewrite service_install_eq, Hhook.
    simpl. autorewrite with calls. by repeat split.
Qed.

(** With every hook raising, [service_stop] on a started charm returns. *)
Lemma hook_failure_policy_witness :
  is_Some (updated (stored (fresh_in "started"))) /\
  result (service_stop failing_env false) (fresh_in "started") = Normal tt.
Proof.
  assert (is_Some (updated (stored (fresh_in "started")))) as Hu
    by (by eexists).
  split; [exact Hu |].
  destruct (hook_failure_policy failing_env (fresh_in "started") false boom
              Hu) as ((_ & Hstop & _) & _).
  apply Hstop. reflexivity.
Defined.

(** C2 as stated fails twice: the exception of the install hook leaves
    [service_install], and after the stop hook has failed [service_stop]
    does not stamp [updated]. *)
Lemma hook_failure_counterexample :
  result (service_install failing_env) fresh = Raised boom /\
  (let c := fresh_in "started" in
   let c' := exec (service_stop failing_env false) c in
   hook_calls HStop (trace c') = 1 /\
   updated (stored c') = updated (stored c) /\
   stamps (trace c') = stamps (trace c)).
Proof. vm_compute. by repeat split. Qed.

(** ** [service_set_sync], step by step *)

Lemma handler_calls_handler k v k' v' tr :
  handler_calls k v (HandlerCalled k' v' :: tr) =
  if bool_decide (k' = k) && bool_decide (v' = v)
  then S (handler_calls k v tr) else handler_calls k v tr.
Proof.
  unfold handler_calls. simpl.
  by destruct (bool_decide (k' = k) && bool_decide (v' = v)).
Qed.

Lemma notify_exec key status c :
  exec (notify key status) c =
  match sync_handlers c !! key with
  | Some (Some h) => record (HandlerCalled key status) c
  | _ => c
  end.
Proof.
  unfold exec, notify, bind, gets, try_except, call_handler, ret. simpl.
  destruct (sync_handlers c !! key) as [[h|]|]; try done.
  destruct (h key status) as [e|]; [| done].
  by destruct (isinstance_Exception e).
Qed.

Lemma notify_eq key status c :
  handler_ordinary c key status = true ->
  notify key status c =
  (Normal tt,
   match sync_handlers c !! key with
   | Some (Some h) => record (HandlerCalled key status) c
   | _ => c
   end).
Proof.
  intros Hord. pose proof (notify_returns key status c Hord) as Hr.
  pose proof (notify_exec key status c) as Hx.
  unfold result, exec in *.
  destruct (notify key status c) as [r c1]. simpl in *. by subst.
Qed.

(** An exception that is not an instance of [Exception] leaves the
    handler step. *)
Lemma notify_escapes key status c (h : Handler) e :
  sync_handlers c !! key = Some (Some h) ->
  h key status = Some e ->
  isinstance_Exception e = false ->
  notify key status c = (Raised e, record (HandlerCalled key status) c).
Proof.
  intros Hreg Hraise He.
  unfold notify, bind, gets. rewrite Hreg.
  unfold try_except, call_handler. by rewrite Hraise, He.
Qed.

Lemma handler_cases c key status :
  handler_ordinary c key status = true \/
  exists (h : Handler) e,
    sync_handlers c !! key = Some (Some h) /\
    h key status = Some e /\ isinstance_Exception e = false.
Proof.
  unfold handler_ordinary.
  destruct (sync_handlers c !! key) as [[h|]|]; [| by left..].
  destruct (h key status) as [e|] eqn:Hh; [| by left]. simpl.
  destruct (isinstance_Exception e) eqn:He; [by left |].
  right. by exists h, e.
Qed.

Lemma service_set_state_counts env st c :
  let c' := exec (service_set_state env st) c in
  stamps (trace c) <= stamps (trace c') /\
  projections (trace c) <= projections (trace c').
Proof.
  unfold exec. rewrite service_set_state_eq. simpl.
  destruct (String.eqb (state (stored c)) _); simpl;
    autorewrite with calls; lia.
Qed.

(** The charm [service_set_sync] leaves when it writes [status]. *)
Lemma service_set_sync_fires_exec env key status c :
  handler_ordinary c key status = true ->
  let c0 := with_stored
              (fun s => set_syncs (<[key := status]> (syncs s)) s) c in
  let c1 := match sync_handlers c !! key with
            | Some (Some h) => record (HandlerCalled key status) c0
            | _ => c0
            end in
  exec (modify (with_stored
                  (fun s => set_syncs (<[key := status]> (syncs s)) s)) >>
        notify key status >> reevaluate env >>
        service_set_updated env "sync" None >> service_update_status) c
  = settle env "sync" (exec (service_set_state env (state (stored c1))) c1).
Proof.
  intros Hord c0 c1. unfold exec at 1. rewrite service_set_sync_fires by done.
  cbv zeta. fold c0.
  assert (exec (notify key status) c0 = c1) as ->
    by apply notify_exec.
  reflexivity.
Qed.

(** The same sequence when the handler raises outside [Exception]: the
    status is written, and nothing follows the handler call. *)
Lemma service_set_sync_escapes env key status c (h : Handler) e :
  sync_handlers c !! key = Some (Some h) ->
  h key status = Some e ->
  isinstance_Exception e = false ->
  (modify (with_stored (fun s => set_syncs (<[key := status]> (syncs s)) s)) >>
   notify key status >> reevaluate env >>
   service_set_updated env "sync" None >> service_update_status) c
  = (Raised e,
     record (HandlerCalled key status)
       (with_stored (fun s => set_syncs (<[key := status]> (syncs s)) s) c)).
Proof.
  intros Hreg Hraise He. unfold bind at 1, modify.
  set (c0 := with_stored _ c).
  assert (sync_handlers c0 !! key = Some (Some h)) as Hreg0 by exact Hreg.
  unfold bind at 1.
  by rewrite (notify_escapes key status c0 h e Hreg0 Hraise He).
Qed.

Lemma service_set_sync_fired env key status c :
  handler_ordinary c key status = true ->
  let c0 := with_stored
              (fun s => set_syncs (<[key := status]> (syncs s)) s) c in
  let c' := exec (modify (with_stored
                     (fun s => set_syncs (<[key := status]> (syncs s)) s)) >>
                  notify key status >> reevaluate env >>
                  service_set_updated env "sync" None >>
                  service_update_status) c in
  syncs (stored c') = <[key := status]> (syncs (stored c)) /\
  state (stored c') =
    resolve (state (stored c)) (state (stored c)) (service_is_synced c0) /\
  stale (stored c') = stale (stored c) /\
  (forall k v, handler_calls k v (trace c') =
     match sync_handlers c !! key with
     | Some (Some h) =>
         if bool_decide (key = k) && bool_decide (status = v)
         then S (handler_calls k v (trace c)) else handler_calls k v (trace c)
     | _ => handler_calls k v (trace c)
     end) /\
  (exists ts, updated (stored c') = Some (ts, "sync") /\
              unit_status c' = Some (project (stored c') (ts, "sync"))) /\
  stamps (trace c) < stamps (trace c') /\
  projections (trace c) < projections (trace c').
Proof.
  intros Hord c0 c'. subst c'. rewrite service_set_sync_fires_exec by done.
  fold c0.
  set (c1 := match sync_handlers c !! key with
             | Some (Some h) => record (HandlerCalled key status) c0
             | _ => c0
             end).
  assert (stored c1 = stored c0 /\ required_syncs c1 = required_syncs c0 /\
          stamps (trace c1) = stamps (trace c) /\
          projections (trace c1) = projections (trace c) /\
          forall k v, handler_calls k v (trace c1) =
            match sync_handlers c !! key with
            | Some (Some h) =>
                if bool_decide (key = k) && bool_decide (status = v)
                then S (handler_calls k v (trace c))
                else handler_calls k v (trace c)
            | _ => handler_calls k v (trace c)
            end) as (Hst1 & Hrq1 & Hs1 & Hp1 & Hh1).
  { subst c1.
    destruct (sync_handlers c !! key) as [[h|]|]; repeat split; try done.
    intros k v. simpl. apply handler_calls_handler. }
  assert (service_is_synced c1 = service_is_synced c0) as Hsynced.
  { unfold service_is_synced. rewrite Hrq1.
    apply is_synced_loop_ext. intros k _. by rewrite Hst1. }
  pose proof (service_set_state_frame env (state (stored c1)) c1) as
    (Hst & Hsl & Hsy & _ & _ & _ & Hh & _).
  pose proof (service_set_state_counts env (state (stored c1)) c1) as
    (Hs & Hp).
  set (c2 := exec (service_set_state env (state (stored c1))) c1) in *.
  simpl. autorewrite with calls.
  rewrite Hst, Hsl, Hsy, Hst1, Hsynced.
  split; [done |]. split; [done |]. split; [done |].
  split; [intros k v; autorewrite with calls; by rewrite Hh, Hh1 |].
  split; [by eexists |]. lia.
Qed.

(** ** [service_set_sync] as a whole *)

(** The three ways [service_set_sync] ends: it skips the write; it writes
    and goes on to the end; or it writes and the handler raises outside
    [Exception], which ends the call right there. *)
Lemma service_set_sync_cases env key status force c :
  let current := default PyNone (syncs (stored c) !! key) in
  let status' := (effective current status force).1 in
  let c0 := with_stored
              (fun s => set_syncs (<[key := status']> (syncs s)) s) c in
  let c' := exec (service_set_sync env key status force) c in
  (c' = c /\ syncs (stored c) !! key = Some status' /\ status' = status /\
   status <> PyNone /\ force = false /\
   service_set_sync env key status force c = (Normal tt, c)) \/
  (syncs (stored c') = <[key := status']> (syncs (stored c)) /\
   state (stored c') =
     resolve (state (stored c)) (state (stored c)) (service_is_synced c0) /\
   stale (stored c') = stale (stored c) /\
   required_syncs c' = required_syncs c /\
   sync_handlers c' = sync_handlers c /\
   (current <> status' \/ (effective current status force).2 = true) /\
   handler_ordinary c key status' = true /\
   result (service_set_sync env key status force) c = Normal tt) \/
  ((current <> status' \/ (effective current status force).2 = true) /\
   exists (h : Handler) e,
     sync_handlers c !! key = Some (Some h) /\
     h key status' = Some e /\ isinstance_Exception e = false /\
     service_set_sync env key status force c =
       (Raised e, record (HandlerCalled key status') c0)).
Proof.
  intros current status' c0 c'.
  pose proof (service_set_sync_eq env key status force c) as Heq.
  cbv zeta in Heq. fold current in Heq. fold status' in Heq.
  destruct (negb (SyncVal_eqb current status')
            || (effective current status force).2) eqn:Hcond.
  - assert (current <> status' \/ (effective current status force).2 = true)
      as Hfires.
    { apply orb_true_iff in Hcond as [Hne|Hf]; [left | by right].
      intros Hsame. rewrite Hsame, SyncVal_eqb_refl in Hne. done. }
    right. destruct (handler_cases c key status')
      as [Hord|(h & e & Hreg & Hraise & He)].
    + left.
      pose proof (service_set_sync_fired env key status' c Hord)
        as (Hsy & Hst & Hsl & _).
      pose proof (service_set_sync_fires_exec env key status' c Hord)
        as Hexec.
      pose proof (service_set_sync_fires env key status' c Hord) as Hres.
      subst c'. unfold result, exec in *. cbv zeta in *. rewrite Heq.
      split; [exact Hsy |]. split; [exact Hst |]. split; [exact Hsl |].
      rewrite Hexec.
      match goal with |- context [service_set_state env ?st ?c1] =>
        pose proof (service_set_state_frame env st c1) as
          (_ & _ & _ & Hrq & Hhs & _) end.
      unfold exec in *. simpl in *. rewrite Hrq, Hhs.
      split; [by destruct (sync_handlers c !! key) as [[h|]|] |].
      split; [by destruct (sync_handlers c !! key) as [[h|]|] |].
      split; [exact Hfires |]. split; [exact Hord |]. by rewrite Hres.
    + right. split; [exact Hfires |]. exists h, e.
      split; [exact Hreg |]. split; [exact Hraise |]. split; [exact He |].
      rewrite Heq. by apply (service_set_sync_escapes env key status' c h e).
  - left. apply orb_false_elim in Hcond as [Hsame Hf].
    apply negb_false_iff, SyncVal_eqb_eq in Hsame.
    subst c'. unfold exec. rewrite Heq.
    subst status'. unfold effective in *.
    destruct (SyncVal_eqb status PyNone) eqn:Hs; simpl in *; [done |].
    split; [done |]. subst current.
    assert (status <> PyNone) as Hnn.
    { intros ->. by rewrite SyncVal_eqb_refl in Hs. }
    destruct (syncs (stored c) !! key) as [v|]; simpl in *; [| congruence].
    repeat split; congruence.
Qed.

(** What a write leaves in the tracker, whatever the handler does. *)
Lemma service_set_sync_wrote env key status force c :
  let current := default PyNone (syncs (stored c) !! key) in
  let status' := (effective current status force).1 in
  let c' := exec (service_set_sync env key status force) c in
  current <> status' \/ (effective current status force).2 = true ->
  syncs (stored c') = <[key := status']> (syncs (stored c)) /\
  stale (stored c') = stale (stored c) /\
  required_syncs c' = required_syncs c /\
  sync_handlers c' = sync_handlers c /\
  (forall k v, handler_calls k v (trace c') =
     match sync_handlers c !! key with
     | Some (Some h) =>
         if bool_decide (key = k) && bool_decide (status' = v)
         then S (handler_calls k v (trace c)) else handler_calls k v (trace c)
     | _ => handler_calls k v (trace c)
     end).
Proof.
  intros current status' c' Hfires. subst current status' c'.
  destruct (service_set_sync_cases env key status force c)
    as [(_ & Hk & Hsame & Hnn & Hf & _)|
        [(Hsy & _ & Hsl & Hrq & Hhs & _ & Hord & _)|
         (_ & h & e & Hreg & Hraise & He & Hrun)]].
  - exfalso. destruct Hfires as [Hne|Hf2].
    + rewrite Hsame in Hk, Hne. apply Hne. by rewrite Hk.
    + unfold effective in Hf2.
      destruct (SyncVal_eqb status PyNone) eqn:Hs.
      { by apply SyncVal_eqb_eq in Hs. }
      simpl in Hf2. congruence.
  - split; [exact Hsy |]. split; [exact Hsl |]. split; [exact Hrq |].
    split; [exact Hhs |].
    pose proof (service_set_sync_eq env key status force c) as Heq.
    cbv zeta in Heq.
    match type of Heq with _ = if ?b then _ else _ =>
      assert (b = true) as Hcond end.
    { destruct Hfires as [Hne| ->]; [| apply orb_true_r].
      match goal with |- negb ?b || _ = true => destruct b eqn:Hsame end;
        [| done].
      by apply SyncVal_eqb_eq in Hsame. }
    rewrite Hcond in Heq.
    pose proof (service_set_sync_fired env key _ c Hord)
      as (_ & _ & _ & Hh & _).
    unfold exec in *. by rewrite Heq.
  - unfold exec. rewrite Hrun. simpl. rewrite Hreg.
    repeat split. intros k v. apply handler_calls_handler.
Qed.

(** C6: [service_set_sync key b] without [force] does nothing when [b] is
    the stored status of [key]; so right after a first such call a second
    one leaves the charm as it is, with no handler call, no re-evaluation,
    no stamp and no projection.  When [b] is not the stored status, the
    first call stores it and calls the registered handler once; and when
    that handler returns or raises an instance of [Exception], the call
    goes on to re-evaluate the state from the new sync status, to stamp
    ["sync"] and to project the status, and returns. *)
Theorem service_set_sync_idempotent (env : Env) (c : Charm) (key : string)
    (b : bool) :
  let op := service_set_sync env key (PyBool b) false in
  let c0 := with_stored
              (fun s => set_syncs (<[key := PyBool b]> (syncs s)) s) c in
  let c1 := exec op c in
  (syncs (stored c) !! key = Some (PyBool b) -> op c = (Normal tt, c)) /\
  op c1 = (Normal tt, c1) /\
  (syncs (stored c) !! key <> Some (PyBool b) ->
   syncs (stored c1) !! key = Some (PyBool b) /\
   (forall h, sync_handlers c !! key = Some (Some h) ->
      handler_calls key (PyBool b) (trace c1) =
      S (handler_calls key (PyBool b) (trace c))) /\
   (handler_ordinary c key (PyBool b) = true ->
    result op c = Normal tt /\
    state (stored c1) =
      resolve (state (stored c)) (state (stored c)) (service_is_synced c0) /\
    (exists ts, updated (stored c1) = Some (ts, "sync") /\
                unit_status c1 = Some (project (stored c1) (ts, "sync"))) /\
    stamps (trace c) < stamps (trace c1) /\
    projections (trace c) < projections (trace c1))).
Proof.
  intros op c0 c1.
  assert (forall c2, syncs (stored c2) !! key = Some (PyBool b) ->
            op c2 = (Normal tt, c2)) as Hnoop.
  { intros c2 Hc2. subst op. rewrite service_set_sync_eq. simpl.
    rewrite Hc2. simpl. unfold effective. simpl.
    by rewrite Bool.eqb_reflx. }
  assert (syncs (stored c) !! key <> Some (PyBool b) ->
          default PyNone (syncs (stored c) !! key) <> PyBool b) as Hdiff.
  { intros Hne Hsame. apply Hne.
    destruct (syncs (stored c) !! key) as [v|]; simpl in Hsame;
      congruence. }
  assert (syncs (stored c) !! key <> Some (PyBool b) ->
          op c = (modify (with_stored
                     (fun s => set_syncs (<[key := PyBool b]> (syncs s)) s)) >>
                  notify key (PyBool b) >> reevaluate env >>
                  service_set_updated env "sync" None >>
                  service_update_status) c) as Hfire.
  { intros Hne. subst op. rewrite service_set_sync_eq. simpl.
    unfold effective. simpl.
    destruct (syncs (stored c) !! key) as [[|b']|] eqn:Hk; simpl; try done.
    destruct (Bool.eqb_spec b' b) as [->|]; [done | reflexivity]. }
  assert (syncs (stored c) !! key <> Some (PyBool b) ->
          syncs (stored c1) = <[key := PyBool b]> (syncs (stored c)) /\
          forall k v, handler_calls k v (trace c1) =
            match sync_handlers c !! key with
            | Some (Some h) =>
                if bool_decide (key = k) && bool_decide (PyBool b = v)
                then S (handler_calls k v (trace c))
                else handler_calls k v (trace c)
            | _ => handler_calls k v (trace c)
            end) as Hwrote.
  { intros Hne.
    destruct (service_set_sync_wrote env key (PyBool b) false c)
      as (Hsy & _ & _ & _ & Hh); [left; by apply Hdiff |].
    split; [exact Hsy | exact Hh]. }
  split; [apply Hnoop |]. split.
  - apply Hnoop.
    destruct (decide (syncs (stored c) !! key = Some (PyBool b))) as [Heq|Hne].
    + subst c1. unfold exec. by rewrite (Hnoop c Heq).
    + destruct (Hwrote Hne) as [-> _]. apply lookup_insert_eq.
  - intros Hne. destruct (Hwrote Hne) as [Hsy Hh].
    split; [rewrite Hsy; apply lookup_insert_eq |].
    split.
    { intros h Hreg. rewrite Hh, Hreg. by rewrite !bool_decide_eq_true_2. }
    intros Hord.
    destruct (service_set_sync_fired env key (PyBool b) c Hord)
      as (_ & Hst & _ & _ & Hu & Hs & Hp).
    subst c1. unfold result, exec in *. rewrite (Hfire Hne).
    split; [by rewrite service_set_sync_fires |]. by repeat split.
Qed.

(** On a charm that waits for ["db"], setting ["db"] to [True] twice: the
    first call starts the service, the second changes nothing. *)
Lemma service_set_sync_idempotent_witness :
  let c1 := exec (service_set_sync base_env "db" (PyBool true) false)
              waiting_for_db in
  syncs (stored waiting_for_db) !! "db" <> Some (PyBool true) /\
  handler_ordinary waiting_for_db "db" (PyBool true) = true /\
  state (stored waiting_for_db) = "waiting" /\
  state (stored c1) = "started" /\
  service_set_sync base_env "db" (PyBool true) false c1 = (Normal tt, c1).
Proof.
  assert (syncs (stored waiting_for_db) !! "db" <> Some (PyBool true))
    as Hne by (apply (bool_decide_unpack _); vm_compute; exact I).
  assert (handler_ordinary waiting_for_db "db" (PyBool true) = true) as Hord
    by (vm_compute; reflexivity).
  destruct (service_set_sync_idempotent base_env waiting_for_db "db" true)
    as (_ & Hsecond & Hfirst).
  destruct (Hfirst Hne) as (_ & _ & Hgoes).
  destruct (Hgoes Hord) as (_ & Hst & _).
  cbv zeta. split; [exact Hne |]. split; [exact Hord |].
  split; [vm_compute; reflexivity |].
  split; [| exact Hsecond].
  rewrite Hst. vm_compute. reflexivity.
Defined.

(** C7, as the code has it: when the handler registered for [key] raises
    an instance of [Exception], [service_set_sync] still returns,
    [syncs[key]] holds the status it wrote, the handler was called once,
    the state is the one the re-evaluation resolves to with the new syncs,
    [updated] is stamped ["sync"] and the unit status is the projection of
    the final record. *)
Theorem service_set_sync_handler_failure (env : Env) (c : Charm)
    (key : string) (status : SyncVal) (force : bool) (h : Handler) (e : exn) :
  let current := default PyNone (syncs (stored c) !! key) in
  let status' := (effective current status force).1 in
  let force' := (effective current status force).2 in
  let c0 := with_stored
              (fun s => set_syncs (<[key := status']> (syncs s)) s) c in
  let c' := exec (service_set_sync env key status force) c in
  sync_handlers c !! key = Some (Some h) ->
  h key status' = Some e ->
  isinstance_Exception e = true ->
  current <> status' \/ force' = true ->
  result (service_set_sync env key status force) c = Normal tt /\
  syncs (stored c') = <[key := status']> (syncs (stored c)) /\
  handler_calls key status' (trace c') =
    S (handler_calls key status' (trace c)) /\
  state (stored c') =
    resolve (state (stored c)) (state (stored c)) (service_is_synced c0) /\
  (exists ts, updated (stored c') = Some (ts, "sync") /\
              unit_status c' = Some (project (stored c') (ts, "sync"))) /\
  stamps (trace c) < stamps (trace c') /\
  projections (trace c) < projections (trace c').
Proof.
  intros current status' force' c0 c' Hreg Hraise He Hfires.
  assert (handler_ordinary c key status' = true) as Hord.
  { unfold handler_ordinary. by rewrite Hreg, Hraise. }
  assert (negb (SyncVal_eqb current status') || force' = true) as Hcond.
  { destruct Hfires as [Hne| ->]; [| apply orb_true_r].
    destruct (SyncVal_eqb current status') eqn:Heq; [| done].
    by apply SyncVal_eqb_eq in Heq. }
  split; [by apply service_set_sync_returns |].
  assert (c' = exec (modify (with_stored
                     (fun s => set_syncs (<[key := status']> (syncs s)) s)) >>
                  notify key status' >> reevaluate env >>
                  service_set_updated env "sync" None >>
                  service_update_status) c) as ->.
  { subst c'. unfold exec at 1. rewrite service_set_sync_eq. simpl.
    fold current. fold status'. fold force'. by rewrite Hcond. }
  destruct (service_set_sync_fired env key status' c Hord)
    as (Hsy & Hst & _ & Hh & Hu & Hs & Hp).
  split; [done |]. split; [| by repeat split].
  rewrite Hh, Hreg. by rewrite !bool_decide_eq_true_2.
Qed.

(** With a handler that raises [RuntimeError] on ["db"]. *)
Lemma service_set_sync_handler_failure_witness :
  let c' := exec (service_set_sync base_env "db" (PyBool true) false)
              guarded in
  sync_handlers guarded !! "db" = Some (Some raising_handler) /\
  raising_handler "db" (PyBool true) = Some boom /\
  isinstance_Exception boom = true /\
  result (service_set_sync base_env "db" (PyBool true) false) guarded
    = Normal tt /\
  syncs (stored c') !! "db" = Some (PyBool true).
Proof.
  assert (sync_handlers guarded !! "db" = Some (Some raising_handler))
    as Hreg by reflexivity.
  assert (raising_handler "db" (PyBool true) = Some boom) as Hraise
    by reflexivity.
  assert (isinstance_Exception boom = true) as He by reflexivity.
  destruct (service_set_sync_handler_failure base_env guarded "db"
              (PyBool true) false raising_handler boom Hreg Hraise He)
    as (Hres & Hsyncs & _).
  { left. vm_compute. discriminate. }
  simpl. split; [exact Hreg |]. split; [exact Hraise |]. split; [exact He |].
  split; [exact Hres |]. rewrite Hsyncs. apply lookup_insert_eq.
Defined.

(** C7 as stated fails: a handler that raises [SystemExit], which is not
    an instance of [Exception], is not caught.  On a charm that waits for
    ["db"], the exception leaves [service_set_sync] after [syncs["db"]]
    has been written: the charm is synced and still ["waiting"], and
    nothing was stamped or projected. *)
Lemma service_set_sync_handler_escape_counterexample :
  let c' := exec (service_set_sync base_env "db" (PyBool true) false)
              watched in
  sync_handlers watched !! "db" = Some (Some exiting_handler) /\
  exiting_handler "db" (PyBool true) = Some sys_exit /\
  result (service_set_sync base_env "db" (PyBool true) false) watched
    = Raised sys_exit /\
  syncs (stored watched) !! "db" = Some (PyBool false) /\
  syncs (stored c') !! "db" = Some (PyBool true) /\
  service_is_synced c' = true /\
  state (stored c') = "waiting" /\
  updated (stored c') = updated (stored watched) /\
  unit_status c' = unit_status watched /\
  stamps (trace c') = stamps (trace watched) /\
  projections (trace c') = projections (trace watched).
Proof. vm_compute. by repeat split. Qed.

(** C10: [service_set_sync key] with the status left out, for a key that
    [syncs] does not hold, stores [None] under the key; the registered
    handler, if there is one, is called once, with [None]; and
    [service_get_sync key] then returns [None], not [False]. *)
Theorem service_set_sync_omitted_status (env : Env) (c : Charm)
    (key : string) (force : bool) :
  syncs (stored c) !! key = None ->
  let c' := exec (service_set_sync env key PyNone force) c in
  syncs (stored c') !! key = Some PyNone /\
  service_get_sync c' key = PyNone /\
  (forall h, sync_handlers c !! key = Some (Some h) ->
     handler_calls key PyNone (trace c') =
       S (handler_calls key PyNone (trace c)) /\
     forall b, handler_calls key (PyBool b) (trace c') =
               handler_calls key (PyBool b) (trace c)).
Proof.
  intros Hnone c'.
  destruct (service_set_sync_wrote env key PyNone force c)
    as (Hsy & _ & _ & _ & Hh); [by right |].
  fold c' in Hsy, Hh. rewrite Hnone in Hsy, Hh. simpl in Hsy, Hh.
  assert (syncs (stored c') !! key = Some PyNone) as Hk.
  { rewrite Hsy. apply lookup_insert_eq. }
  split; [exact Hk |]. split.
  - unfold service_get_sync. by rewrite Hk.
  - intros h Hreg. split.
    + rewrite Hh, Hreg. by rewrite !bool_decide_eq_true_2.
    + intros b. rewrite Hh, Hreg. rewrite bool_decide_eq_true_2 by done.
      by rewrite bool_decide_eq_false_2.
Qed.

(** ** No silent mutation, and a projection that cannot fail *)

(** C8, as the code has it: on a charm whose registered handlers return
    or raise instances of [Exception], whenever an operation leaves
    [syncs], [state] or [stale] with another value than it found, it has
    stamped [updated] and projected the status along the way: the pair
    [updated] holds was stamped during the operation, and the unit status
    was projected during the operation and displays the final values of
    the three fields.  The hooks may raise anything. *)
Theorem no_silent_mutation (env : Env) (op : Op) (c : Charm) :
  handlers_ordinary c ->
  let c' := exec (run env op) c in
  syncs (stored c') <> syncs (stored c) \/
  state (stored c') <> state (stored c) \/
  stale (stored c') <> stale (stored c) ->
  exists new,
    trace c' = new ++ trace c /\
    (exists ts what,
       updated (stored c') = Some (ts, what) /\ Stamped ts what ∈ new) /\
    (exists s,
       unit_status c' = Some s /\ StatusProjected s ∈ new /\
       msg_syncs (message s) = syncs (stored c') /\
       msg_state (message s) = state (stored c') /\
       msg_stale (message s) = stale (stored c')).
Proof.
  intros Hord c' Hchanged.
  destruct (accounted_run env op c Hord) as (new & Htr & _ & _ & Hacc).
  fold c' in Htr, Hacc. exists new. split; [exact Htr |].
  destruct Hacc as [Hs (s & Hunit & Hin & Hshown)].
  { unfold tracked. intros [= Hsy Hst Hsl].
    destruct Hchanged as [H|[H|H]]; by apply H. }
  split; [exact Hs |]. exists s. unfold shown, tracked in Hshown.
  injection Hshown as Hsy Hst Hsl. by repeat split.
Qed.

(** Setting ["db"] on a charm whose handler raises [RuntimeError]. *)
Lemma no_silent_mutation_witness :
  let c' := exec (run base_env (Op_service_set_sync "db" (PyBool true) false))
              guarded in
  handlers_ordinary guarded /\
  syncs (stored c') <> syncs (stored guarded) /\
  exists new, trace c' = new ++ trace guarded /\
    (exists ts what,
       updated (stored c') = Some (ts, what) /\ Stamped ts what ∈ new) /\
    (exists s,
       unit_status c' = Some s /\ StatusProjected s ∈ new /\
       msg_syncs (message s) = syncs (stored c') /\
       msg_state (message s) = state (stored c') /\
       msg_stale (message s) = stale (stored c')).
Proof.
  assert (handlers_ordinary guarded) as Hord.
  { intros key status. unfold handler_ordinary.
    change (sync_handlers guarded)
      with (<["db" := Some raising_handler]>
              (∅ : gmap string (option Handler))).
    destruct (decide (key = "db")) as [->|Hne].
    - by rewrite lookup_insert_eq.
    - by rewrite lookup_insert_ne, lookup_empty. }
  assert (syncs (stored (exec (run base_env
                                 (Op_service_set_sync "db" (PyBool true) false))
                           guarded)) <> syncs (stored guarded)) as Hne.
  { intros Hsame. apply (f_equal (fun m => m !! "db")) in Hsame.
    vm_compute in Hsame. discriminate. }
  split; [exact Hord |]. split; [exact Hne |].
  apply (no_silent_mutation base_env
           (Op_service_set_sync "db" (PyBool true) false) guarded Hord).
  left. exact Hne.
Defined.

(** C8 as stated fails: [syncs[key]] is written before the handler is
    called, and a handler that raises [SystemExit] is not caught; the
    operation ends there, with [syncs] changed and [updated] and the unit
    status as they were, nothing stamped and nothing projected. *)
Lemma silent_mutation_counterexample :
  let c' := exec (run base_env (Op_service_set_sync "db" (PyBool true) false))
              watched in
  reachable base_env watched /\
  syncs (stored c') !! "db" <> syncs (stored watched) !! "db" /\
  updated (stored c') = updated (stored watched) /\
  unit_status c' = unit_status watched /\
  stamps (trace c') = stamps (trace watched) /\
  projections (trace c') = projections (trace watched).
Proof.
  split.
  { apply (reach_step base_env _ Op_on_start).
    apply (reach_step base_env _
             (Op_service_init_sync "db" false (Some exiting_handler))).
    apply (reach_step base_env _ (Op_service_set_required_syncs ["db"])).
    apply reach_fresh. }
  vm_compute. repeat split. discriminate.
Qed.

Lemma accounted_stamped c c' :
  accounted c c' -> is_Some (updated (stored c)) ->
  is_Some (updated (stored c')).
Proof.
  intros (new & _ & [->|(ts & what & -> & _)] & _) Hu; [done | by eexists].
Qed.

Lemma init_stamped env persisted reads :
  is_Some (updated (stored (__init__ env persisted reads))).
Proof. by eexists. Qed.

Lemma service_update_status_keeps c :
  stored (exec service_update_status c) = stored c.
Proof.
  unfold exec, service_update_status.
  by destruct (service_get_updated c).
Qed.

(** A raising handler does not undo the stamp. *)
Lemma service_set_sync_keeps_stamp env key status force c :
  is_Some (updated (stored c)) ->
  is_Some (updated (stored (exec (service_set_sync env key status force) c))).
Proof.
  intros Hu.
  destruct (service_set_sync_cases env key status force c)
    as [(-> & _)|[(_ & _ & _ & _ & _ & _ & Hord & _)|
                  (_ & h & e & _ & _ & _ & Hrun)]].
  - exact Hu.
  - eapply accounted_stamped; [| exact Hu].
    by apply accounted_service_set_sync.
  - unfold exec. by rewrite Hrun.
Qed.

Lemma run_keeps_stamp env op c :
  is_Some (updated (stored c)) ->
  is_Some (updated (stored (exec (run env op) c))).
Proof.
  intros Hu. destruct (op_key op) as [k|] eqn:Hop.
  2: { eapply accounted_stamped; [by apply accounts_run | exact Hu]. }
  pose proof (fun key status force =>
                service_set_sync_keeps_stamp env key status force c Hu)
    as Hsync.
  destruct op; try discriminate; simpl.
  - unfold service_init_sync, exec, bind, gets. simpl.
    destruct (bool_decide (is_Some (syncs (stored c) !! key))); simpl;
      [exact Hu |].
    specialize (Hsync key (PyBool status) false). unfold exec in Hsync.
    by destruct (service_set_sync env key (PyBool status) false c)
      as [[[]|e] c1].
  - apply Hsync.
  - unfold _on_service_set_sync_action. rewrite exec_try_except_ret.
    destruct (param_key event) as [key|]; [| exact Hu].
    destruct (param_status event) as [status|]; [| exact Hu].
    unfold exec, bind, gets. simpl.
    destruct (negb (SyncVal_eqb (service_get_sync c key) PyNone));
      [| exact Hu].
    specialize (Hsync key status false). unfold exec in Hsync.
    destruct (service_set_sync env key status false c) as [[[]|e] c1];
      simpl in *; [| exact Hsync].
    pose proof (service_update_status_keeps c1) as Hkeep.
    unfold exec in Hkeep. by rewrite Hkeep.
Qed.

Lemma reachable_stamped env c :
  reachable env c -> is_Some (updated (stored c)).
Proof.
  induction 1 as [reads | c reads _ _ | c op _ IH].
  - apply init_stamped.
  - apply init_stamped.
  - by apply run_keeps_stamp.
Qed.

(** C9: on every charm an execution can hold, [updated] is a stamped
    pair and [service_update_status] returns, leaving as unit status the
    category and the message computed from the current record. *)
Theorem service_update_status_never_raises (env : Env) (c : Charm) :
  reachable env c ->
  exists u,
    updated (stored c) = Some u /\
    result service_update_status c = Normal tt /\
    unit_status (exec service_update_status c) =
      Some (mkStatus (status_category (state (stored c)))
              (mkMessage u (status_message (stored c)) (stale (stored c))
                 (state (stored c)) (count_synced (syncs (stored c)))
                 (size (syncs (stored c))) (syncs (stored c)))).
Proof.
  intros [u Hu]%reachable_stamped. exists u. split; [exact Hu |].
  unfold result, exec. by rewrite (service_update_status_eq c u Hu).
Qed.

(** After the start event on a fresh charm. *)
Lemma service_update_status_never_raises_witness :
  reachable base_env (exec (run base_env Op_on_start) fresh) /\
  result service_update_status (exec (run base_env Op_on_start) fresh)
    = Normal tt.
Proof.
  assert (reachable base_env (exec (run base_env Op_on_start) fresh)) as Hr.
  { apply reach_step. apply reach_fresh. }
  split; [exact Hr |].
  destruct (service_update_status_never_raises base_env _ Hr)
    as (u & _ & Hres & _).
  exact Hres.
Defined.

(** With no handler registered, on a fresh charm. *)
Lemma service_set_sync_omitted_status_witness :
  syncs (stored fresh) !! "db" = None /\
  service_get_sync (exec (service_set_sync base_env "db" PyNone false) fresh)
    "db" = PyNone.
Proof.
  assert (syncs (stored fresh) !! "db" = None) as Hnone by reflexivity.
  split; [exact Hnone |].
  destruct (service_set_sync_omitted_status base_env fresh "db" false Hnone)
    as (_ & Hget & _).
  exact Hget.
Defined.

(** * Further properties *)

(** ** The forced update *)

Lemma forced_update_eq {A} env what qualname (func : M A) c :
  service_forced_update env what qualname func c =
  (result func c,
   settle env
     (match what with
      | Some w => if String.eqb w "" then "[" +:+ qualname +:+ "]" else w
      | None => "[" +:+ qualname +:+ "]"
      end) (exec func c)).
Proof.
  unfold service_forced_update, try_finally, result, exec.
  destruct (func c) as [r c1]. reflexivity.
Qed.

(** ** Relations every step respects *)

Section Respects.

Variable R : Charm -> Charm -> Prop.
Hypothesis R_refl : forall c, R c c.
Hypothesis R_trans : forall c c1 c2, R c c1 -> R c1 c2 -> R c c2.

Lemma respects_ret {A} (a : A) : respects R (ret a).
Proof. intros c. apply R_refl. Qed.

Lemma respects_raise {A} (e : exn) : respects R (raise (A := A) e).
Proof. intros c. apply R_refl. Qed.

Lemma respects_gets {A} (f : Charm -> A) : respects R (gets f).
Proof. intros c. apply R_refl. Qed.

Lemma respects_bind {A B} (m : M A) (k : A -> M B) :
  respects R m -> (forall a, respects R (k a)) -> respects R (bind m k).
Proof.
  intros Hm Hk c. specialize (Hm c). unfold exec, bind in *.
  destruct (m c) as [[a|e] c1]; simpl in *; [| done].
  eapply R_trans; [exact Hm | apply Hk].
Qed.

Lemma respects_try_except {A} (m : M A) (h : exn -> M A) :
  respects R m -> (forall e, respects R (h e)) ->
  respects R (try_except m h).
Proof.
  intros Hm Hh c. specialize (Hm c). unfold exec, try_except in *.
  destruct (m c) as [[a|e] c1]; simpl in *; [done |].
  destruct (isinstance_Exception e); [| done].
  eapply R_trans; [exact Hm | apply Hh].
Qed.

Lemma respects_try_finally {A} (m : M A) (fin : M unit) :
  respects R m -> respects R fin -> respects R (try_finally m fin).
Proof.
  intros Hm Hfin c. specialize (Hm c). unfold exec, try_finally in *.
  destruct (m c) as [r c1]; simpl in *.
  specialize (Hfin c1). unfold exec in Hfin.
  destruct (fin c1) as [[[]|e] c2]; simpl in *; by eapply R_trans.
Qed.

(** Steps that leave the core alone. *)
Hypothesis R_quiet : forall c c', same_core c c' -> R c c'.

Lemma respects_call_hook h f : respects R (call_hook h f).
Proof.
  intros c. apply R_quiet. unfold exec, call_hook. by destruct (f c).
Qed.

Lemma respects_service_set_updated env what timestamp :
  respects R (service_set_updated env what timestamp).
Proof.
  intros c. apply R_quiet. unfold exec, service_set_updated, bind.
  destruct timestamp as [t|]; [destruct (String.eqb t "") |]; done.
Qed.

Lemma respects_service_update_status : respects R service_update_status.
Proof.
  intros c. apply R_quiet. unfold exec, service_update_status.
  by destruct (service_get_updated c).
Qed.

Lemma respects_service_set_stale env st :
  respects R (service_set_stale env st).
Proof.
  intros c. apply R_quiet. unfold exec. rewrite service_set_stale_eq. simpl.
  by destruct (Bool.eqb (stale (stored c)) st).
Qed.

Lemma respects_service_forced_update {A} env what qualname (func : M A) :
  respects R func -> respects R (service_forced_update env what qualname func).
Proof.
  intros Hf c. unfold exec. rewrite forced_update_eq. simpl.
  eapply R_trans; [apply Hf |]. by apply R_quiet.
Qed.

(** The lifecycle operations only ever ask [service_set_state] for one of
    three literals. *)
Variable env : Env.
Hypothesis R_state :
  forall st, st ∈ ["idle"; "enabled"; "started"] ->
             respects R (service_set_state env st).

Ltac respects_step :=
  match goal with
  | |- respects _ (bind _ _) => apply respects_bind; [| intros ?]
  | |- respects _ (try_except _ _) => apply respects_try_except; [| intros ?]
  | |- respects _ (service_forced_update _ _ _ _) =>
      apply respects_service_forced_update
  | |- respects _ (ret _) => apply respects_ret
  | |- respects _ (gets _) => apply respects_gets
  | |- respects _ (call_hook _ _) => apply respects_call_hook
  | |- respects _ (service_set_updated _ _ _) =>
      apply respects_service_set_updated
  | |- respects _ service_update_status =>
      apply respects_service_update_status
  | |- respects _ (service_set_stale _ _) => apply respects_service_set_stale
  | |- respects _ (service_set_state _ _) =>
      apply R_state; repeat constructor
  | |- respects _ (if ?b then _ else _) => destruct b
  | |- respects _ (match ?x with _ => _ end) => destruct x
  end.

Lemma respects_service_sync force : respects R (service_sync env force).
Proof. unfold service_sync. repeat respects_step. Qed.

Lemma respects_service_start : respects R (service_start env).
Proof.
  unfold service_start. repeat first [apply respects_service_sync | respects_step].
Qed.

Lemma respects_service_stop force : respects R (service_stop env force).
Proof. unfold service_stop. repeat respects_step. Qed.

Lemma respects_service_enable force : respects R (service_enable env force).
Proof. unfold service_enable. repeat respects_step. Qed.

Lemma respects_service_disable force : respects R (service_disable env force).
Proof. unfold service_disable. repeat respects_step. Qed.

Lemma respects_lifecycle op :
  is_lifecycle op = true -> respects R (run env op).
Proof.
  destruct op; simpl; try discriminate; intros _;
    unfold service_set_status_message, service_install, service_restart, _on_config_changed,
      _on_install, _on_start, _on_stop, _on_update_status,
      _on_service_restart_action, _on_service_start_action,
      _on_service_stop_action, _on_service_sync_action, service_install;
    repeat first
      [ apply respects_service_sync
      | apply respects_service_start
      | apply respects_service_stop
      | apply respects_service_enable
      | apply respects_service_disable
      | respects_step
      | progress unfold service_restart
      | (intros c; apply R_quiet; done) ].
Qed.

(** The entry points of the sync tracker. *)
Hypothesis R_sync :
  forall key status force, respects R (service_set_sync env key status force).
Hypothesis R_required :
  forall keys c, R c (with_required_syncs keys c).
Hypothesis R_handlers :
  forall f c, R c (with_sync_handlers f c).

Lemma respects_tracker op :
  is_lifecycle op = false ->
  (forall st, op <> Op_service_set_state st) ->
  respects R (run env op).
Proof.
  destruct op; simpl; try discriminate; intros _ Hnot.
  - unfold service_init_sync.
    repeat first [apply R_sync | respects_step | intros c; apply R_handlers].
  - intros c. apply R_required.
  - by destruct (Hnot st).
  - apply R_sync.
  - unfold _on_service_set_sync_action.
    repeat first [apply R_sync | apply respects_raise | respects_step].
Qed.

End Respects.

(** ** What the lifecycle leaves alone *)

Lemma frame_service_set_state env st : respects frame (service_set_state env st).
Proof.
  intros c.
  pose proof (service_set_state_frame env st c) as (_ & _ & Hsy & Hrq & Hhs & _).
  by repeat split.
Qed.

Lemma frame_refl c : frame c c.
Proof. by repeat split. Qed.

Lemma frame_trans c c1 c2 : frame c c1 -> frame c1 c2 -> frame c c2.
Proof. intros (? & ? & ?) (? & ? & ?). repeat split; congruence. Qed.

Lemma frame_synced c c' :
  frame c c' -> service_is_synced c' = service_is_synced c.
Proof.
  intros (Hsy & Hrq & _). unfold service_is_synced. rewrite Hrq.
  apply is_synced_loop_ext. intros k _. by rewrite Hsy.
Qed.

Lemma lifecycle_frame env op c :
  is_lifecycle op = true -> frame c (exec (run env op) c).
Proof.
  intros Hop.
  assert (forall c0 c1, same_core c0 c1 -> frame c0 c1) as Hquiet.
  { intros c0 c1 (? & ? & ? & ?). by repeat split. }
  apply (respects_lifecycle frame frame_refl frame_trans Hquiet env
           (fun st _ => frame_service_set_state env st) op Hop).
Qed.

(** X1: a lifecycle operation or event handler, whatever its hooks do,
    leaves the sync statuses, the list of required keys and the registered
    handlers as they were, and with them the answer of
    [service_is_synced]. *)
Theorem lifecycle_keeps_tracker (env : Env) (op : Op) (c : Charm) :
  is_lifecycle op = true ->
  let c' := exec (run env op) c in
  syncs (stored c') = syncs (stored c) /\
  required_syncs c' = required_syncs c /\
  sync_handlers c' = sync_handlers c /\
  service_is_synced c' = service_is_synced c.
Proof.
  intros Hop c'.
  pose proof (lifecycle_frame env op c Hop) as Hfr. fold c' in Hfr.
  pose proof (frame_synced c c' Hfr) as Hsynced.
  destruct Hfr as (Hsy & Hrq & Hhs). by repeat split.
Qed.

(** The start event on a charm that waits for ["db"]. *)
Lemma lifecycle_keeps_tracker_witness :
  is_lifecycle Op_on_start = true /\
  required_syncs (exec (run base_env Op_on_start) needs_db)
    = required_syncs needs_db /\
  service_is_synced (exec (run base_env Op_on_start) needs_db)
    = service_is_synced needs_db.
Proof.
  assert (is_lifecycle Op_on_start = true) as Hop by reflexivity.
  split; [exact Hop |].
  destruct (lifecycle_keeps_tracker base_env Op_on_start needs_db Hop)
    as (_ & Hrq & _ & Hsynced).
  split; [exact Hrq | exact Hsynced].
Defined.

(** ** The state stays among the five *)

Lemma resolve_known current st synced :
  st ∈ LIFECYCLE_STATES -> resolve current st synced ∈ LIFECYCLE_STATES.
Proof.
  intros Hst%str_in_spec. apply str_in_spec. unfold resolve.
  destruct (str_in st ["broken"; "waiting"]).
  - change (String.eqb "started" "started") with true. cbv iota.
    destruct synced; [done |]. cbn [negb].
    by destruct (str_in current ["broken"; "started"]).
  - destruct (String.eqb st "started"); [| exact Hst].
    destruct synced; [exact Hst |]. cbn [negb].
    by destruct (str_in current ["broken"; "started"]).
Qed.

Lemma known_service_set_state env st :
  st ∈ LIFECYCLE_STATES -> respects keeps_known (service_set_state env st).
Proof.
  intros Hst c _.
  pose proof (service_set_state_frame env st c) as (-> & _).
  by apply resolve_known.
Qed.

(** ** The state stays among the five, continued *)

Lemma keeps_known_refl c : keeps_known c c.
Proof. by intros H. Qed.

Lemma keeps_known_trans c c1 c2 :
  keeps_known c c1 -> keeps_known c1 c2 -> keeps_known c c2.
Proof. unfold keeps_known. auto. Qed.

Lemma keeps_known_quiet c c' : same_core c c' -> keeps_known c c'.
Proof. intros (_ & Hst & _) H. by rewrite Hst. Qed.

Lemma known_service_set_sync env key status force :
  respects keeps_known (service_set_sync env key status force).
Proof.
  intros c Hknown.
  destruct (service_set_sync_cases env key status force c)
    as [(-> & _)|[(_ & -> & _)|(_ & h & e & _ & _ & _ & Hrun)]]; [done | |].
  - by apply resolve_known.
  - unfold exec. by rewrite Hrun.
Qed.

(** X2: an operation started in one of the five states ends in one of
    the five states, provided [service_set_state], when it is the
    operation, is asked for one of them. *)
Theorem state_stays_known (env : Env) (op : Op) (c : Charm) :
  (forall st, op = Op_service_set_state st -> st ∈ LIFECYCLE_STATES) ->
  state (stored c) ∈ LIFECYCLE_STATES ->
  state (stored (exec (run env op) c)) ∈ LIFECYCLE_STATES.
Proof.
  intros Harg.
  assert (forall st, st ∈ ["idle"; "enabled"; "started"] ->
            respects keeps_known (service_set_state env st)) as Hlit.
  { intros st Hst. apply known_service_set_state.
    apply str_in_spec. apply str_in_spec in Hst. unfold LIFECYCLE_STATES.
    simpl in *. repeat (destruct (String.eqb st _); [done |]). done. }
  destruct (is_lifecycle op) eqn:Hop.
  - apply (respects_lifecycle keeps_known keeps_known_refl keeps_known_trans
             keeps_known_quiet env Hlit op Hop).
  - assert ((exists st, op = Op_service_set_state st) \/
            forall st, op <> Op_service_set_state st) as [[st ->]|Hno].
    { destruct op; try (right; intros st'; discriminate). left. by eexists. }
    + apply known_service_set_state. by apply Harg.
    + apply (respects_tracker keeps_known keeps_known_refl keeps_known_trans
               keeps_known_quiet env (known_service_set_sync env));
        try done; by intros ? ? ?.
Qed.

(** Asking for ["started"] on a charm that waits for ["db"]. *)
Lemma state_stays_known_witness :
  state (stored needs_db) ∈ LIFECYCLE_STATES /\
  state (stored (exec (run base_env (Op_service_set_state "started"))
                   needs_db)) ∈ LIFECYCLE_STATES.
Proof.
  assert (state (stored needs_db) ∈ LIFECYCLE_STATES) as Hknown
    by apply list_elem_of_here.
  split; [exact Hknown |].
  apply (state_stays_known base_env (Op_service_set_state "started")
           needs_db); [| exact Hknown].
  intros st [= <-]. apply (bool_decide_unpack _). vm_compute. exact I.
Defined.

(** ** Enabling and disabling *)

Lemma enable_body_eq env force c :
  (let! st := gets service_get_state in
   if String.eqb st "idle" then
     try_except
       (call_hook HEnable (_service_enable env force) >>
        service_set_state env "enabled" >>
        service_set_updated env "enable" None)
       (fun _ => ret tt)
   else ret tt) c =
  (if String.eqb (state (stored c)) "idle"
   then passes (_service_enable env force c) else Normal tt,
   if String.eqb (state (stored c)) "idle" then
     match _service_enable env force c with
     | Some _ => record (HookCalled HEnable) c
     | None =>
         stamp env "enable"
           (exec (service_set_state env "enabled")
              (record (HookCalled HEnable) c))
     end
   else c).
Proof.
  unfold bind at 1, gets, service_get_state.
  destruct (String.eqb (state (stored c)) "idle"); [| reflexivity].
  unfold try_except, bind at 1, call_hook, passes.
  destruct (_service_enable env force c) as [e|];
    [by destruct (isinstance_Exception e) |].
  rewrite (bind_normal _ _ _ _ _ (service_set_state_eq env "enabled" _)).
  unfold exec. rewrite service_set_state_eq. reflexivity.
Qed.

Lemma service_enable_eq env force c :
  service_enable env force c =
  (if String.eqb (state (stored c)) "idle"
   then passes (_service_enable env force c) else Normal tt,
   settle env "enable"
     (if String.eqb (state (stored c)) "idle" then
        match _service_enable env force c with
        | Some _ => record (HookCalled HEnable) c
        | None =>
            stamp env "enable"
              (exec (service_set_state env "enabled")
                 (record (HookCalled HEnable) c))
        end
      else c)).
Proof.
  unfold service_enable. rewrite forced_update_eq. simpl.
  unfold result, exec. by rewrite enable_body_eq.
Qed.

Lemma disable_body_eq env force c :
  (let! st := gets service_get_state in
   if String.eqb st "enabled" then
     try_except
       (call_hook HDisable (_service_disable env force) >>
        service_set_state env "idle" >>
        service_set_updated env "disable" None)
       (fun _ => ret tt)
   else ret tt) c =
  (if String.eqb (state (stored c)) "enabled"
   then passes (_service_disable env force c) else Normal tt,
   if String.eqb (state (stored c)) "enabled" then
     match _service_disable env force c with
     | Some _ => record (HookCalled HDisable) c
     | None =>
         stamp env "disable"
           (exec (service_set_state env "idle")
              (record (HookCalled HDisable) c))
     end
   else c).
Proof.
  unfold bind at 1, gets, service_get_state.
  destruct (String.eqb (state (stored c)) "enabled"); [| reflexivity].
  unfold try_except, bind at 1, call_hook, passes.
  destruct (_service_disable env force c) as [e|];
    [by destruct (isinstance_Exception e) |].
  rewrite (bind_normal _ _ _ _ _ (service_set_state_eq env "idle" _)).
  unfold exec. rewrite service_set_state_eq. reflexivity.
Qed.

Lemma service_disable_eq env force c :
  service_disable env force c =
  (if String.eqb (state (stored c)) "enabled"
   then passes (_service_disable env force c) else Normal tt,
   settle env "disable"
     (if String.eqb (state (stored c)) "enabled" then
        match _service_disable env force c with
        | Some _ => record (HookCalled HDisable) c
        | None =>
            stamp env "disable"
              (exec (service_set_state env "idle")
                 (record (HookCalled HDisable) c))
        end
      else c)).
Proof.
  unfold service_disable. rewrite forced_update_eq. simpl.
  unfold result, exec. by rewrite disable_body_eq.
Qed.

(** A request for a state that is not ["started"], ["waiting"] or
    ["broken"] is taken as it is. *)
Lemma resolve_plain current st synced :
  str_in st ["broken"; "waiting"; "started"] = false ->
  resolve current st synced = st.
Proof.
  intros Hst. unfold resolve. simpl in *.
  destruct (String.eqb st "broken"); [done |].
  destruct (String.eqb st "waiting"); [done |].
  by destruct (String.eqb st "started").
Qed.

Lemma passes_ordinary r : ordinary r = true -> passes r = Normal tt.
Proof. destruct r as [e|]; [| done]. simpl. by intros ->. Qed.

Lemma passes_escapes r e :
  r = Some e -> isinstance_Exception e = false -> passes r = Raised e.
Proof. intros -> He. simpl. by rewrite He. Qed.

(** X3: [service_enable] always leaves [updated] stamped ["enable"] and
    the status projected, fired or not, returning or not.  It calls the
    enable hook only from ["idle"]: from any other state it returns and
    the state is kept; from ["idle"] the state becomes ["enabled"] when
    the hook returns and stays ["idle"] when the hook raises.  It returns
    when the hook returns or raises an instance of [Exception]; any other
    exception of the hook leaves [service_enable], after the stamp. *)
Theorem service_enable_spec (env : Env) (force : bool) (c : Charm) :
  let c' := exec (service_enable env force) c in
  (exists ts, updated (stored c') = Some (ts, "enable") /\
              unit_status c' = Some (project (stored c') (ts, "enable"))) /\
  (state (stored c) <> "idle" ->
   result (service_enable env force) c = Normal tt /\
   state (stored c') = state (stored c) /\
   hook_calls HEnable (trace c') = hook_calls HEnable (trace c)) /\
  (state (stored c) = "idle" ->
   hook_calls HEnable (trace c') = S (hook_calls HEnable (trace c)) /\
   state (stored c') =
     match _service_enable env force c with
     | Some _ => "idle"
     | None => "enabled"
     end /\
   (ordinary (_service_enable env force c) = true ->
    result (service_enable env force) c = Normal tt) /\
   (forall e, _service_enable env force c = Some e ->
      isinstance_Exception e = false ->
      result (service_enable env force) c = Raised e)).
Proof.
  intros c'. subst c'. unfold result, exec. rewrite service_enable_eq. simpl.
  split; [by eexists |]. split.
  - intros Hne. apply String.eqb_neq in Hne. by rewrite Hne.
  - intros Hidle. rewrite Hidle. simpl.
    split; [| split; [| split; [apply passes_ordinary | apply passes_escapes]]].
    + destruct (_service_enable env force c) as [e|].
      * simpl. autorewrite with calls. by rewrite bool_decide_eq_true_2.
      * pose proof (service_set_state_frame env "enabled"
                      (record (HookCalled HEnable) c))
          as (_ & _ & _ & _ & _ & Hh & _).
        simpl in *. autorewrite with calls. rewrite Hh.
        autorewrite with calls. by rewrite bool_decide_eq_true_2.
    + destruct (_service_enable env force c) as [e|]; [done |].
      pose proof (service_set_state_frame env "enabled"
                    (record (HookCalled HEnable) c))
        as (Hst & _).
      simpl in *. rewrite Hst. by apply resolve_plain.
Qed.

(** Enabling a fresh charm. *)
Lemma service_enable_spec_witness :
  state (stored fresh) = "idle" /\
  state (stored (exec (service_enable base_env false) fresh)) = "enabled".
Proof.
  assert (state (stored fresh) = "idle") as Hidle by reflexivity.
  split; [exact Hidle |].
  destruct (service_enable_spec base_env false fresh) as (_ & _ & Hfires).
  destruct (Hfires Hidle) as (_ & Hst & _). exact Hst.
Defined.

(** X4: [service_disable] always leaves [updated] stamped ["disable"]
    and the status projected, fired or not, returning or not.  It calls
    the disable hook only from ["enabled"]: from any other state it
    returns and the state is kept; from ["enabled"] the state becomes
    ["idle"] when the hook returns and stays ["enabled"] when the hook
    raises.  It returns when the hook returns or raises an instance of
    [Exception]; any other exception of the hook leaves
    [service_disable], after the stamp. *)
Theorem service_disable_spec (env : Env) (force : bool) (c : Charm) :
  let c' := exec (service_disable env force) c in
  (exists ts, updated (stored c') = Some (ts, "disable") /\
              unit_status c' = Some (project (stored c') (ts, "disable"))) /\
  (state (stored c) <> "enabled" ->
   result (service_disable env force) c = Normal tt /\
   state (stored c') = state (stored c) /\
   hook_calls HDisable (trace c') = hook_calls HDisable (trace c)) /\
  (state (stored c) = "enabled" ->
   hook_calls HDisable (trace c') = S (hook_calls HDisable (trace c)) /\
   state (stored c') =
     match _service_disable env force c with
     | Some _ => "enabled"
     | None => "idle"
     end /\
   (ordinary (_service_disable env force c) = true ->
    result (service_disable env force) c = Normal tt) /\
   (forall e, _service_disable env force c = Some e ->
      isinstance_Exception e = false ->
      result (service_disable env force) c = Raised e)).
Proof.
  intros c'. subst c'. unfold result, exec. rewrite service_disable_eq. simpl.
  split; [by eexists |]. split.
  - intros Hne. apply String.eqb_neq in Hne. by rewrite Hne.
  - intros Hen. rewrite Hen. simpl.
    split; [| split; [| split; [apply passes_ordinary | apply passes_escapes]]].
    + destruct (_service_disable env force c) as [e|].
      * simpl. autorewrite with calls. by rewrite bool_decide_eq_true_2.
      * pose proof (service_set_state_frame env "idle"
                      (record (HookCalled HDisable) c))
          as (_ & _ & _ & _ & _ & Hh & _).
        simpl in *. autorewrite with calls. rewrite Hh.
        autorewrite with calls. by rewrite bool_decide_eq_true_2.
    + destruct (_service_disable env force c) as [e|]; [done |].
      pose proof (service_set_state_frame env "idle"
                    (record (HookCalled HDisable) c))
        as (Hst & _).
      simpl in *. rewrite Hst. by apply resolve_plain.
Qed.

(** Disabling an enabled charm. *)
Lemma service_disable_spec_witness :
  state (stored (fresh_in "enabled")) = "enabled" /\
  state (stored (exec (service_disable base_env false) (fresh_in "enabled")))
    = "idle".
Proof.
  assert (state (stored (fresh_in "enabled")) = "enabled") as Hen
    by reflexivity.
  split; [exact Hen |].
  destruct (service_disable_spec base_env false (fresh_in "enabled"))
    as (_ & _ & Hfires).
  destruct (Hfires Hen) as (_ & Hst & _). exact Hst.
Defined.

(** ** Stopping, starting, restarting *)

Lemma service_stop_skips env force c :
  str_in (state (stored c)) STARTED_STATES = false ->
  service_stop env force c = (Normal tt, c).
Proof.
  intros Hout. unfold service_stop, bind, gets, service_get_state.
  by rewrite Hout.
Qed.

Lemma service_start_skips env c :
  str_in (state (stored c)) PRESTARTED_STATES = false ->
  service_start env c = (Normal tt, c).
Proof.
  intros Hout. unfold service_start, bind, gets, service_get_state.
  by rewrite Hout.
Qed.

(** The charm a successful [service_stop] leaves. *)
Lemma service_stop_done env force c :
  str_in (state (stored c)) STARTED_STATES = true ->
  is_Some (updated (stored c)) ->
  _service_stop env force c = None ->
  let c' := exec (service_stop env force) c in
  state (stored c') = "enabled" /\
  frame c c' /\
  (forall h, hook_calls h (trace c') =
     if bool_decide (HStop = h) then S (hook_calls h (trace c))
     else hook_calls h (trace c)) /\
  (exists ts, updated (stored c') = Some (ts, "stop") /\
              unit_status c' = Some (project (stored c') (ts, "stop"))).
Proof.
  intros Hin [u Hu] Hhook c'.
  assert (c' = settle env "stop"
                 (exec (service_set_state env "enabled")
                    (record (HookCalled HStop) c))) as ->.
  { subst c'. unfold exec at 1.
    by rewrite (service_stop_eq env force c u Hin Hu
                  (ordinary_returns _ Hhook)), Hhook. }
  pose proof (service_set_state_frame env "enabled"
                (record (HookCalled HStop) c))
    as (Hst & _ & Hsy & Hrq & Hhs & Hh & _).
  simpl in *. rewrite Hst. split; [by apply resolve_plain |].
  split; [by repeat split |]. split; [| by eexists].
  intros h. autorewrite with calls. rewrite Hh. by autorewrite with calls.
Qed.

(** The state a [service_start] that fires leaves when its start hook
    returns. *)
Lemma service_start_done env c :
  str_in (state (stored c)) PRESTARTED_STATES = true ->
  is_Some (updated (stored c)) ->
  ordinary (_service_sync env false c) = true ->
  _service_start env (exec (service_sync env false) c) = None ->
  let c' := exec (service_start env) c in
  state (stored c') =
    resolve (state (stored c)) "started" (service_is_synced c) /\
  frame c c' /\
  (forall h, hook_calls h (trace c') =
     if bool_decide (h = HSync) || bool_decide (h = HStart)
     then S (hook_calls h (trace c)) else hook_calls h (trace c)) /\
  (exists ts, updated (stored c') = Some (ts, "start") /\
              unit_status c' = Some (project (stored c') (ts, "start"))).
Proof.
  intros Hin Hu Hsync0 Hhook c'.
  assert (c' = settle env "start"
                 (exec (service_set_state env "started")
                    (record (HookCalled HStart)
                       (exec (service_sync env false) c)))) as ->.
  { subst c'. unfold exec at 1.
    rewrite (service_start_eq env c Hin Hu Hsync0
               (ordinary_returns _ Hhook)).
    cbv zeta. by rewrite Hhook. }
  pose proof (service_sync_frame env false c Hu)
    as (Hst & Hsy & Hrq & Hhs & Hother & Hsync).
  rewrite Hin in Hsync. simpl in Hsync.
  set (c1 := exec (service_sync env false) c) in *.
  pose proof (service_set_state_frame env "started"
                (record (HookCalled HStart) c1))
    as (Hst2 & _ & Hsy2 & Hrq2 & Hhs2 & Hh2 & _).
  simpl in *.
  assert (service_is_synced (record (HookCalled HStart) c1)
          = service_is_synced c) as Hsynced.
  { unfold service_is_synced. simpl. rewrite Hrq.
    apply is_synced_loop_ext. intros k _. simpl. by rewrite Hsy. }
  split; [simpl; by rewrite Hst2, Hst, Hsynced |].
  split; [unfold frame; simpl; by rewrite Hsy2, Hrq2, Hhs2 |].
  split; [| by eexists].
  intros h. simpl. autorewrite with calls. rewrite Hh2.
  autorewrite with calls.
  destruct h; simpl; try (rewrite Hother by done; done); done.
Qed.

Lemma service_enable_done env force c :
  state (stored c) = "idle" ->
  _service_enable env force c = None ->
  let c' := exec (service_enable env force) c in
  state (stored c') = "enabled" /\
  frame c c' /\
  is_Some (updated (stored c')) /\
  (forall h, hook_calls h (trace c') =
     if bool_decide (HEnable = h) then S (hook_calls h (trace c))
     else hook_calls h (trace c)).
Proof.
  intros Hidle Hhook c'. subst c'. unfold exec at 1 2 3 4.
  rewrite service_enable_eq, Hidle, Hhook. simpl.
  pose proof (service_set_state_frame env "enabled"
                (record (HookCalled HEnable) c))
    as (Hst & _ & Hsy & Hrq & Hhs & Hh & _).
  simpl in *. split; [rewrite Hst; by apply resolve_plain |].
  split; [by repeat split |]. split; [by eexists |].
  intros h. autorewrite with calls. rewrite Hh. by autorewrite with calls.
Qed.

Lemma service_disable_done env force c :
  state (stored c) = "enabled" ->
  _service_disable env force c = None ->
  let c' := exec (service_disable env force) c in
  state (stored c') = "idle" /\
  frame c c' /\
  is_Some (updated (stored c')) /\
  (forall h, hook_calls h (trace c') =
     if bool_decide (HDisable = h) then S (hook_calls h (trace c))
     else hook_calls h (trace c)).
Proof.
  intros Hen Hhook c'. subst c'. unfold exec at 1 2 3 4.
  rewrite service_disable_eq, Hen, Hhook. simpl.
  pose proof (service_set_state_frame env "idle"
                (record (HookCalled HDisable) c))
    as (Hst & _ & Hsy & Hrq & Hhs & Hh & _).
  simpl in *. split; [rewrite Hst; by apply resolve_plain |].
  split; [by repeat split |]. split; [by eexists |].
  intros h. autorewrite with calls. rewrite Hh. by autorewrite with calls.
Qed.

(** X5: [service_stop] does nothing at all unless [service_is_running],
    that is, from ["idle"] and ["enabled"].  From a running, stamped charm
    whose stop hook returns, it calls the hook once and leaves the charm
    ["enabled"], no longer running, stamped ["stop"], with the status
    projected. *)
Theorem service_stop_spec (env : Env) (force : bool) (c : Charm) :
  (service_is_running c = false ->
   service_stop env force c = (Normal tt, c)) /\
  (service_is_running c = true ->
   is_Some (updated (stored c)) ->
   _service_stop env force c = None ->
   let c' := exec (service_stop env force) c in
   state (stored c') = "enabled" /\
   service_is_running c' = false /\
   hook_calls HStop (trace c') = S (hook_calls HStop (trace c)) /\
   exists ts, updated (stored c') = Some (ts, "stop") /\
              unit_status c' = Some (project (stored c') (ts, "stop"))).
Proof.
  split; [apply service_stop_skips |].
  intros Hrun Hu Hhook c'.
  destruct (service_stop_done env force c Hrun Hu Hhook)
    as (Hst & _ & Hh & Hup).
  fold c' in Hst, Hh, Hup. split; [exact Hst |].
  split; [unfold service_is_running, service_get_state; by rewrite Hst |].
  split; [| exact Hup]. rewrite Hh. by rewrite bool_decide_eq_true_2.
Qed.

(** Stopping a started charm. *)
Lemma service_stop_spec_witness :
  service_is_running (fresh_in "started") = true /\
  state (stored (exec (service_stop base_env false) (fresh_in "started")))
    = "enabled".
Proof.
  assert (service_is_running (fresh_in "started") = true) as Hrun
    by reflexivity.
  split; [exact Hrun |].
  destruct (service_stop_spec base_env false (fresh_in "started"))
    as [_ Hfires].
  destruct (Hfires Hrun) as (Hst & _); [by eexists | reflexivity |].
  exact Hst.
Defined.

(** X6: when [service_start] fires on a stamped charm, the sync hook
    returns or raises an instance of [Exception] and the start hook
    returns, the state it leaves is ["started"] if the charm is synced;
    if it is not, the state is ["broken"] from ["broken"] and ["waiting"]
    from ["enabled"] and ["waiting"].  Being synced is not changed by
    starting, whatever the hooks do. *)
Theorem service_start_outcome (env : Env) (c : Charm) :
  state (stored c) ∈ ["enabled"; "waiting"; "broken"] ->
  is_Some (updated (stored c)) ->
  _service_start env (exec (service_sync env false) c) = None ->
  let c' := exec (service_start env) c in
  (ordinary (_service_sync env false c) = true ->
   state (stored c') =
     (if service_is_synced c then "started"
      else if String.eqb (state (stored c)) "broken" then "broken"
           else "waiting")) /\
  service_is_synced c' = service_is_synced c.
Proof.
  intros Hin Hu Hhook c'.
  assert (str_in (state (stored c)) PRESTARTED_STATES = true) as Hin'
    by by apply str_in_spec.
  split.
  - intros Hsync.
    destruct (service_start_done env c Hin' Hu Hsync Hhook) as (Hst & _).
    fold c' in Hst. rewrite Hst. unfold resolve. simpl.
    destruct (service_is_synced c); simpl; [done |].
    repeat (apply elem_of_cons in Hin as [->|Hin]); try done.
    by apply elem_of_nil in Hin.
  - apply frame_synced. apply (lifecycle_frame env Op_service_start c).
    reflexivity.
Qed.

(** Starting an enabled charm that waits for ["db"]. *)
Lemma service_start_outcome_witness :
  state (stored enabled_needs_db) ∈ ["enabled"; "waiting"; "broken"] /\
  service_is_synced enabled_needs_db = false /\
  state (stored (exec (service_start base_env) enabled_needs_db))
    = "waiting".
Proof.
  assert (state (stored enabled_needs_db) ∈ ["enabled"; "waiting"; "broken"])
    as Hin by apply list_elem_of_here.
  split; [exact Hin |]. split; [reflexivity |].
  destruct (service_start_outcome base_env enabled_needs_db Hin) as [Hst _];
    [by eexists | reflexivity |].
  apply Hst. reflexivity.
Defined.

(** ** The start and stop events *)

Lemma exec_seq {A B} (m : M A) (k : M B) c a :
  result m c = Normal a -> exec (m >> k) c = exec k (exec m c).
Proof.
  unfold exec, result, bind. destruct (m c) as [r c1]. simpl.
  by intros ->.
Qed.

Lemma result_seq {A B} (m : M A) (k : M B) c a :
  result m c = Normal a -> result (m >> k) c = result k (exec m c).
Proof.
  unfold exec, result, bind. destruct (m c) as [r c1]. simpl.
  by intros ->.
Qed.

Lemma exec_raised {A B} (m : M A) (k : M B) c e :
  result m c = Raised e ->
  exec (m >> k) c = exec m c /\ result (m >> k) c = Raised e.
Proof.
  unfold exec, result, bind. destruct (m c) as [r c1]. simpl.
  by intros ->.
Qed.

Lemma service_enable_result env force c :
  ordinary (_service_enable env force c) = true ->
  result (service_enable env force) c = Normal tt.
Proof.
  intros Hord. unfold result. rewrite service_enable_eq. simpl.
  rewrite passes_ordinary by done. by destruct (String.eqb _ _).
Qed.

Lemma service_disable_result env force c :
  ordinary (_service_disable env force c) = true ->
  result (service_disable env force) c = Normal tt.
Proof.
  intros Hord. unfold result. rewrite service_disable_eq. simpl.
  rewrite passes_ordinary by done. by destruct (String.eqb _ _).
Qed.

Lemma service_stop_result env force c :
  is_Some (updated (stored c)) ->
  ordinary (_service_stop env force c) = true ->
  result (service_stop env force) c = Normal tt.
Proof.
  intros [u Hu] Hord. unfold result.
  destruct (str_in (state (stored c)) STARTED_STATES) eqn:Hin.
  - by rewrite (service_stop_eq env force c u).
  - by rewrite service_stop_skips.
Qed.

(** The hook calls of a [service_start] that fires, whatever the hooks
    do: the sync hook once, the start hook at most once, no other. *)
Lemma service_start_hooks env c :
  str_in (state (stored c)) PRESTARTED_STATES = true ->
  is_Some (updated (stored c)) ->
  let c' := exec (service_start env) c in
  hook_calls HSync (trace c') = S (hook_calls HSync (trace c)) /\
  (forall h, h <> HSync -> h <> HStart ->
     hook_calls h (trace c') = hook_calls h (trace c)).
Proof.
  intros Hin Hu c'.
  pose proof (service_sync_frame env false c Hu) as
    (_ & _ & _ & _ & Hother & Hsync).
  pose proof (service_sync_keeps_stamp env false c Hu) as [u1 Hu1].
  rewrite Hin in Hsync. simpl in Hsync.
  set (c1 := exec (service_sync env false) c) in *.
  pose proof (service_set_state_frame env "started"
                (record (HookCalled HStart) c1)) as
    (_ & _ & _ & _ & _ & Hh2 & _).
  simpl in Hh2.
  pose proof (service_start_fires env c Hin Hu) as Heq.
  cbv zeta in Heq. fold c1 in Heq.
  assert (exec service_update_status (record (HookCalled HStart) c1)
          = show u1 (record (HookCalled HStart) c1)) as Hshow
    by (unfold exec; by rewrite (service_update_status_eq _ u1)).
  rewrite Hshow in Heq. subst c'. unfold exec. rewrite Heq.
  destruct (ordinary (_service_sync env false c)).
  - destruct (_service_start env c1) as [e|].
    + destruct (isinstance_Exception e); simpl; autorewrite with calls;
        rewrite Hsync; (split; [done |]); intros h H1 H2;
        autorewrite with calls; rewrite bool_decide_eq_false_2 by done;
        by apply Hother.
    + simpl. autorewrite with calls. rewrite !Hh2. autorewrite with calls.
      rewrite Hsync. split; [done |]. intros h H1 H2.
      autorewrite with calls. rewrite Hh2. autorewrite with calls.
      rewrite bool_decide_eq_false_2 by done. by apply Hother.
  - simpl. split; [exact Hsync |]. intros h H1 _. by apply Hother.
Qed.

Lemma service_stop_stamped env force c :
  is_Some (updated (stored c)) ->
  is_Some (updated (stored (exec (service_stop env force) c))).
Proof.
  intros Hu. eapply accounted_stamped; [| exact Hu].
  apply accounts_service_stop.
Qed.

(** X7: the start event on an idle charm.  When the enable hook and the
    start hook return and the sync hook returns or raises an instance of
    [Exception], the enable, sync and start hooks are called once each and
    the charm ends ["started"] if it is synced and ["waiting"] if it is
    not.  When the enable hook raises, the charm stays ["idle"] and
    neither the sync hook nor the start hook is called; the handler still
    returns when the exception is an instance of [Exception], and lets it
    out when it is not. *)
Theorem on_start_spec (env : Env) (c : Charm) :
  state (stored c) = "idle" ->
  (_service_enable env false c = None ->
   (forall c1, ordinary (_service_sync env false c1) = true) ->
   (forall c1, _service_start env c1 = None) ->
   let c' := exec (_on_start env) c in
   state (stored c') = (if service_is_synced c then "started" else "waiting") /\
   hook_calls HEnable (trace c') = S (hook_calls HEnable (trace c)) /\
   hook_calls HSync (trace c') = S (hook_calls HSync (trace c)) /\
   hook_calls HStart (trace c') = S (hook_calls HStart (trace c)) /\
   exists ts, updated (stored c') = Some (ts, "start") /\
              unit_status c' = Some (project (stored c') (ts, "start"))) /\
  (forall e, _service_enable env false c = Some e ->
   let c' := exec (_on_start env) c in
   result (_on_start env) c =
     (if isinstance_Exception e then Normal tt else Raised e) /\
   state (stored c') = "idle" /\
   hook_calls HSync (trace c') = hook_calls HSync (trace c) /\
   hook_calls HStart (trace c') = hook_calls HStart (trace c)).
Proof.
  intros Hidle. split.
  - intros Hen Hsync Hstart c'.
    destruct (service_enable_done env false c Hidle Hen)
      as (Hst1 & Hfr1 & Hu1 & Hh1).
    set (c1 := exec (service_enable env false) c) in *.
    assert (c' = exec (service_start env) c1) as ->.
    { subst c' c1. unfold _on_start.
      apply (exec_seq _ _ _ tt), service_enable_result.
      by rewrite Hen. }
    assert (str_in (state (stored c1)) PRESTARTED_STATES = true) as Hin
      by by rewrite Hst1.
    destruct (service_start_done env c1 Hin Hu1 (Hsync _) (Hstart _))
      as (Hst & _ & Hh & Hup).
    rewrite Hst, Hst1, (frame_synced c c1 Hfr1), !Hh, !Hh1.
    split; [unfold resolve; simpl; by destruct (service_is_synced c) |].
    by repeat split.
  - intros e Hen c'. subst c'. unfold _on_start.
    assert (service_enable env false c
            = (if isinstance_Exception e then Normal tt else Raised e,
               settle env "enable" (record (HookCalled HEnable) c))) as Heq.
    { by rewrite service_enable_eq, Hidle, Hen. }
    assert (exec (service_enable env false) c
            = settle env "enable" (record (HookCalled HEnable) c)) as Hexec
      by (unfold exec; by rewrite Heq).
    assert (result (service_enable env false) c
            = if isinstance_Exception e then Normal tt else Raised e)
      as Hres by (unfold result; by rewrite Heq).
    destruct (isinstance_Exception e).
    + rewrite (result_seq _ _ _ tt Hres), (exec_seq _ _ _ tt Hres), Hexec.
      unfold result, exec. rewrite service_start_skips.
      * simpl. autorewrite with calls. by rewrite Hidle.
      * simpl. by rewrite Hidle.
    + destruct (exec_raised (service_enable env false) (service_start env)
                  c e Hres) as [-> ->].
      rewrite Hexec. simpl. autorewrite with calls. by rewrite Hidle.
Qed.

(** The start event on a charm that waits for ["db"]. *)
Lemma on_start_spec_witness :
  state (stored needs_db) = "idle" /\
  service_is_synced needs_db = false /\
  state (stored (exec (_on_start base_env) needs_db)) = "waiting".
Proof.
  assert (state (stored needs_db) = "idle") as Hidle by reflexivity.
  split; [exact Hidle |]. split; [reflexivity |].
  destruct (on_start_spec base_env needs_db Hidle) as [Hok _].
  destruct Hok as (Hst & _); [reflexivity | by intros c1 | by intros c1 |].
  exact Hst.
Defined.

(** X8: the stop event, on a stamped charm in any of the five states and
    with stop and disable hooks that return, returns and leaves the charm
    ["idle"], with the status projected from the final record; being
    synced is not changed. *)
Theorem on_stop_spec (env : Env) (c : Charm) :
  state (stored c) ∈ LIFECYCLE_STATES ->
  is_Some (updated (stored c)) ->
  (forall c1, _service_stop env false c1 = None) ->
  (forall c1, _service_disable env false c1 = None) ->
  let c' := exec (_on_stop env) c in
  result (_on_stop env) c = Normal tt /\
  state (stored c') = "idle" /\
  service_is_synced c' = service_is_synced c /\
  exists u, updated (stored c') = Some u /\
            unit_status c' = Some (project (stored c') u).
Proof.
  intros Hknown Hu Hstop Hdis c'.
  pose proof (service_stop_result env false c Hu
                (ordinary_returns _ (Hstop c))) as Hr1.
  set (c1 := exec (service_stop env false) c) in *.
  assert (state (stored c1) ∈ ["idle"; "enabled"] /\ frame c c1 /\
          is_Some (updated (stored c1))) as (Hst1 & Hfr1 & Hu1).
  { destruct (str_in (state (stored c)) STARTED_STATES) eqn:Hin.
    - destruct (service_stop_done env false c Hin Hu (Hstop _))
        as (Hst & Hfr & _ & (ts & Hup & _)).
      fold c1 in Hst, Hfr, Hup. rewrite Hst, Hup.
      split; [apply list_elem_of_further, list_elem_of_here |].
      split; [done | by eexists].
    - assert (c1 = c) as ->
        by (subst c1; unfold exec; by rewrite service_stop_skips).
      split; [| split; [apply frame_refl | done]].
      apply str_in_spec. apply str_in_spec in Hknown.
      unfold LIFECYCLE_STATES, STARTED_STATES in *. simpl in *.
      repeat match goal with
             | |- context [String.eqb ?a ?b] =>
                 destruct (String.eqb a b); try done
             end. congruence. }
  pose proof (service_disable_result env false c1
                (ordinary_returns _ (Hdis c1))) as Hr2.
  set (c2 := exec (service_disable env false) c1) in *.
  assert (state (stored c2) = "idle" /\ frame c1 c2 /\
          is_Some (updated (stored c2))) as (Hst2 & Hfr2 & [u2 Hu2]).
  { apply elem_of_cons in Hst1 as [Hidle|Hen].
    - subst c2. unfold exec. rewrite service_disable_eq, Hidle. simpl.
      rewrite Hidle. split; [done |]. split; [by repeat split | by eexists].
    - apply elem_of_cons in Hen as [Hen|Hen]; [| by apply elem_of_nil in Hen].
      destruct (service_disable_done env false c1 Hen (Hdis _))
        as (Hst & Hfr & Hup & _). fold c2 in Hst, Hfr, Hup.
      split; [exact Hst |]. split; [exact Hfr | exact Hup]. }
  assert (_on_stop env c = (Normal tt, show u2 c2)) as Heq.
  { unfold _on_stop.
    assert (forall {A} (m : M A) c0, m c0 = (result m c0, exec m c0)) as Hsplit
      by (intros A m c0; unfold result, exec; by destruct (m c0)).
    rewrite (bind_normal _ _ c tt c1)
      by (rewrite (Hsplit _ (service_stop env false) c), Hr1; done).
    rewrite (bind_normal _ _ c1 tt c2)
      by (rewrite (Hsplit _ (service_disable env false) c1), Hr2; done).
    by apply service_update_status_eq. }
  subst c'. unfold result, exec. rewrite Heq. simpl.
  split; [done |]. split; [exact Hst2 |]. split.
  - transitivity (service_is_synced c2); [| by apply frame_synced, (frame_trans c c1 c2)].
    apply frame_synced. by repeat split.
  - exists u2. by split.
Qed.

(** The stop event on a broken charm. *)
Lemma on_stop_spec_witness :
  state (stored (fresh_in "broken")) ∈ LIFECYCLE_STATES /\
  state (stored (exec (_on_stop base_env) (fresh_in "broken"))) = "idle".
Proof.
  assert (state (stored (fresh_in "broken")) ∈ LIFECYCLE_STATES) as Hknown.
  { apply (bool_decide_unpack _). vm_compute. exact I. }
  split; [exact Hknown |].
  destruct (on_stop_spec base_env (fresh_in "broken") Hknown)
    as (_ & Hst & _); [by eexists | by intros c1 | by intros c1 |].
  exact Hst.
Defined.

(** X9: [service_restart] does nothing on an idle charm.  On a stamped
    charm that is ["started"], ["waiting"] or ["broken"], with stop and
    start hooks that return, it calls the stop hook and the sync hook
    once each; and when the sync hook returns or raises an instance of
    [Exception], it calls the start hook once and leaves the charm
    ["started"] if it is synced and ["waiting"] if it is not: a restart
    clears ["broken"]. *)
Theorem service_restart_spec (env : Env) (force sync : bool) (c : Charm) :
  (state (stored c) = "idle" ->
   service_restart env force sync c = (Normal tt, c)) /\
  (state (stored c) ∈ ["started"; "waiting"; "broken"] ->
   is_Some (updated (stored c)) ->
   _service_stop env force c = None ->
   (forall c1, _service_start env c1 = None) ->
   let c' := exec (service_restart env force sync) c in
   hook_calls HStop (trace c') = S (hook_calls HStop (trace c)) /\
   hook_calls HSync (trace c') = S (hook_calls HSync (trace c)) /\
   (ordinary (_service_sync env false (exec (service_stop env force) c))
      = true ->
    state (stored c') =
      (if service_is_synced c then "started" else "waiting") /\
    hook_calls HStart (trace c') = S (hook_calls HStart (trace c)))).
Proof.
  split.
  - intros Hidle. unfold service_restart.
    rewrite (bind_normal _ _ c tt c)
      by (apply service_stop_skips; by rewrite Hidle).
    apply service_start_skips. by rewrite Hidle.
  - intros Hin%str_in_spec Hu Hstop Hstart c'.
    destruct (service_stop_done env force c Hin Hu Hstop)
      as (Hst1 & Hfr1 & Hh1 & (ts & Hup1 & _)).
    set (c1 := exec (service_stop env force) c) in *.
    assert (c' = exec (service_start env) c1) as ->.
    { subst c' c1. unfold service_restart.
      apply (exec_seq _ _ _ tt), service_stop_result; [exact Hu |].
      by rewrite Hstop. }
    assert (str_in (state (stored c1)) PRESTARTED_STATES = true) as Hin1
      by by rewrite Hst1.
    destruct (service_start_hooks env c1 Hin1 (mk_is_Some _ _ Hup1))
      as (Hsync1 & Hother1).
    split; [rewrite (Hother1 HStop) by done; by rewrite Hh1 |].
    split; [rewrite Hsync1; by rewrite Hh1 |].
    intros Hsync.
    destruct (service_start_done env c1 Hin1 (mk_is_Some _ _ Hup1) Hsync
                (Hstart _)) as (Hst & _ & Hh & _).
    rewrite Hst, Hst1, (frame_synced c c1 Hfr1), !Hh, !Hh1.
    split; [unfold resolve; simpl; by destruct (service_is_synced c) |].
    done.
Qed.

(** Restarting a broken charm that requires nothing. *)
Lemma service_restart_spec_witness :
  state (stored (fresh_in "broken")) ∈ ["started"; "waiting"; "broken"] /\
  state (stored (exec (service_restart base_env false false)
                   (fresh_in "broken"))) = "started".
Proof.
  assert (state (stored (fresh_in "broken"))
            ∈ ["started"; "waiting"; "broken"]) as Hin.
  { apply (bool_decide_unpack _). vm_compute. exact I. }
  split; [exact Hin |].
  destruct (service_restart_spec base_env false false (fresh_in "broken"))
    as [_ Hfires].
  destruct (Hfires Hin) as (_ & _ & Hgoes);
    [by eexists | reflexivity | by intros c1 |].
  destruct Hgoes as [Hst _]; [reflexivity |]. exact Hst.
Defined.

(** [service_stop] once it fires, with every way out. *)
Lemma service_stop_fires env force c u :
  str_in (state (stored c)) STARTED_STATES = true ->
  updated (stored c) = Some u ->
  service_stop env force c =
  match _service_stop env force c with
  | Some e =>
      if isinstance_Exception e
      then (Normal tt, show u (record (HookCalled HStop) c))
      else (Raised e, record (HookCalled HStop) c)
  | None =>
      (Normal tt,
       settle env "stop"
         (exec (service_set_state env "enabled")
            (record (HookCalled HStop) c)))
  end.
Proof.
  intros Hst Hu.
  destruct (_service_stop env force c) as [e|] eqn:Hhook.
  - destruct (isinstance_Exception e) eqn:He.
    + rewrite (service_stop_eq env force c u Hst Hu), Hhook; [done |].
      by rewrite Hhook.
    + unfold service_stop, bind at 1, gets, service_get_state.
      rewrite Hst. cbv iota beta.
      unfold bind at 1, try_except, bind at 1, call_hook.
      by rewrite Hhook, He.
  - rewrite (service_stop_eq env force c u Hst Hu), Hhook; [done |].
    by rewrite Hhook.
Qed.

(** X10: the restart action passes its [force] and [sync] parameters to
    [service_restart] one position early, so [service_stop] is forced by
    [sync], never by [force].  On a started, stamped charm whose stop hook
    raises unless it is forced, the action with any [force] and a [sync]
    that is not [True] calls the stop hook once and the start hook not at
    all, and leaves the charm ["started"], stamped ["restart-action"]; it
    returns when the exception of the stop hook is an instance of
    [Exception], and lets it out when it is not. *)
Theorem restart_action_force_ignored (env : Env) (event : Event) (c : Charm)
    (e : exn) :
  state (stored c) = "started" ->
  is_Some (updated (stored c)) ->
  param_sync event <> Some true ->
  _service_stop env false c = Some e ->
  let c' := exec (_on_service_restart_action env event) c in
  result (_on_service_restart_action env event) c =
    (if isinstance_Exception e then Normal tt else Raised e) /\
  state (stored c') = "started" /\
  hook_calls HStop (trace c') = S (hook_calls HStop (trace c)) /\
  hook_calls HStart (trace c') = hook_calls HStart (trace c) /\
  exists ts, updated (stored c') = Some (ts, "restart-action").
Proof.
  intros Hst [u Hu] Hsync Hhook.
  assert (_on_service_restart_action env event c =
          (if isinstance_Exception e then Normal tt else Raised e,
           settle env "restart-action"
             (if isinstance_Exception e
              then show u (record (HookCalled HStop) c)
              else record (HookCalled HStop) c))) as Heq.
  { unfold _on_service_restart_action. rewrite forced_update_eq.
    assert ((let '(_, sync) :=
               match param_force event, param_sync event with
               | Some f, Some s => (f, s)
               | _, _ => (false, false)
               end in service_restart env sync false)
            = service_restart env false false) as ->.
    { destruct (param_force event) as [f|], (param_sync event) as [[|]|];
        try reflexivity; by destruct Hsync. }
    assert (service_restart env false false c =
            (if isinstance_Exception e then Normal tt else Raised e,
             if isinstance_Exception e
             then show u (record (HookCalled HStop) c)
             else record (HookCalled HStop) c)) as Hr.
    { unfold service_restart, bind.
      rewrite (service_stop_fires env false c u), Hhook;
        [| by rewrite Hst | exact Hu].
      destruct (isinstance_Exception e); [| done].
      apply service_start_skips. simpl. by rewrite Hst. }
    unfold result, exec. by rewrite Hr. }
  intros c'. subst c'. unfold result, exec. rewrite Heq.
  destruct (isinstance_Exception e); simpl;
    (split; [reflexivity |]); (split; [exact Hst |]);
    autorewrite with calls;
    (split; [reflexivity |]); (split; [reflexivity |]); by eexists.
Qed.

(** [force=True sync=False] against a stop hook that wants to be forced. *)
Lemma restart_action_force_ignored_witness :
  state (stored (fresh_in "started")) = "started" /\
  param_sync forced_restart <> Some true /\
  _service_stop stubborn_env false (fresh_in "started") = Some boom /\
  state (stored (exec (_on_service_restart_action stubborn_env forced_restart)
                   (fresh_in "started"))) = "started".
Proof.
  assert (state (stored (fresh_in "started")) = "started") as Hst
    by reflexivity.
  assert (param_sync forced_restart <> Some true) as Hsync by by intros [=].
  assert (_service_stop stubborn_env false (fresh_in "started") = Some boom)
    as Hhook by reflexivity.
  split; [exact Hst |]. split; [exact Hsync |]. split; [exact Hhook |].
  destruct (restart_action_force_ignored stubborn_env forced_restart
              (fresh_in "started") boom Hst) as (_ & Hkept & _);
    [by eexists | exact Hsync | exact Hhook |].
  exact Hkept.
Defined.

(** ** The sync tracker, key by key *)

Lemma effective_bool current b force :
  effective current (PyBool b) force = (PyBool b, force).
Proof. reflexivity. Qed.

Lemma effective_none current force :
  effective current PyNone force = (current, true).
Proof. reflexivity. Qed.

Lemma synced_after_write c key v :
  syncs (stored c) !! key = Some v ->
  service_is_synced
    (with_stored (fun s => set_syncs (<[key := v]> (syncs s)) s) c)
  = service_is_synced c.
Proof.
  intros Hk. unfold service_is_synced. simpl.
  apply is_synced_loop_ext. intros k _. simpl. by rewrite insert_id.
Qed.

(** What a write of [True] or [False] leaves in the tracker, whatever
    the handler does. *)
Lemma service_set_sync_writes env key (b force : bool) c :
  let c' := exec (service_set_sync env key (PyBool b) force) c in
  syncs (stored c') = <[key := PyBool b]> (syncs (stored c)) /\
  required_syncs c' = required_syncs c /\
  sync_handlers c' = sync_handlers c.
Proof.
  intros c'.
  destruct (service_set_sync_cases env key (PyBool b) force c)
    as [(Heq & Hk & _)|[(Hsy & _ & _ & Hrq & Hhs & _)|
                        (_ & h & e & _ & _ & _ & Hrun)]].
  - fold c' in Heq. rewrite Heq. rewrite effective_bool in Hk. simpl in Hk.
    by rewrite insert_id.
  - rewrite effective_bool in Hsy. by repeat split.
  - subst c'. unfold exec. rewrite Hrun. by rewrite effective_bool.
Qed.

(** The only exception that leaves [service_set_sync] is one of the
    handler that is not an instance of [Exception]. *)
Lemma service_set_sync_raises env key status force c e c1 :
  service_set_sync env key status force c = (Raised e, c1) ->
  isinstance_Exception e = false /\
  handler_ordinary c key (written c key status force) = false.
Proof.
  intros Hrun.
  destruct (service_set_sync_cases env key status force c)
    as [(_ & _ & _ & _ & _ & Hskip)|[(_ & _ & _ & _ & _ & _ & _ & Hres)|
                        (_ & h & e' & Hreg & Hraise & He & Hrun')]].
  - congruence.
  - unfold result in Hres. rewrite Hrun in Hres. discriminate.
  - rewrite Hrun in Hrun'. injection Hrun' as -> _. split; [exact He |].
    unfold handler_ordinary, written. by rewrite Hreg, Hraise.
Qed.

(** X11: after [service_set_sync(key, b)] with [b] a boolean, whether it
    fired or not and whatever the handler did, [service_get_sync(key)]
    returns [b] and every other key reads as before; and the call has
    returned normally when the handler, if there is one, returned or
    raised an instance of [Exception]. *)
Theorem service_set_sync_stores (env : Env) (key : string) (b force : bool)
    (c : Charm) :
  let c' := exec (service_set_sync env key (PyBool b) force) c in
  service_get_sync c' key = PyBool b /\
  (forall k, k <> key -> service_get_sync c' k = service_get_sync c k) /\
  (handler_ordinary c key (PyBool b) = true ->
   result (service_set_sync env key (PyBool b) force) c = Normal tt).
Proof.
  intros c'.
  destruct (service_set_sync_writes env key b force c) as (Hsy & _).
  fold c' in Hsy. unfold service_get_sync. rewrite Hsy.
  split; [by rewrite lookup_insert_eq |].
  split; [intros k Hne; by rewrite lookup_insert_ne |].
  intros Hord. by apply service_set_sync_returns.
Qed.

(** Setting ["db"] on [watched], whose handler raises [SystemExit]. *)
Lemma service_set_sync_stores_witness :
  "other" <> "db" /\
  service_get_sync
    (exec (service_set_sync base_env "db" (PyBool true) false) watched) "db"
  = PyBool true /\
  service_get_sync
    (exec (service_set_sync base_env "db" (PyBool true) false) watched)
    "other"
  = service_get_sync watched "other".
Proof.
  assert ("other" <> "db") as Hne by by intros [=].
  split; [exact Hne |].
  destruct (service_set_sync_stores base_env "db" true false watched)
    as (Hkey & Hother & _).
  split; [exact Hkey | exact (Hother "other" Hne)].
Defined.

(** X12: [service_set_sync(key)] with the status left out, on a key that
    holds a value, keeps every stored status and calls the key's handler
    (if it has one) once with the stored value; and when the handler
    returns or raises an instance of [Exception], the call re-evaluates
    the state, stamps ["sync"] and projects the status. *)
Theorem service_set_sync_retrigger (env : Env) (key : string) (v : SyncVal)
    (force : bool) (c : Charm) :
  syncs (stored c) !! key = Some v ->
  let c' := exec (service_set_sync env key PyNone force) c in
  syncs (stored c') = syncs (stored c) /\
  (forall h, sync_handlers c !! key = Some (Some h) ->
     handler_calls key v (trace c') = S (handler_calls key v (trace c))) /\
  (handler_ordinary c key v = true ->
   state (stored c') =
     resolve (state (stored c)) (state (stored c)) (service_is_synced c) /\
   stamps (trace c) < stamps (trace c') /\
   projections (trace c) < projections (trace c') /\
   exists ts, updated (stored c') = Some (ts, "sync")).
Proof.
  intros Hk c'.
  destruct (service_set_sync_wrote env key PyNone force c)
    as (Hsy & _ & _ & _ & Hh); [by right |].
  fold c' in Hsy, Hh. rewrite Hk in Hsy, Hh. simpl in Hsy, Hh.
  split; [rewrite Hsy; by apply insert_id |].
  split.
  { intros h Hreg. rewrite Hh, Hreg. by rewrite !bool_decide_eq_true_2. }
  intros Hord.
  assert (c' = exec (modify (with_stored
                     (fun s => set_syncs (<[key := v]> (syncs s)) s)) >>
                  notify key v >> reevaluate env >>
                  service_set_updated env "sync" None >>
                  service_update_status) c) as ->.
  { subst c'. unfold exec at 1. rewrite service_set_sync_eq. simpl.
    rewrite Hk. simpl. by rewrite orb_true_r. }
  destruct (service_set_sync_fired env key v c Hord)
    as (_ & Hst & _ & _ & (ts & Hup & _) & Hs & Hp).
  rewrite Hst, (synced_after_write c key v Hk).
  split; [done |]. by eauto.
Qed.

(** Retriggering ["db"] on [guarded]. *)
Lemma service_set_sync_retrigger_witness :
  syncs (stored guarded) !! "db" = Some (PyBool false) /\
  sync_handlers guarded !! "db" = Some (Some raising_handler) /\
  handler_calls "db" (PyBool false)
    (trace (exec (service_set_sync base_env "db" PyNone false) guarded))
  = S (handler_calls "db" (PyBool false) (trace guarded)).
Proof.
  assert (syncs (stored guarded) !! "db" = Some (PyBool false)) as Hk
    by reflexivity.
  assert (sync_handlers guarded !! "db" = Some (Some raising_handler)) as Hh
    by reflexivity.
  split; [exact Hk |]. split; [exact Hh |].
  destruct (service_set_sync_retrigger base_env "db" (PyBool false) false
              guarded Hk) as (_ & Hcalls & _).
  exact (Hcalls raising_handler Hh).
Defined.

(** X13: a [service_set_sync] that fires, with a handler that returns or
    raises an instance of [Exception] if it has one, re-evaluates the
    state from the sync status it leaves: a charm that is ["started"],
    ["waiting"] or ["broken"] becomes ["started"] if it is now synced,
    stays ["waiting"] if it was waiting and becomes ["broken"] otherwise;
    ["idle"] and ["enabled"] are kept. *)
Theorem service_set_sync_reevaluates (env : Env) (key : string) (b : bool)
    (force : bool) (c : Charm) :
  syncs (stored c) !! key <> Some (PyBool b) \/ force = true ->
  handler_ordinary c key (PyBool b) = true ->
  let c' := exec (service_set_sync env key (PyBool b) force) c in
  state (stored c') =
    (if str_in (state (stored c)) ["started"; "waiting"; "broken"] then
       if service_is_synced c' then "started"
       else if String.eqb (state (stored c)) "waiting" then "waiting"
            else "broken"
     else state (stored c)).
Proof.
  intros Hfires Hord c'.
  destruct (service_set_sync_cases env key (PyBool b) force c)
    as [(_ & Hk & _ & _ & Hf & _)|[(Hsy & Hst & _ & Hrq & _)|
                        (_ & h & e & Hreg & Hraise & He & _)]].
  { rewrite effective_bool in Hk. simpl in Hk.
    destruct Hfires as [Hne| ->]; [by destruct Hne | done]. }
  2: { rewrite effective_bool in Hraise. simpl in Hraise.
       unfold handler_ordinary in Hord. rewrite Hreg, Hraise in Hord.
       simpl in Hord. congruence. }
  fold c' in Hsy, Hst, Hrq. rewrite effective_bool in Hsy, Hst. simpl in *.
  assert (service_is_synced c' =
          service_is_synced
            (with_stored
               (fun s => set_syncs (<[key := PyBool b]> (syncs s)) s) c))
    as ->.
  { unfold service_is_synced. rewrite Hrq. simpl.
    apply is_synced_loop_ext. intros k _. simpl. by rewrite Hsy. }
  rewrite Hst. unfold resolve. simpl.
  set (synced := service_is_synced _).
  repeat match goal with
         | |- context [String.eqb (state (stored c)) ?s] =>
             destruct (String.eqb_spec (state (stored c)) s) as [->|?];
               simpl; try done
         end; by destruct synced.
Qed.

(** A started charm loses ["db"]. *)
Lemma service_set_sync_reevaluates_witness :
  (syncs (stored started_needs_db) !! "db" <> Some (PyBool false) \/
   false = true) /\
  handler_ordinary started_needs_db "db" (PyBool false) = true /\
  state (stored (exec (service_set_sync base_env "db" (PyBool false) false)
                   started_needs_db)) = "broken".
Proof.
  assert (syncs (stored started_needs_db) !! "db" <> Some (PyBool false) \/
          false = true) as Hfires by (left; by intros [=]).
  assert (handler_ordinary started_needs_db "db" (PyBool false) = true)
    as Hord by reflexivity.
  split; [exact Hfires |]. split; [exact Hord |].
  rewrite (service_set_sync_reevaluates base_env "db" false false
             started_needs_db Hfires Hord).
  reflexivity.
Defined.

Lemma service_init_sync_eq env key status handler c :
  service_init_sync env key status handler c =
  if bool_decide (is_Some (syncs (stored c) !! key)) then
    (Normal tt, with_sync_handlers (fun hs => <[key := handler]> hs) c)
  else
    let c1 := exec (service_set_sync env key (PyBool status) false) c in
    match result (service_set_sync env key (PyBool status) false) c with
    | Normal _ =>
        (Normal tt, with_sync_handlers (fun hs => <[key := handler]> hs) c1)
    | Raised e => (Raised e, c1)
    end.
Proof.
  unfold service_init_sync, bind at 1 2, gets.
  destruct (bool_decide (is_Some (syncs (stored c) !! key))); [reflexivity |].
  cbn [negb]. unfold result, exec.
  by destruct (service_set_sync env key (PyBool status) false c)
    as [[[]|e] c1].
Qed.

(** X14: on a key that already holds a status, [service_init_sync]
    returns, registers the handler it is given in place of an earlier one
    and touches nothing else: the record, the trace and the unit status
    are as before.  On a new key it stores the initial status, and the
    only handler that can be called is the one registered for the key
    before the call, not the one being registered; when that handler
    returns or raises an instance of [Exception] the call returns with
    the new handler registered, and when it raises anything else the
    exception leaves [service_init_sync] with the earlier handler still
    in place. *)
Theorem service_init_sync_spec (env : Env) (key : string) (status : bool)
    (handler : option Handler) (c : Charm) :
  let c' := exec (service_init_sync env key status handler) c in
  (is_Some (syncs (stored c) !! key) ->
   result (service_init_sync env key status handler) c = Normal tt /\
   sync_handlers c' = <[key := handler]> (sync_handlers c) /\
   stored c' = stored c /\ trace c' = trace c /\
   unit_status c' = unit_status c) /\
  (syncs (stored c) !! key = None ->
   syncs (stored c') = <[key := PyBool status]> (syncs (stored c)) /\
   (forall k v,
      handler_calls k v (trace c') =
      match sync_handlers c !! key with
      | Some (Some _) =>
          if bool_decide (key = k) && bool_decide (PyBool status = v)
          then S (handler_calls k v (trace c))
          else handler_calls k v (trace c)
      | _ => handler_calls k v (trace c)
      end) /\
   (handler_ordinary c key (PyBool status) = true ->
    result (service_init_sync env key status handler) c = Normal tt /\
    sync_handlers c' = <[key := handler]> (sync_handlers c)) /\
   (forall (h : Handler) e,
      sync_handlers c !! key = Some (Some h) ->
      h key (PyBool status) = Some e ->
      isinstance_Exception e = false ->
      result (service_init_sync env key status handler) c = Raised e /\
      sync_handlers c' = sync_handlers c)).
Proof.
  intros c'. subst c'. unfold result, exec. rewrite service_init_sync_eq.
  split.
  - intros Hsome. by rewrite bool_decide_eq_true_2.
  - intros Hnone.
    rewrite bool_decide_eq_false_2
      by (rewrite Hnone; by intros [? [=]]).
    cbv zeta.
    destruct (service_set_sync_wrote env key (PyBool status) false c)
      as (Hsy & _ & _ & Hhs & Hh).
    { left. rewrite Hnone. simpl. discriminate. }
    rewrite effective_bool in Hsy, Hh. simpl in Hsy, Hh.
    set (c1 := exec (service_set_sync env key (PyBool status) false) c) in *.
    assert (forall r : outcome unit,
              stored (match r with
                      | Normal _ =>
                          (Normal tt,
                           with_sync_handlers
                             (fun hs => <[key := handler]> hs) c1)
                      | Raised e => (Raised e, c1)
                      end).2 = stored c1 /\
              trace (match r with
                     | Normal _ =>
                         (Normal tt,
                          with_sync_handlers
                            (fun hs => <[key := handler]> hs) c1)
                     | Raised e => (Raised e, c1)
                     end).2 = trace c1) as Hsame
      by (intros [[]|e]; by split).
    destruct (Hsame (result (service_set_sync env key (PyBool status) false)
                       c)) as [-> ->].
    split; [exact Hsy |]. split; [exact Hh |]. split.
    + intros Hord.
      rewrite (service_set_sync_returns env key (PyBool status) false c)
        by exact Hord.
      simpl. by rewrite Hhs.
    + intros h e Hreg Hraise He.
      destruct (service_set_sync_cases env key (PyBool status) false c)
        as [(_ & Hk & _)|[(_ & _ & _ & _ & _ & _ & Hord & _)|
                          (_ & h' & e' & Hreg' & Hraise' & _ & Hrun)]].
      * rewrite Hnone in Hk. discriminate.
      * rewrite effective_bool in Hord. simpl in Hord.
        unfold handler_ordinary in Hord. rewrite Hreg, Hraise in Hord.
        simpl in Hord. congruence.
      * rewrite effective_bool in Hraise', Hrun. simpl in Hraise', Hrun.
        rewrite Hreg in Hreg'. injection Hreg' as <-.
        rewrite Hraise in Hraise'. injection Hraise' as <-.
        unfold result. rewrite Hrun. simpl. by rewrite Hhs.
Qed.

(** Initialising ["db"] on a fresh charm. *)
Lemma service_init_sync_spec_witness :
  syncs (stored fresh) !! "db" = None /\
  syncs (stored (exec (service_init_sync base_env "db" false None) fresh))
  = <["db" := PyBool false]> (syncs (stored fresh)).
Proof.
  assert (syncs (stored fresh) !! "db" = None) as Hnew by reflexivity.
  split; [exact Hnew |].
  destruct (service_init_sync_spec base_env "db" false None fresh)
    as (_ & Hfirst).
  destruct (Hfirst Hnew) as [Hsy _]. exact Hsy.
Defined.

Lemma set_sync_action_eq env event c :
  _on_service_set_sync_action env event c =
  match param_key event, param_status event with
  | Some key, Some status =>
      if SyncVal_eqb (service_get_sync c key) PyNone then (Normal tt, c)
      else
        let c1 := exec (service_set_sync env key status false) c in
        match result (service_set_sync env key status false) c with
        | Normal _ => (Normal tt, exec service_update_status c1)
        | Raised e => (Raised e, c1)
        end
  | _, _ => (Normal tt, c)
  end.
Proof.
  unfold _on_service_set_sync_action, try_except.
  destruct (param_key event) as [key|]; [| reflexivity].
  destruct (param_status event) as [status|]; [| reflexivity].
  unfold bind at 1, gets.
  destruct (SyncVal_eqb (service_get_sync c key) PyNone); [reflexivity |].
  cbn [negb]. cbv zeta. unfold result, exec.
  destruct (service_set_sync env key status false c) as [[[]|e] c1] eqn:Hrun.
  - rewrite (bind_normal _ _ c tt c1 Hrun).
    unfold service_update_status. simpl.
    by destruct (service_get_updated c1).
  - destruct (service_set_sync_raises env key status false c e c1 Hrun)
      as [He _].
    unfold bind. rewrite Hrun. simpl. by rewrite He.
Qed.

(** X15: without a [key] or a [status] parameter, or on a key whose
    stored status is [None], the set-sync action returns and leaves the
    charm exactly as it was.  On any other key, known to the tracker or
    not, a boolean status is stored: the guard reads the key with the
    default [False], so an unknown key passes it; and the action returns
    when the handler of the key, if there is one, returns or raises an
    instance of [Exception]. *)
Theorem set_sync_action_spec (env : Env) (event : Event) (c : Charm) :
  let c' := exec (_on_service_set_sync_action env event) c in
  (param_key event = None \/ param_status event = None ->
   _on_service_set_sync_action env event c = (Normal tt, c)) /\
  (forall key, param_key event = Some key ->
     syncs (stored c) !! key = Some PyNone ->
     _on_service_set_sync_action env event c = (Normal tt, c)) /\
  (forall key b, param_key event = Some key ->
     param_status event = Some (PyBool b) ->
     syncs (stored c) !! key <> Some PyNone ->
     syncs (stored c') = <[key := PyBool b]> (syncs (stored c)) /\
     (handler_ordinary c key (PyBool b) = true ->
      result (_on_service_set_sync_action env event) c = Normal tt)).
Proof.
  intros c'. subst c'. unfold result, exec. rewrite set_sync_action_eq.
  split; [| split].
  - intros [-> | ->]; [done |]. by destruct (param_key event).
  - intros key -> Hk. unfold service_get_sync. rewrite Hk. simpl.
    by destruct (param_status event).
  - intros key b -> -> Hne.
    assert (SyncVal_eqb (service_get_sync c key) PyNone = false) as ->.
    { destruct (SyncVal_eqb _ _) eqn:Heq; [| done].
      apply SyncVal_eqb_eq in Heq. unfold service_get_sync in Heq.
      destruct (syncs (stored c) !! key) as [v|]; simpl in Heq;
        [| discriminate]. subst v. by destruct Hne. }
    cbv zeta.
    destruct (service_set_sync_writes env key b false c) as (Hsy & _).
    split.
    + rewrite <- Hsy.
      destruct (result (service_set_sync env key (PyBool b) false) c);
        [| done].
      simpl. by rewrite service_update_status_keeps.
    + intros Hord.
      by rewrite (service_set_sync_returns env key (PyBool b) false c).
Qed.

(** The action creates the key ["db"] on a fresh charm. *)
Lemma set_sync_action_spec_witness :
  syncs (stored fresh) !! "db" <> Some PyNone /\
  syncs (stored (exec (_on_service_set_sync_action base_env db_synced_event)
                   fresh))
  = <["db" := PyBool true]> (syncs (stored fresh)).
Proof.
  assert (syncs (stored fresh) !! "db" <> Some PyNone) as Hne
    by by intros [=].
  split; [exact Hne |].
  destruct (set_sync_action_spec base_env db_synced_event fresh)
    as (_ & _ & Hstores).
  destruct (Hstores "db" true eq_refl eq_refl Hne) as [Hsy _].
  exact Hsy.
Defined.

(** ** The transition gate, again *)

Lemma resolve_idempotent current st synced :
  resolve (resolve current st synced) st synced = resolve current st synced.
Proof.
  unfold resolve.
  destruct (str_in st ["broken"; "waiting"]).
  - change (String.eqb "started" "started") with true. cbv iota.
    destruct synced; [done |]. cbn [negb].
    by destruct (str_in current ["broken"; "started"]).
  - destruct (String.eqb st "started"); [| done].
    destruct synced; [done |]. cbn [negb].
    by destruct (str_in current ["broken"; "started"]).
Qed.

(** X16: [service_set_state] is idempotent: asking for the same state a
    second time changes nothing at all, not even the timestamp or the
    unit status. *)
Theorem service_set_state_idempotent (env : Env) (st : string) (c : Charm) :
  let c1 := exec (service_set_state env st) c in
  service_set_state env st c1 = (Normal tt, c1).
Proof.
  intros c1.
  pose proof (service_set_state_frame env st c)
    as (Hst & _ & Hsy & Hrq & _).
  fold c1 in Hst, Hsy, Hrq.
  assert (service_is_synced c1 = service_is_synced c) as Hsynced.
  { unfold service_is_synced. rewrite Hrq. apply is_synced_loop_ext.
    intros k _. by rewrite Hsy. }
  rewrite service_set_state_eq. cbv zeta.
  rewrite Hsynced, Hst, resolve_idempotent.
  by rewrite String.eqb_refl.
Qed.

(** ** The projected category *)

Lemma status_category_cases (st : string) :
  (status_category st = BlockedStatus <-> st = "broken") /\
  (status_category st = WaitingStatus <-> st = "waiting") /\
  (status_category st = ActiveStatus <-> st = "started") /\
  (status_category st = MaintenanceStatus <->
   st <> "broken" /\ st <> "waiting" /\ st <> "started").
Proof.
  unfold status_category. simpl.
  destruct (String.eqb_spec st "broken") as [->|Hb]; simpl.
  { repeat split; try done. by intros (? & _). }
  destruct (String.eqb_spec st "idle") as [->|Hi]; simpl.
  { repeat split; done. }
  destruct (String.eqb_spec st "enabled") as [->|He]; simpl.
  { repeat split; done. }
  destruct (String.eqb_spec st "waiting") as [->|Hw]; simpl.
  { repeat split; try done. by intros (_ & ? & _). }
  destruct (String.eqb_spec st "started") as [->|Hs]; simpl.
  { repeat split; try done. by intros (_ & _ & ?). }
  repeat split; done.
Qed.

(** ** The decorators *)

(** X17: a function wrapped by [service_forced_update] returns or raises
    exactly as the function does, and either way the charm ends stamped
    with the decorator's tag ([what], or the bracketed qualified name when
    [what] is empty or missing) and with its status projected from the
    record the function left; the wrapper adds one stamp and one
    projection and changes none of the tracked fields. *)
Theorem service_forced_update_spec {A : Type} (env : Env)
    (what : option string) (qualname : string) (func : M A) (c : Charm) :
  let c' := exec (service_forced_update env what qualname func) c in
  let tag := match what with
             | Some w => if String.eqb w "" then "[" +:+ qualname +:+ "]"
                         else w
             | None => "[" +:+ qualname +:+ "]"
             end in
  let ts := clock env (clock_reads (exec func c)) in
  result (service_forced_update env what qualname func) c = result func c /\
  updated (stored c') = Some (ts, tag) /\
  unit_status c' = Some (project (stored c') (ts, tag)) /\
  tracked c' = tracked (exec func c) /\
  stamps (trace c') = S (stamps (trace (exec func c))) /\
  projections (trace c') = S (projections (trace (exec func c))).
Proof.
  intros c' tag ts.
  assert (c' = settle env tag (exec func c)) as ->
    by (subst c'; unfold exec at 1; by rewrite forced_update_eq).
  split; [unfold result at 1; by rewrite forced_update_eq |].
  simpl. autorewrite with calls. by repeat split.
Qed.

(** X18: [log_enter_exit] is transparent: the wrapped function returns or
    raises the same and leaves the same charm, whether the log function
    returns or raises at either end. *)
Theorem log_enter_exit_transparent {A : Type}
    (logfn : LogPhase -> Charm -> option exn) (func : M A) (c : Charm) :
  log_enter_exit logfn func c = func c.
Proof.
  unfold log_enter_exit, try_finally, try_except_all, bind, call_log, ret.
  destruct (logfn ENTER c) as [e1|]; simpl;
    destruct (func c) as [[a|e2] c1]; simpl;
    by destruct (logfn EXIT c1) as [e3|].
Qed.

(** ** Keys come and never go *)

Lemma service_set_sync_lookup env key status force c k :
  let c' := exec (service_set_sync env key status force) c in
  (k <> key -> syncs (stored c') !! k = syncs (stored c) !! k) /\
  (is_Some (syncs (stored c) !! k) -> is_Some (syncs (stored c') !! k)).
Proof.
  intros c'.
  assert (c' = c \/ exists v, syncs (stored c') = <[key := v]> (syncs (stored c)))
    as [->|[v Hsy]].
  { destruct (service_set_sync_cases env key status force c)
      as [(Heq & _)|[(Hsy & _)|(_ & h & e & _ & _ & _ & Hrun)]].
    - by left.
    - right. by eexists.
    - right. subst c'. unfold exec. rewrite Hrun. by eexists. }
  - done.
  - rewrite Hsy. split.
    + intros Hne. by rewrite lookup_insert_ne.
    + intros Hsome. destruct (decide (key = k)) as [->|Hne].
      * rewrite lookup_insert_eq. by eexists.
      * by rewrite lookup_insert_ne.
Qed.

Lemma service_init_sync_lookup env key status handler c k :
  let c' := exec (service_init_sync env key status handler) c in
  (k <> key -> syncs (stored c') !! k = syncs (stored c) !! k) /\
  (is_Some (syncs (stored c) !! k) -> is_Some (syncs (stored c') !! k)).
Proof.
  intros c'.
  assert (stored c' = stored c \/
          stored c' = stored (exec (service_set_sync env key (PyBool status)
                                      false) c)) as [->| ->].
  { subst c'. unfold exec at 1 2. rewrite service_init_sync_eq.
    destruct (bool_decide (is_Some (syncs (stored c) !! key))); [by left |].
    right. cbv zeta.
    by destruct (result (service_set_sync env key (PyBool status) false) c). }
  - done.
  - apply service_set_sync_lookup.
Qed.

Lemma set_sync_action_lookup env event c k :
  let c' := exec (_on_service_set_sync_action env event) c in
  (param_key event <> Some k ->
   syncs (stored c') !! k = syncs (stored c) !! k) /\
  (is_Some (syncs (stored c) !! k) -> is_Some (syncs (stored c') !! k)).
Proof.
  intros c'. subst c'. unfold exec at 1 2. rewrite set_sync_action_eq.
  destruct (param_key event) as [key|]; [| done].
  destruct (param_status event) as [status|]; [| done].
  destruct (SyncVal_eqb (service_get_sync c key) PyNone); [done |].
  cbv zeta.
  assert (stored (match result (service_set_sync env key status false) c with
                  | Normal _ =>
                      (Normal tt,
                       exec service_update_status
                         (exec (service_set_sync env key status false) c))
                  | Raised e =>
                      (Raised e, exec (service_set_sync env key status false) c)
                  end).2
          = stored (exec (service_set_sync env key status false) c)) as ->.
  { destruct (result (service_set_sync env key status false) c); [| done].
    simpl. apply service_update_status_keeps. }
  destruct (service_set_sync_lookup env key status false c k) as [Hother Hsome].
  split; [| exact Hsome]. intros Hne. apply Hother. by intros ->.
Qed.

(** X19: an operation changes the stored status of no key but the one
    it is given, and no operation ever removes a key from the tracker. *)
Theorem sync_keys_frame (env : Env) (op : Op) (c : Charm) (k : string) :
  let c' := exec (run env op) c in
  (op_key op <> Some k -> syncs (stored c') !! k = syncs (stored c) !! k) /\
  (is_Some (syncs (stored c) !! k) -> is_Some (syncs (stored c') !! k)).
Proof.
  intros c'. destruct (is_lifecycle op) eqn:Hop.
  - destruct (lifecycle_frame env op c Hop) as (Hsy & _).
    fold c' in Hsy. by rewrite Hsy.
  - subst c'. destruct op; try discriminate; simpl.
    + destruct (service_init_sync_lookup env key status handler c k)
        as [Hother Hsome].
      split; [| exact Hsome]. intros Hne. apply Hother. by intros ->.
    + done.
    + destruct (frame_service_set_state env st c) as (Hsy & _).
      by rewrite Hsy.
    + destruct (service_set_sync_lookup env key status force c k)
        as [Hother Hsome].
      split; [| exact Hsome]. intros Hne. apply Hother. by intros ->.
    + apply set_sync_action_lookup.
Qed.

(** Setting ["db"] leaves the key ["other"] alone. *)
Lemma sync_keys_frame_witness :
  op_key (Op_service_set_sync "db" (PyBool true) false) <> Some "other" /\
  syncs (stored (exec (run base_env
                         (Op_service_set_sync "db" (PyBool true) false))
                   fresh)) !! "other"
  = syncs (stored fresh) !! "other".
Proof.
  assert (op_key (Op_service_set_sync "db" (PyBool true) false)
          <> Some "other") as Hne by by intros [=].
  split; [exact Hne |].
  destruct (sync_keys_frame base_env
              (Op_service_set_sync "db" (PyBool true) false) fresh "other")
    as [Hother _].
  exact (Hother Hne).
Defined.

(** ** NodeCharm: setting the relations up *)

Lemma run_split {A} (m : M A) c : m c = (result m c, exec m c).
Proof. unfold result, exec. by destruct (m c). Qed.

Lemma init_sync_required env key status handler c :
  required_syncs (exec (service_init_sync env key status handler) c)
  = required_syncs c.
Proof.
  unfold exec. rewrite service_init_sync_eq.
  destruct (bool_decide (is_Some (syncs (stored c) !! key))); [done |].
  cbv zeta.
  destruct (service_set_sync_writes env key status false c) as (_ & Hrq & _).
  by destruct (result (service_set_sync env key (PyBool status) false) c).
Qed.

Lemma init_sync_step env key c :
  (syncs (stored c) !! key = None ->
   handler_ordinary c key (PyBool false) = true) ->
  let c' := exec (service_init_sync env key false None) c in
  service_init_sync env key false None c = (Normal tt, c') /\
  required_syncs c' = required_syncs c /\
  sync_handlers c' = <[key := None]> (sync_handlers c) /\
  syncs (stored c') !! key
    = Some (default (PyBool false) (syncs (stored c) !! key)) /\
  (forall k, k <> key -> syncs (stored c') !! k = syncs (stored c) !! k).
Proof.
  intros Hord c'. subst c'. unfold exec at 1 2 3 4 5.
  rewrite service_init_sync_eq.
  destruct (syncs (stored c) !! key) as [v|] eqn:Hk.
  - rewrite bool_decide_eq_true_2 by by eexists. simpl. by rewrite Hk.
  - rewrite bool_decide_eq_false_2 by by intros [? [=]].
    cbv zeta.
    rewrite (service_set_sync_returns env key (PyBool false) false c)
      by by apply Hord.
    destruct (service_set_sync_writes env key false false c)
      as (Hsy & Hrq & Hhs).
    simpl. rewrite Hsy, Hrq, Hhs. split; [done |]. split; [done |].
    split; [done |]. split; [by rewrite lookup_insert_eq |].
    intros k Hne. by rewrite lookup_insert_ne.
Qed.

Lemma new_keys_step env r rest c :
  new_keys_ordinary c (r :: rest) ->
  new_keys_ordinary (exec (service_init_sync env r false None) c) rest.
Proof.
  intros Hnew r' Hin Hnone.
  destruct (init_sync_step env r c) as (_ & _ & Hhs & Hkey & Hother).
  { apply Hnew, list_elem_of_here. }
  set (c1 := exec (service_init_sync env r false None) c) in *.
  assert (r' <> r) as Hne by (intros ->; by rewrite Hkey in Hnone).
  rewrite (Hother r' Hne) in Hnone.
  pose proof (Hnew r' (list_elem_of_further _ _ _ Hin) Hnone) as Hord.
  unfold handler_ordinary in *. rewrite Hhs.
  by rewrite lookup_insert_ne.
Qed.

Lemma setup_loop_ok env has_event relnames acc c :
  (forall r, r ∈ relnames -> declared has_event r = true) ->
  new_keys_ordinary c relnames ->
  setup_loop env has_event relnames acc c
  = (Normal (acc ++ relnames), init_all env relnames c).
Proof.
  revert acc c. induction relnames as [|r rest IH]; intros acc c Hdecl Hnew.
  - simpl. by rewrite app_nil_r.
  - assert (declared has_event r = true) as Hr
      by apply Hdecl, list_elem_of_here.
    apply andb_true_iff in Hr as [Hj Hd].
    cbn [setup_loop init_all foldl]. unfold get_on_event. rewrite Hj, Hd.
    unfold bind at 1 2, ret.
    destruct (init_sync_step env r c) as (Heq & _).
    { apply Hnew, list_elem_of_here. }
    rewrite (bind_normal _ _ _ _ _ Heq).
    rewrite IH.
    + by rewrite <- app_assoc.
    + intros r' Hr'. by apply Hdecl, list_elem_of_further.
    + by apply new_keys_step.
Qed.

Lemma init_all_spec env relnames c :
  new_keys_ordinary c relnames ->
  let c' := init_all env relnames c in
  required_syncs c' = required_syncs c /\
  (forall k, k ∈ relnames ->
     syncs (stored c') !! k
       = Some (default (PyBool false) (syncs (stored c) !! k)) /\
     sync_handlers c' !! k = Some None) /\
  (forall k, k ∉ relnames ->
     syncs (stored c') !! k = syncs (stored c) !! k /\
     sync_handlers c' !! k = sync_handlers c !! k).
Proof.
  revert c. induction relnames as [|r rest IH]; intros c Hnew; simpl.
  - split; [done |]. split; [by intros k ?%elem_of_nil | done].
  - destruct (init_sync_step env r c) as (_ & Hrq & Hhs & Hkey & Hother).
    { apply Hnew, list_elem_of_here. }
    pose proof (new_keys_step env r rest c Hnew) as Hnew1.
    set (c1 := exec (service_init_sync env r false None) c) in *.
    destruct (IH c1 Hnew1) as (Hrq' & Hin & Hout).
    fold (init_all env rest c1).
    split; [congruence |]. split.
    + intros k Hk. destruct (decide (k ∈ rest)) as [Hrest|Hrest].
      * destruct (Hin k Hrest) as [-> ->]. split; [| done].
        destruct (decide (k = r)) as [->|Hne].
        -- rewrite Hkey. simpl. by destruct (syncs (stored c) !! r).
        -- by rewrite Hother.
      * destruct (Hout k Hrest) as [-> ->].
        apply elem_of_cons in Hk as [->|Hk]; [| done].
        rewrite Hkey, Hhs. by rewrite lookup_insert_eq.
    + intros k Hk. apply not_elem_of_cons in Hk as [Hne Hrest].
      destruct (Hout k Hrest) as [-> ->].
      rewrite Hother, Hhs by done. by rewrite lookup_insert_ne.
Qed.

(** X20: when the charm declares the joined and the departed event of
    every relation of the list, and no listed key that is new has a
    handler that raises outside [Exception],
    [setup_subordinate_relations_and_syncs] returns, the required syncs
    become exactly the list, in order, every listed key holds a status
    ([False] if it was new, its earlier status otherwise) and has no
    handler, and the other keys keep their status and their handler. *)
Theorem setup_subordinate_relations_and_syncs_spec (env : Env)
    (has_event : string -> bool) (relnames : list string) (c : Charm) :
  (forall r, r ∈ relnames -> declared has_event r = true) ->
  new_keys_ordinary c relnames ->
  let c' :=
    exec (setup_subordinate_relations_and_syncs env has_event relnames) c in
  result (setup_subordinate_relations_and_syncs env has_event relnames) c
    = Normal tt /\
  required_syncs c' = relnames /\
  (forall k, k ∈ relnames ->
     syncs (stored c') !! k
       = Some (default (PyBool false) (syncs (stored c) !! k)) /\
     sync_handlers c' !! k = Some None) /\
  (forall k, k ∉ relnames ->
     syncs (stored c') !! k = syncs (stored c) !! k /\
     sync_handlers c' !! k = sync_handlers c !! k).
Proof.
  intros Hdecl Hnew c'.
  assert (setup_subordinate_relations_and_syncs env has_event relnames c
          = (Normal tt, with_required_syncs relnames (init_all env relnames c)))
    as Heq.
  { unfold setup_subordinate_relations_and_syncs.
    by rewrite (bind_normal _ _ _ _ _
                  (setup_loop_ok env has_event relnames [] c Hdecl Hnew)). }
  subst c'. unfold result, exec. rewrite Heq. simpl.
  destruct (init_all_spec env relnames c Hnew) as (_ & Hin & Hout).
  split; [done |]. split; [done |]. split; [exact Hin | exact Hout].
Qed.

(** Setting up the relation ["db"]. *)
Lemma setup_subordinate_relations_and_syncs_spec_witness :
  (forall r, r ∈ ["db"] -> declared any_event r = true) /\
  new_keys_ordinary fresh ["db"] /\
  required_syncs
    (exec (setup_subordinate_relations_and_syncs base_env any_event ["db"])
       fresh) = ["db"].
Proof.
  assert (forall r, r ∈ ["db"] -> declared any_event r = true) as Hdecl
    by (intros r _; reflexivity).
  assert (new_keys_ordinary fresh ["db"]) as Hnew
    by (intros r _ _; reflexivity).
  split; [exact Hdecl |]. split; [exact Hnew |].
  destruct (setup_subordinate_relations_and_syncs_spec base_env any_event
              ["db"] fresh Hdecl Hnew) as (_ & Hrq & _).
  exact Hrq.
Defined.

Lemma bind_raised {A B} (m : M A) (k : A -> M B) c e c1 :
  m c = (Raised e, c1) -> bind m k c = (Raised e, c1).
Proof. intros Hm. unfold bind. by rewrite Hm. Qed.

Lemma setup_loop_fails env has_event relnames acc c :
  (exists r, r ∈ relnames /\ declared has_event r = false) ->
  exists e c1, setup_loop env has_event relnames acc c = (Raised e, c1) /\
               required_syncs c1 = required_syncs c /\
               (new_keys_ordinary c relnames ->
                exn_class e = "AttributeError").
Proof.
  revert acc c. induction relnames as [|r rest IH]; intros acc c (r' & Hin & Hr').
  - by apply elem_of_nil in Hin.
  - cbn [setup_loop]. unfold get_on_event.
    destruct (has_event (replace_dash r +:+ "_relation_joined")) eqn:Hj;
      [| by eexists _, c].
    destruct (has_event (replace_dash r +:+ "_relation_departed")) eqn:Hd;
      [| by eexists _, c].
    unfold bind at 1 2, ret.
    apply elem_of_cons in Hin as [->|Hin].
    { unfold declared in Hr'. by rewrite Hj, Hd in Hr'. }
    pose proof (init_sync_required env r false None c) as Hrq.
    pose proof (run_split (service_init_sync env r false None) c) as Hrun.
    set (c1 := exec (service_init_sync env r false None) c) in *.
    destruct (result (service_init_sync env r false None) c) as [[]|e] eqn:Hres.
    + rewrite (bind_normal _ _ _ _ _ Hrun).
      destruct (IH (acc ++ [r]) c1) as (e & c2 & Hloop & Hrq2 & Hcls);
        [by exists r' |].
      exists e, c2. rewrite Hloop. split; [done |]. split; [congruence |].
      intros Hnew. apply Hcls. by apply new_keys_step.
    + exists e, c1. rewrite (bind_raised _ _ _ _ _ Hrun).
      split; [done |]. split; [exact Hrq |].
      intros Hnew. destruct (init_sync_step env r c) as (Heq & _).
      { apply Hnew, list_elem_of_here. }
      rewrite Heq in Hrun. discriminate.
Qed.

(** X21: when some relation of the list lacks one of its two events,
    [setup_subordinate_relations_and_syncs] raises and the required syncs
    are left as they were, although the relations listed before the
    missing one have been initialised; the exception is the
    [AttributeError] of the missing event when no listed key that is new
    has a handler that raises outside [Exception]. *)
Theorem setup_undeclared_relation (env : Env) (has_event : string -> bool)
    (relnames : list string) (c : Charm) :
  (exists r, r ∈ relnames /\ declared has_event r = false) ->
  let c' :=
    exec (setup_subordinate_relations_and_syncs env has_event relnames) c in
  (exists e,
     result (setup_subordinate_relations_and_syncs env has_event relnames) c
       = Raised e /\
     (new_keys_ordinary c relnames -> exn_class e = "AttributeError")) /\
  required_syncs c' = required_syncs c.
Proof.
  intros Hbad c'.
  destruct (setup_loop_fails env has_event relnames [] c Hbad)
    as (e & c1 & Hrun & Hrq & Hcls).
  subst c'. unfold result, exec, setup_subordinate_relations_and_syncs.
  rewrite (bind_raised _ _ _ _ _ Hrun). simpl. split; [by exists e | done].
Qed.

(** A charm that declares no relation. *)
Lemma setup_undeclared_relation_witness :
  (exists r, r ∈ ["db"] /\ declared no_event r = false) /\
  new_keys_ordinary fresh ["db"] /\
  (exists e,
     result (setup_subordinate_relations_and_syncs base_env no_event ["db"])
       fresh = Raised e /\ exn_class e = "AttributeError") /\
  required_syncs
    (exec (setup_subordinate_relations_and_syncs base_env no_event ["db"])
       fresh) = required_syncs fresh.
Proof.
  assert (exists r, r ∈ ["db"] /\ declared no_event r = false) as Hbad.
  { exists "db". split; [apply list_elem_of_here | reflexivity]. }
  assert (new_keys_ordinary fresh ["db"]) as Hnew
    by (intros r _ _; reflexivity).
  split; [exact Hbad |]. split; [exact Hnew |].
  destruct (setup_undeclared_relation base_env no_event ["db"] fresh Hbad)
    as [(e & Hres & Hcls) Hrq].
  split; [| exact Hrq]. exists e. split; [exact Hres | exact (Hcls Hnew)].
Defined.

(** ** NodeCharm: relations joining and departing *)

(** Setting a key to [True] cannot undo being synced. *)
Lemma synced_monotone c key :
  service_is_synced c = true ->
  service_is_synced
    (with_stored
       (fun s => set_syncs (<[key := PyBool true]> (syncs s)) s) c) = true.
Proof.
  unfold service_is_synced. simpl. rewrite !is_synced_loop_spec.
  intros Hall k Hk. simpl. destruct (decide (key = k)) as [->|Hne].
  - by rewrite lookup_insert_eq.
  - rewrite lookup_insert_ne by done. by apply Hall.
Qed.

Lemma joined_step env key s0 c :
  s0 ∈ ["waiting"; "broken"] ->
  handler_ordinary c key (PyBool true) = true ->
  follows s0 c ->
  let c' := exec (_on_subordinate_relation_joined env key) c in
  follows s0 c' /\
  required_syncs c' = required_syncs c /\
  sync_handlers c' = sync_handlers c /\
  syncs (stored c') = <[key := PyBool true]> (syncs (stored c)).
Proof.
  intros Hs0 Hord Hfol c'. unfold _on_subordinate_relation_joined in c'.
  destruct (service_set_sync_writes env key true false c)
    as (Hsy & Hrq & Hhs).
  fold c' in Hsy, Hrq, Hhs. split; [| by repeat split].
  destruct (service_set_sync_cases env key (PyBool true) false c)
    as [(Heq & _)|[(_ & Hst & _)|(_ & h & e & Hreg & Hraise & He & _)]].
  - fold c' in Heq. by rewrite Heq.
  - fold c' in Hst. rewrite effective_bool in Hst. simpl in Hst.
    assert (service_is_synced c' =
            service_is_synced
              (with_stored
                 (fun s => set_syncs (<[key := PyBool true]> (syncs s)) s) c))
      as Hsynced.
    { unfold service_is_synced. rewrite Hrq. simpl.
      apply is_synced_loop_ext. intros k _. simpl. by rewrite Hsy. }
    unfold follows in *. rewrite Hst, Hsynced, Hfol.
    destruct (service_is_synced c) eqn:Hc.
    + by rewrite (synced_monotone c key Hc).
    + set (synced := service_is_synced _).
      repeat (apply elem_of_cons in Hs0 as [->|Hs0]);
        [by destruct synced.. | by apply elem_of_nil in Hs0].
  - rewrite effective_bool in Hraise. simpl in Hraise.
    unfold handler_ordinary in Hord. rewrite Hreg, Hraise in Hord.
    simpl in Hord. congruence.
Qed.

Lemma join_all_spec env relnames s0 c :
  s0 ∈ ["waiting"; "broken"] ->
  (forall k, k ∈ relnames -> handler_ordinary c k (PyBool true) = true) ->
  follows s0 c ->
  follows s0 (join_all env relnames c).
Proof.
  intros Hs0. revert c. induction relnames as [|r rest IH];
    intros c Hord Hfol; [done |].
  cbn [join_all].
  destruct (joined_step env r s0 c Hs0) as (Hfol1 & _ & Hhs1 & _);
    [apply Hord, list_elem_of_here | exact Hfol |].
  apply IH; [| exact Hfol1].
  intros k Hk. unfold handler_ordinary. rewrite Hhs1.
  by apply Hord, list_elem_of_further.
Qed.

Lemma join_all_writes env relnames c :
  syncs (stored (join_all env relnames c))
  = foldl (fun m r => <[r := PyBool true]> m) (syncs (stored c)) relnames /\
  required_syncs (join_all env relnames c) = required_syncs c.
Proof.
  revert c. induction relnames as [|r rest IH]; intros c; [done |].
  cbn [join_all foldl]. unfold _on_subordinate_relation_joined.
  destruct (service_set_sync_writes env r true false c)
    as (Hsy & Hrq & _).
  destruct (IH (exec (service_set_sync env r (PyBool true) false) c))
    as [-> ->].
  by rewrite Hsy, Hrq.
Qed.

Lemma foldl_insert_keeps (l : list string) (m : gmap string SyncVal) k :
  m !! k = Some (PyBool true) ->
  foldl (fun m r => <[r := PyBool true]> m) m l !! k = Some (PyBool true).
Proof.
  revert m. induction l as [|x l IH]; intros m Hm; [done |].
  cbn [foldl]. apply IH. destruct (decide (x = k)) as [->|Hne];
    [apply lookup_insert_eq | by rewrite lookup_insert_ne].
Qed.

Lemma foldl_insert_true (l : list string) (m : gmap string SyncVal) k :
  k ∈ l ->
  foldl (fun m r => <[r := PyBool true]> m) m l !! k = Some (PyBool true).
Proof.
  revert m. induction l as [|x l IH]; intros m Hk;
    [by apply elem_of_nil in Hk |].
  cbn [foldl]. apply elem_of_cons in Hk as [->|Hk]; [| by apply IH].
  apply foldl_insert_keeps, lookup_insert_eq.
Qed.

(** X22: once every required relation has joined, in any state and
    whatever the handlers do, even if they raise, the charm is synced;
    and if it was ["waiting"] or ["broken"] for want of a sync and the
    handlers of the required keys return or raise instances of
    [Exception], it is ["started"]. *)
Theorem all_relations_joined (env : Env) (c : Charm) :
  let c' := join_all env (required_syncs c) c in
  service_is_synced c' = true /\
  required_syncs c' = required_syncs c /\
  (state (stored c) ∈ ["waiting"; "broken"] ->
   service_is_synced c = false ->
   (forall k, k ∈ required_syncs c ->
      handler_ordinary c k (PyBool true) = true) ->
   state (stored c') = "started").
Proof.
  intros c'.
  destruct (join_all_writes env (required_syncs c) c) as [Hsy Hrq].
  fold c' in Hsy, Hrq.
  assert (service_is_synced c' = true) as Hsynced.
  { unfold service_is_synced. rewrite Hrq. apply is_synced_loop_spec.
    intros k Hk. rewrite Hsy. by apply foldl_insert_true. }
  split; [exact Hsynced |]. split; [exact Hrq |].
  intros Hst Hun Hord.
  assert (follows (state (stored c)) c) as Hfol
    by (unfold follows; by rewrite Hun).
  pose proof (join_all_spec env (required_syncs c) (state (stored c)) c
                Hst Hord Hfol) as Hfol'.
  fold c' in Hfol'. unfold follows in Hfol'. by rewrite Hsynced in Hfol'.
Qed.

(** The relation ["db"] joins a charm that waits for it. *)
Lemma all_relations_joined_witness :
  state (stored waiting_for_db) ∈ ["waiting"; "broken"] /\
  service_is_synced waiting_for_db = false /\
  (forall k, k ∈ required_syncs waiting_for_db ->
     handler_ordinary waiting_for_db k (PyBool true) = true) /\
  state (stored (join_all base_env (required_syncs waiting_for_db)
                   waiting_for_db)) = "started".
Proof.
  assert (state (stored waiting_for_db) ∈ ["waiting"; "broken"]) as Hst
    by apply list_elem_of_here.
  assert (service_is_synced waiting_for_db = false) as Hun by reflexivity.
  assert (forall k, k ∈ required_syncs waiting_for_db ->
            handler_ordinary waiting_for_db k (PyBool true) = true) as Hord
    by (intros k _; reflexivity).
  split; [exact Hst |]. split; [exact Hun |]. split; [exact Hord |].
  destruct (all_relations_joined base_env waiting_for_db) as (_ & _ & Hgo).
  exact (Hgo Hst Hun Hord).
Defined.

(** X23: when a required relation that was not already marked [False]
    departs, the charm is no longer synced, whatever the handler does;
    and when the handler of the key returns or raises an instance of
    [Exception], a ["started"] or ["broken"] charm is ["broken"]
    afterwards and any other state is kept, and from ["started"] the unit
    status shown is a blocked one. *)
Theorem relation_departed_spec (env : Env) (key : string) (c : Charm) :
  key ∈ required_syncs c ->
  syncs (stored c) !! key <> Some (PyBool false) ->
  let c' := exec (_on_subordinate_relation_departed env key) c in
  service_is_synced c' = false /\
  (handler_ordinary c key (PyBool false) = true ->
   state (stored c') =
     (if str_in (state (stored c)) ["started"; "broken"] then "broken"
      else state (stored c)) /\
   (state (stored c) = "started" ->
    exists s, unit_status c' = Some s /\ category s = BlockedStatus)).
Proof.
  intros Hreq Hne c'. unfold _on_subordinate_relation_departed in c'.
  destruct (service_set_sync_writes env key false false c)
    as (Hsy & Hrq & _).
  fold c' in Hsy, Hrq.
  assert (service_is_synced c' = false) as Hun.
  { destruct (service_is_synced c') eqn:Hs; [| done].
    unfold service_is_synced in Hs. rewrite is_synced_loop_spec in Hs.
    rewrite Hrq in Hs. specialize (Hs key Hreq).
    rewrite Hsy, lookup_insert_eq in Hs. discriminate. }
  split; [exact Hun |]. intros Hord.
  assert (c' = exec (modify (with_stored
                     (fun s => set_syncs (<[key := PyBool false]> (syncs s)) s)) >>
                  notify key (PyBool false) >> reevaluate env >>
                  service_set_updated env "sync" None >>
                  service_update_status) c) as Hfire.
  { subst c'. unfold exec at 1. rewrite service_set_sync_eq. simpl.
    unfold effective. simpl.
    destruct (syncs (stored c) !! key) as [[|[]]|]; simpl; try done. }
  destruct (service_set_sync_fired env key (PyBool false) c Hord)
    as (_ & Hst & _ & _ & (ts & _ & Hunit) & _).
  rewrite <- Hfire in Hst, Hunit.
  assert (service_is_synced
            (with_stored
               (fun s => set_syncs (<[key := PyBool false]> (syncs s)) s) c)
          = false) as Hun0.
  { transitivity (service_is_synced c'); [| exact Hun].
    unfold service_is_synced. rewrite Hrq. simpl.
    apply is_synced_loop_ext. intros k _. simpl. by rewrite Hsy. }
  rewrite Hun0 in Hst.
  assert (state (stored c') =
          if str_in (state (stored c)) ["started"; "broken"] then "broken"
          else state (stored c)) as Hstate.
  { rewrite Hst. unfold resolve. simpl.
    repeat match goal with
           | |- context [String.eqb (state (stored c)) ?s] =>
               destruct (String.eqb_spec (state (stored c)) s) as [->|?];
                 simpl; try done
           end.
    by destruct (String.eqb (state (stored c)) "started"). }
  split; [exact Hstate |].
  intros Hstarted. eexists. split; [exact Hunit |].
  simpl. rewrite Hstate, Hstarted. reflexivity.
Qed.

(** The relation ["db"] departs from a started node. *)
Lemma relation_departed_spec_witness :
  "db" ∈ required_syncs node_started /\
  syncs (stored node_started) !! "db" <> Some (PyBool false) /\
  handler_ordinary node_started "db" (PyBool false) = true /\
  state (stored (exec (_on_subordinate_relation_departed base_env "db")
                   node_started)) = "broken".
Proof.
  assert ("db" ∈ required_syncs node_started) as Hreq
    by (apply (bool_decide_unpack _); vm_compute; exact I).
  assert (syncs (stored node_started) !! "db" <> Some (PyBool false)) as Hne
    by (apply (bool_decide_unpack _); vm_compute; exact I).
  assert (handler_ordinary node_started "db" (PyBool false) = true) as Hord
    by (vm_compute; reflexivity).
  split; [exact Hreq |]. split; [exact Hne |]. split; [exact Hord |].
  destruct (relation_departed_spec base_env "db" node_started Hreq Hne)
    as (_ & Hgoes).
  destruct (Hgoes Hord) as [Hst _].
  rewrite Hst. vm_compute. reflexivity.
Defined.

(** ** Syncing when allowed or forced *)

(** X24: [service_sync] on a stamped charm that is ["enabled"],
    ["waiting"] or ["broken"], or with [force] in any state, and with a
    sync hook that returns: the hook is called once, the charm is no
    longer stale, the state and the sync statuses are kept, and the charm
    is stamped ["sync"] with its status projected. *)
Theorem service_sync_runs_spec (env : Env) (force : bool) (c : Charm) :
  state (stored c) ∈ ["enabled"; "waiting"; "broken"] \/ force = true ->
  is_Some (updated (stored c)) ->
  _service_sync env false c = None ->
  let c' := exec (service_sync env force) c in
  result (service_sync env force) c = Normal tt /\
  hook_calls HSync (trace c') = S (hook_calls HSync (trace c)) /\
  stale (stored c') = false /\
  state (stored c') = state (stored c) /\
  syncs (stored c') = syncs (stored c) /\
  exists ts, updated (stored c') = Some (ts, "sync") /\
             unit_status c' = Some (project (stored c') (ts, "sync")).
Proof.
  intros Hcond [u Hu] Hhook c'.
  assert (str_in (state (stored c)) PRESTARTED_STATES || force = true)
    as Hcond'.
  { destruct Hcond as [Hin%str_in_spec| ->]; [| apply orb_true_r].
    unfold PRESTARTED_STATES. by rewrite Hin. }
  assert (c' = settle env "sync"
                 (exec (service_set_stale env false)
                    (record (HookCalled HSync) c))) as ->.
  { subst c'. unfold exec at 1.
    by rewrite (service_sync_runs env force c u Hcond' Hu
                  (ordinary_returns _ Hhook)), Hhook. }
  split.
  { unfold result.
    by rewrite (service_sync_runs env force c u Hcond' Hu
                  (ordinary_returns _ Hhook)). }
  pose proof (service_set_stale_frame env false (record (HookCalled HSync) c))
    as (Hsl & Hst & Hsy & _ & _ & Hh & _).
  simpl in *. autorewrite with calls. rewrite Hh, Hsl, Hst, Hsy.
  autorewrite with calls. rewrite bool_decide_eq_true_2 by done.
  repeat split. by eexists.
Qed.

(** A forced sync on an idle charm. *)
Lemma service_sync_runs_spec_witness :
  stale (stored fresh) = true /\
  stale (stored (exec (service_sync base_env true) fresh)) = false.
Proof.
  split; [reflexivity |].
  destruct (service_sync_runs_spec base_env true fresh) as (_ & _ & Hsl & _);
    [by right | by eexists | reflexivity |].
  exact Hsl.
Defined.

(** ** The config-changed event *)

(** X25: the config-changed event calls its hook once and lets the hook's
    exception through to the caller; raised or not, none of the tracked
    fields changes and the charm ends stamped ["config-changed"] with its
    status projected. *)
Theorem on_config_changed_spec (env : Env) (c : Charm) :
  let c' := exec (_on_config_changed env) c in
  result (_on_config_changed env) c =
    match _service_on_config_changed env c with
    | Some e => Raised e
    | None => Normal tt
    end /\
  hook_calls HConfigChanged (trace c') =
    S (hook_calls HConfigChanged (trace c)) /\
  tracked c' = tracked c /\
  exists ts, updated (stored c') = Some (ts, "config-changed") /\
             unit_status c' = Some (project (stored c') (ts, "config-changed")).
Proof.
  intros c'.
  assert (_on_config_changed env c =
          (match _service_on_config_changed env c with
           | Some e => Raised e
           | None => Normal tt
           end,
           settle env "config-changed" (record (HookCalled HConfigChanged) c)))
    as Heq.
  { unfold _on_config_changed. rewrite forced_update_eq.
    unfold result, exec, call_hook.
    by destruct (_service_on_config_changed env c). }
  subst c'. unfold result, exec. rewrite Heq. simpl.
  autorewrite with calls. rewrite bool_decide_eq_true_2 by done.
  repeat split. by eexists.
Qed.

(** ** What the projection shows *)

Lemma count_synced_le (m : gmap string SyncVal) : count_synced m <= size m.
Proof.
  unfold count_synced. rewrite <- length_map_to_list.
  etransitivity; [apply length_filter |]. by rewrite length_fmap.
Qed.

Lemma filter_truthy_all (l : list SyncVal) :
  length (filter (fun v => truthy v = true) l) = length l <->
  Forall (fun v => truthy v = true) l.
Proof.
  induction l as [|a l IH].
  - split; [by constructor | done].
  - rewrite filter_cons. destruct (decide (truthy a = true)) as [Ha|Ha]; simpl.
    + split.
      * intros [= Hlen]. constructor; [done | by apply IH].
      * intros Hall. f_equal. apply IH. by inversion Hall.
    + split.
      * intros Hlen.
        pose proof (length_filter (fun v => truthy v = true) l). lia.
      * intros Hall. by inversion Hall.
Qed.

Lemma count_synced_all (m : gmap string SyncVal) :
  count_synced m = size m <->
  forall k v, m !! k = Some v -> v = PyBool true.
Proof.
  unfold count_synced. rewrite <- length_map_to_list.
  rewrite <- (length_fmap snd (map_to_list m)), filter_truthy_all.
  rewrite Forall_forall. split.
  - intros Hall k v Hk. apply truthy_true, Hall.
    apply list_elem_of_fmap. exists (k, v). split; [done |].
    by apply elem_of_map_to_list.
  - intros Hall v [[k v'] [-> Hin]]%list_elem_of_fmap. simpl.
    apply truthy_true, (Hall k). by apply elem_of_map_to_list.
Qed.

(** X26: the status [service_update_status] projects from a stamped
    charm is active exactly in ["started"], blocked exactly in ["broken"]
    and waiting exactly in ["waiting"]; its message counts every stored
    key, never shows more synced keys than keys, shows as many exactly
    when every stored status is [True], and then a charm whose required
    keys are all stored is synced. *)
Theorem projection_spec (c : Charm) :
  is_Some (updated (stored c)) ->
  exists s,
    unit_status (exec service_update_status c) = Some s /\
    (category s = ActiveStatus <-> state (stored c) = "started") /\
    (category s = BlockedStatus <-> state (stored c) = "broken") /\
    (category s = WaitingStatus <-> state (stored c) = "waiting") /\
    msg_nsyncs (message s) = size (syncs (stored c)) /\
    msg_nsynced (message s) <= msg_nsyncs (message s) /\
    (msg_nsynced (message s) = msg_nsyncs (message s) <->
     forall k v, syncs (stored c) !! k = Some v -> v = PyBool true) /\
    (msg_nsynced (message s) = msg_nsyncs (message s) ->
     (forall k, k ∈ required_syncs c -> is_Some (syncs (stored c) !! k)) ->
     service_is_synced c = true).
Proof.
  intros [u Hu]. exists (project (stored c) u).
  split; [unfold exec; by rewrite (service_update_status_eq c u Hu) |].
  simpl.
  destruct (status_category_cases (state (stored c)))
    as (Hblocked & Hwaiting & Hactive & _).
  split; [exact Hactive |]. split; [exact Hblocked |].
  split; [exact Hwaiting |].
  split; [done |]. split; [apply count_synced_le |].
    split; [apply count_synced_all |].
    intros Hlen Hreq.
    pose proof (proj1 (count_synced_all (syncs (stored c))) Hlen) as Hall.
    unfold service_is_synced. apply is_synced_loop_spec.
    intros k Hk. destruct (Hreq k Hk) as [v Hv]. rewrite Hv.
    f_equal. by apply (Hall k).
Qed.

(** The status of a fresh charm counts no key. *)
Lemma projection_spec_witness :
  is_Some (updated (stored fresh)) /\
  exists s, unit_status (exec service_update_status fresh) = Some s /\
            msg_nsyncs (message s) = size (syncs (stored fresh)).
Proof.
  assert (is_Some (updated (stored fresh))) as Hu by by eexists.
  split; [exact Hu |].
  destruct (projection_spec fresh Hu) as (s & Hs & _ & _ & _ & Hn & _).
  exists s. split; [exact Hs | exact Hn].
Defined.
